(** * Abnormalie: the anomaly-scoring engine of [abnormalie.js]

    A shallow embedding of the isolation forest, the feature extractor, the
    dynamic threshold and the request analyser of [src/abnormalie.js],
    followed by the properties of the specification that were checked
    against it.

    Modelling conventions.
    - JavaScript numbers are rationals ([Q]): every finite double is a
      rational, and the arithmetic the script does on them is written
      exactly.  [NaN] and [undefined] are [None] where the script can
      produce them.
    - JavaScript strings are [string]; one [ascii] stands for one code unit,
      so [String.length] is the script's [.length].
    - What the browser provides ([Math.random], [Math.log], [**],
      [new URL], [URLSearchParams], [Date.now]) is taken as a parameter;
      what [localStorage.setItem] takes is part of the state.
    - An exception is the outcome [Throw]; the state at the moment of the
      throw is kept, as a [try]/[catch] sees it. *)

From Stdlib Require Import ZArith QArith Qround Qminmax Lia List String Ascii.
From Stdlib Require Import Sorting.Sorted Sorting.Permutation.
From stdpp Require Import base option list gmap strings.
From Stdlib Require ListDec.
From Stdlib Require Import Lqa.

Local Open Scope nat_scope.
Set Warnings "-abstract-large-number".

(** ** Outcomes of a call *)

Inductive outcome (A : Type) : Type :=
| Ret (a : A)      (* the call returned [a] *)
| Throw            (* the call threw (a [TypeError] everywhere in this script) *)
| OutOfFuel.       (* the recursion budget of the model ran out *)

Arguments Ret {A} a.
Arguments Throw {A}.
Arguments OutOfFuel {A}.

Definition obind {A B} (m : outcome A) (k : A -> outcome B) : outcome B :=
  match m with
  | Ret a => k a
  | Throw => Throw
  | OutOfFuel => OutOfFuel
  end.

(** stdpp's monadic notation [x ← m; k] is used for [outcome]. *)
#[export] Instance outcome_ret : MRet outcome := fun _ a => Ret a.
#[export] Instance outcome_bind : MBind outcome := fun _ _ k m => obind m k.

Fixpoint omap {A B} (f : A -> outcome B) (l : list A) : outcome (list B) :=
  match l with
  | [] => Ret []
  | a :: l' => b ← f a; bs ← omap f l'; Ret (b :: bs)
  end.

(** ** Numbers and comparisons *)

Definition Qltb (x y : Q) : bool := negb (Qle_bool y x).

(** [a < b] and [a >= b] of the script: both are false as soon as one side
    is [undefined] or [NaN]. *)
Definition js_lt (a b : option Q) : bool :=
  match a, b with
  | Some x, Some y => Qltb x y
  | _, _ => false
  end.

Definition js_ge (a b : option Q) : bool :=
  match a, b with
  | Some x, Some y => Qle_bool y x
  | _, _ => false
  end.

Definition Qnat (n : nat) : Q := inject_Z (Z.of_nat n).

(** [Math.floor(x)] for an [x] that is not negative, as an array index. *)
Definition floor_index (x : Q) : nat := Z.to_nat (Qfloor x).

(** The entries of an array when none of them is [undefined]. *)
Fixpoint defined {A} (l : list (option A)) : option (list A) :=
  match l with
  | [] => Some []
  | Some a :: l' => match defined l' with Some r => Some (a :: r) | None => None end
  | None :: _ => None
  end.

(** ** Isolation trees *)

(** A feature vector: an array of numbers. *)
Abbreviation point := (list Q).

(** [{size}] or [{feature, splitValue, left, right}]. *)
Inductive tree : Type :=
| Leaf (size : nat)
| Node (feature : nat) (splitValue : option Q) (left right : tree).

Record IsolationForest : Type := {
  numTrees : nat;
  sampleSize : nat;
  maxDepth : nat;
  trees : list tree
}.

(** [new IsolationForest(numTrees, sampleSize, maxDepth)]. *)
Definition new_IsolationForest (nt ss md : nat) : IsolationForest :=
  {| numTrees := nt; sampleSize := ss; maxDepth := md; trees := [] |}.

Definition set_trees (this : IsolationForest) (ts : list tree) : IsolationForest :=
  {| numTrees := numTrees this; sampleSize := sampleSize this;
     maxDepth := maxDepth this; trees := ts |}.

(** [pathLength(dataPoint, tree)].  The test [tree.size <= 1] is false on an
    inner node ([undefined <= 1]) and on a leaf that holds two points or
    more.  Such a leaf has no [feature]: [dataPoint[undefined] < undefined]
    is false, the [else] branch calls [pathLength(dataPoint, tree.right)]
    with [tree.right] undefined, and reading [size] of it throws. *)
Fixpoint pathLength (dataPoint : point) (t : tree) : outcome nat :=
  match t with
  | Leaf size => if size <=? 1 then Ret 1 else Throw
  | Node feature splitValue l r =>
      if js_lt (dataPoint !! feature) splitValue
      then n ← pathLength dataPoint l; Ret (1 + n)
      else n ← pathLength dataPoint r; Ret (1 + n)
  end.

Section Forest.

(** [Math.random()]: the [g]-th draw of the session. *)
Variable Math_random : N -> Q.

(** [Math.floor(Math.random() * len)]. *)
Definition random_index (g : N) (len : nat) : nat :=
  floor_index (Math_random g * Qnat len).

(** [getRandomValue(data, feature)], drawing at position [g].  With no value
    at all, or with an [undefined] among them, [Math.min] and [Math.max]
    make the sum [NaN].  The sum is written exactly; the script rounds it to
    a double, so the split value here is the script's up to that rounding
    (and exactly the script's where all values agree). *)
Definition getRandomValue (data : list point) (feature : nat) (g : N)
  : option Q :=
  match defined (map (fun point : point => point !! feature) data) with
  | Some (v :: vs) =>
      let lo := fold_right Qmin v vs in
      let hi := fold_right Qmax v vs in
      Some (lo + Math_random g * (hi - lo))%Q
  | _ => None
  end.

(** [buildTree(data, depth)] with the draws threaded through: the result is
    the outcome and the position of the next draw, also when the call
    throws.  An entry of [data] may be [undefined] (a sample taken from an
    empty dataset holds nothing else).  [Math.random()] is called before
    [data[0].length] is read, so a throw on an undefined [data[0]] comes one
    draw after [g]; so does the throw of [point[feature]] in
    [getRandomValue], which maps over the points before it draws. *)
Fixpoint buildTree_fuel (fuel md : nat) (data : list (option point))
    (depth : nat) (g : N) : outcome tree * N :=
  if (length data <=? 1) || (md <=? depth) then (Ret (Leaf (length data)), g)
  else
    match fuel with
    | O => (OutOfFuel, g)
    | S fuel' =>
        match data with
        | Some p0 :: _ =>
            let feature := random_index g (length p0) in
            match defined data with
            | None => (Throw, N.succ g)
            | Some pts =>
                let splitValue := getRandomValue pts feature (N.succ g) in
                let left :=
                  List.filter (fun p : point => js_lt (p !! feature) splitValue) pts in
                let right :=
                  List.filter (fun p : point => js_ge (p !! feature) splitValue) pts in
                match buildTree_fuel fuel' md (map Some left) (S depth) (g + 2)%N with
                | (Ret l, g1) =>
                    match buildTree_fuel fuel' md (map Some right) (S depth) g1 with
                    | (Ret r, g2) => (Ret (Node feature splitValue l r), g2)
                    | (Throw, g2) => (Throw, g2)
                    | (OutOfFuel, g2) => (OutOfFuel, g2)
                    end
                | (Throw, g1) => (Throw, g1)
                | (OutOfFuel, g1) => (OutOfFuel, g1)
                end
            end
        | _ => (Throw, N.succ g)
        end
    end.

(** The recursion deepens by one per call and stops at [maxDepth]. *)
Definition buildTree (md : nat) (data : list (option point)) (depth : nat)
    (g : N) : outcome tree * N :=
  buildTree_fuel (md - depth) md data depth g.

(** [getRandomSample(data, sampleSize)]: [sampleSize] draws with
    replacement; [data[i]] is [undefined] when [i] is out of range. *)
Fixpoint getRandomSample (data : list point) (n : nat) (g : N)
  : list (option point) :=
  match n with
  | O => []
  | S n' => data !! random_index g (length data) :: getRandomSample data n' (N.succ g)
  end.

(** The loop of [train]: [k] trees are still to be built.  The forest is
    updated in place, so a throw leaves the trees built so far in it. *)
Fixpoint train_loop (k : nat) (this : IsolationForest) (data : list point)
    (g : N) : outcome unit * IsolationForest * N :=
  match k with
  | O => (Ret tt, this, g)
  | S k' =>
      let sample := getRandomSample data (sampleSize this) g in
      let g0 := (g + N.of_nat (sampleSize this))%N in
      match buildTree (maxDepth this) sample 0 g0 with
      | (Ret t, g') => train_loop k' (set_trees this (trees this ++ [t])) data g'
      | (Throw, g') => (Throw, this, g')
      | (OutOfFuel, g') => (OutOfFuel, this, g')
      end
  end.

(** [train(data)]. *)
Definition train (this : IsolationForest) (data : list point) (g : N)
  : outcome unit * IsolationForest * N :=
  train_loop (numTrees this) (set_trees this []) data g.

End Forest.

Section Score.

(** [Math.log] and [**], as the platform rounds them. *)
Variable Math_log : Q -> Q.
Variable Math_pow : Q -> Q -> Q.

(** [c(n)]. *)
Definition c (n : nat) : Q :=
  if n <=? 1 then 1%Q
  else (2 * (Math_log (Qnat (n - 1)) + (5772 # 10000))
        - 2 * Qnat (n - 1) / Qnat n)%Q.

(** The sum of the path lengths over [numTrees].  The quotient is the
    script's for a forest of one tree or more, which is what the analyser
    makes; with [numTrees] at 0 the script gets [NaN] or [Infinity], which
    a rational does not render. *)
Definition avgPathLength (this : IsolationForest) (pathLengths : list nat) : Q :=
  (Qnat (fold_left Nat.add pathLengths 0%nat) / Qnat (numTrees this))%Q.

(** [predict(dataPoint)]; [n] is [telemetryData.networkRequests.length] at
    the moment of the call. *)
Definition predict (this : IsolationForest) (n : nat) (dataPoint : point)
  : outcome Q :=
  pathLengths ← omap (pathLength dataPoint) (trees this);
  Ret (Math_pow 2 (- avgPathLength this pathLengths / c n))%Q.

End Score.

(** ** Strings *)

Arguments train : simpl never.
Arguments predict : simpl never.
Arguments buildTree : simpl never.

(** [s.split(sep)] for a separator of one character. *)
Fixpoint split (sep : ascii) (s : string) : list string :=
  match s with
  | EmptyString => [EmptyString]
  | String ch s' =>
      if Ascii.eqb ch sep then EmptyString :: split sep s'
      else match split sep s' with
           | first :: rest => String ch first :: rest
           | [] => [String ch EmptyString]
           end
  end.

(** [url.split("?")[0]]. *)
Definition baseOf (url : string) : string :=
  List.hd EmptyString (split "?"%char url).

(** [url.split("?")[1] || ""]. *)
Definition queryOf (url : string) : string :=
  List.nth 1 (split "?"%char url) EmptyString.

Definition hex_digit (n : nat) : ascii :=
  ascii_of_nat (if n <? 10 then 48 + n else 87 + n).

Definition char (n : nat) : string := String (ascii_of_nat n) EmptyString.

(** One code unit inside a JSON string (QuoteJSONString of ECMAScript). *)
Definition json_escape (ch : ascii) : string :=
  let n := nat_of_ascii ch in
  if n =? 8 then "\b"
  else if n =? 9 then "\t"
  else if n =? 10 then "\n"
  else if n =? 12 then "\f"
  else if n =? 13 then "\r"
  else if n =? 34 then String "\"%char (char 34)
  else if n =? 92 then "\\"
  else if n <? 32 then
    String "\"%char (String "u"%char (String "0"%char (String "0"%char
      (String (hex_digit (n / 16)) (String (hex_digit (n mod 16)) EmptyString)))))
  else String ch EmptyString.

Fixpoint json_escape_all (s : string) : string :=
  match s with
  | EmptyString => EmptyString
  | String ch s' => (json_escape ch ++ json_escape_all s')%string
  end.

(** [JSON.stringify(s)] for a string [s]. *)
Definition JSON_stringify (s : string) : string :=
  (char 34 ++ json_escape_all s ++ char 34)%string.

(** ** Requests *)

(** What [new URL(url)] exposes of a URL that parses. *)
Record ParsedURL : Type := {
  href : string;
  hostname : string;
  pathname : string;
  searchParams : string     (* [searchParams.toString()] *)
}.

(** The [options] of a request: [method], [headers] (a plain object) and
    [body] (a string), each of them optional. *)
Record RequestOptions : Type := {
  method : option string;
  headers : option (gmap string string);
  body : option string
}.

(** [options?.body] when it is truthy. *)
Definition truthy_body (options : option RequestOptions) : option string :=
  match options with
  | Some o => match body o with
              | Some b => if String.eqb b EmptyString then None else Some b
              | None => None
              end
  | None => None
  end.

(** [(headers[name] || "").length]. *)
Definition header_length (hs : gmap string string) (name : string) : nat :=
  String.length (default EmptyString (hs !! name)).

(** ** The telemetry store *)

Record TelemetryData : Type := {
  networkRequests : list point;
  isolationForest : option IsolationForest;
  totalRuns : nat;
  repetitiveRequests : gmap string (gset string);
  falsePositives : list string;
  falseNegatives : list string;
  anomalyScores : list Q;
  lastRetrainTime : Z;
  requestFrequency : gmap string nat
}.

Definition initializeTelemetryData (now : Z) : TelemetryData :=
  {| networkRequests := []; isolationForest := None; totalRuns := 0;
     repetitiveRequests := ∅; falsePositives := []; falseNegatives := [];
     anomalyScores := []; lastRetrainTime := now; requestFrequency := ∅ |}.

Definition set_networkRequests (v : list point) (t : TelemetryData) :=
  {| networkRequests := v; isolationForest := isolationForest t;
     totalRuns := totalRuns t; repetitiveRequests := repetitiveRequests t;
     falsePositives := falsePositives t; falseNegatives := falseNegatives t;
     anomalyScores := anomalyScores t; lastRetrainTime := lastRetrainTime t;
     requestFrequency := requestFrequency t |}.

Definition set_isolationForest (v : option IsolationForest) (t : TelemetryData) :=
  {| networkRequests := networkRequests t; isolationForest := v;
     totalRuns := totalRuns t; repetitiveRequests := repetitiveRequests t;
     falsePositives := falsePositives t; falseNegatives := falseNegatives t;
     anomalyScores := anomalyScores t; lastRetrainTime := lastRetrainTime t;
     requestFrequency := requestFrequency t |}.

Definition set_totalRuns (v : nat) (t : TelemetryData) :=
  {| networkRequests := networkRequests t; isolationForest := isolationForest t;
     totalRuns := v; repetitiveRequests := repetitiveRequests t;
     falsePositives := falsePositives t; falseNegatives := falseNegatives t;
     anomalyScores := anomalyScores t; lastRetrainTime := lastRetrainTime t;
     requestFrequency := requestFrequency t |}.

Definition set_repetitiveRequests (v : gmap string (gset string)) (t : TelemetryData) :=
  {| networkRequests := networkRequests t; isolationForest := isolationForest t;
     totalRuns := totalRuns t; repetitiveRequests := v;
     falsePositives := falsePositives t; falseNegatives := falseNegatives t;
     anomalyScores := anomalyScores t; lastRetrainTime := lastRetrainTime t;
     requestFrequency := requestFrequency t |}.

Definition set_falsePositives (v : list string) (t : TelemetryData) :=
  {| networkRequests := networkRequests t; isolationForest := isolationForest t;
     totalRuns := totalRuns t; repetitiveRequests := repetitiveRequests t;
     falsePositives := v; falseNegatives := falseNegatives t;
     anomalyScores := anomalyScores t; lastRetrainTime := lastRetrainTime t;
     requestFrequency := requestFrequency t |}.

Definition set_falseNegatives (v : list string) (t : TelemetryData) :=
  {| networkRequests := networkRequests t; isolationForest := isolationForest t;
     totalRuns := totalRuns t; repetitiveRequests := repetitiveRequests t;
     falsePositives := falsePositives t; falseNegatives := v;
     anomalyScores := anomalyScores t; lastRetrainTime := lastRetrainTime t;
     requestFrequency := requestFrequency t |}.

Definition set_anomalyScores (v : list Q) (t : TelemetryData) :=
  {| networkRequests := networkRequests t; isolationForest := isolationForest t;
     totalRuns := totalRuns t; repetitiveRequests := repetitiveRequests t;
     falsePositives := falsePositives t; falseNegatives := falseNegatives t;
     anomalyScores := v; lastRetrainTime := lastRetrainTime t;
     requestFrequency := requestFrequency t |}.

Definition set_lastRetrainTime (v : Z) (t : TelemetryData) :=
  {| networkRequests := networkRequests t; isolationForest := isolationForest t;
     totalRuns := totalRuns t; repetitiveRequests := repetitiveRequests t;
     falsePositives := falsePositives t; falseNegatives := falseNegatives t;
     anomalyScores := anomalyScores t; lastRetrainTime := v;
     requestFrequency := requestFrequency t |}.

Definition set_requestFrequency (v : gmap string nat) (t : TelemetryData) :=
  {| networkRequests := networkRequests t; isolationForest := isolationForest t;
     totalRuns := totalRuns t; repetitiveRequests := repetitiveRequests t;
     falsePositives := falsePositives t; falseNegatives := falseNegatives t;
     anomalyScores := anomalyScores t; lastRetrainTime := lastRetrainTime t;
     requestFrequency := v |}.

(** What [logAnomaly] prints.  A request identifier is kept as the draw of
    [Math.random] it is rendered from. *)
Inductive LogEntry : Type :=
| AnomalousRequest (requestId : Q) (url : string) (score threshold : Q)
| RepetitiveRequest (requestId : Q) (url : string)
| IdentifiersDetected (requestId : Q) (url : string) (identifiers : list string)
| MonitoringInitialized.

(** The script's state: the telemetry object, the position in the stream of
    random draws, the console, the item kept in [localStorage], and what
    the storage takes: [localStorage.setItem] throws, on a full quota for
    one, for an item that [setItem_accepts] refuses. *)
Record World : Type := {
  telemetryData : TelemetryData;
  draws : N;
  console : list LogEntry;
  useLocalStorage : bool;
  localStorage : option TelemetryData;
  setItem_accepts : TelemetryData -> bool
}.

Definition with_telemetry (f : TelemetryData -> TelemetryData) (w : World) : World :=
  {| telemetryData := f (telemetryData w); draws := draws w; console := console w;
     useLocalStorage := useLocalStorage w; localStorage := localStorage w;
     setItem_accepts := setItem_accepts w |}.

Definition set_draws (g : N) (w : World) : World :=
  {| telemetryData := telemetryData w; draws := g; console := console w;
     useLocalStorage := useLocalStorage w; localStorage := localStorage w;
     setItem_accepts := setItem_accepts w |}.

Definition logAnomaly (e : LogEntry) (w : World) : World :=
  {| telemetryData := telemetryData w; draws := draws w;
     console := console w ++ [e];
     useLocalStorage := useLocalStorage w; localStorage := localStorage w;
     setItem_accepts := setItem_accepts w |}.

(** [saveTelemetryData()]: when the storage is in use the whole object is
    written; a write that throws is swallowed by the [try] of the function
    and leaves the item that was stored before. *)
Definition saveTelemetryData (w : World) : World :=
  if useLocalStorage w then
    if setItem_accepts w (telemetryData w) then
      {| telemetryData := telemetryData w; draws := draws w; console := console w;
         useLocalStorage := true; localStorage := Some (telemetryData w);
         setItem_accepts := setItem_accepts w |}
    else w
  else w.

(** [array.push(x); if (array.length > cap) array.shift()]. *)
Definition push_capped {A} (cap : nat) (l : list A) (x : A) : list A :=
  let l' := l ++ [x] in
  if cap <? length l' then List.tl l' else l'.

(** ** The dynamic threshold *)

Fixpoint insert_sorted (x : Q) (l : list Q) : list Q :=
  match l with
  | [] => [x]
  | y :: l' => if Qle_bool x y then x :: l else y :: insert_sorted x l'
  end.

(** [[...scores].sort((a, b) => a - b)]. *)
Definition sort_ascending (scores : list Q) : list Q :=
  fold_right insert_sorted [] scores.

(** [calculateDynamicThreshold(scores)]; [None] would be [undefined]. *)
Definition calculateDynamicThreshold (scores : list Q) : option Q :=
  if length scores =? 0 then Some (8 # 10)%Q
  else
    let sortedScores := sort_ascending scores in
    let index := floor_index ((95 # 100) * Qnat (length sortedScores)) in
    sortedScores !! index.

(** ** The request analyser *)

Section Engine.

Variable Math_random : N -> Q.
Variable Math_log : Q -> Q.
Variable Math_pow : Q -> Q -> Q.

(** [new URL(url)]: [None] when the constructor throws. *)
Variable new_URL : string -> option ParsedURL.

(** [Array.from(new URLSearchParams(query).entries()).sort().toString()]. *)
Variable sortedParams : string -> string.

(** [extractIdentifiers(data)]: the three regular expressions of the script
    are not spelled out.  The function catches its own exceptions. *)
Variable extractIdentifiers : string -> list string.

Definition isValidUrl (url : string) : bool :=
  match new_URL url with Some _ => true | None => false end.

(** [extractFeatures(url, options)], reading the frequency map [freq]. *)
Definition extractFeatures (freq : gmap string nat) (url : string)
    (options : option RequestOptions) : outcome point :=
  let hs := default ∅ (options ≫= headers) in
  let b := default EmptyString (truthy_body options) in
  match new_URL url with
  | None => Throw
  | Some parsedUrl =>
      Ret (map Qnat
        [ String.length url;
          String.length (default EmptyString (options ≫= method));
          String.length (JSON_stringify b);
          size hs;
          header_length hs "Content-Type";
          header_length hs "Authorization";
          header_length hs "User-Agent";
          String.length (hostname parsedUrl);
          length (split "/"%char (pathname parsedUrl));
          String.length (searchParams parsedUrl);
          default 0 (freq !! baseOf (href parsedUrl)) ])
  end.

(** A step of the analyser: an outcome and the state it leaves. *)
Definition step (A : Type) : Type := World -> outcome A * World.

Definition sbind {A B} (m : step A) (k : A -> step B) : step B :=
  fun w =>
    match m w with
    | (Ret a, w') => k a w'
    | (Throw, w') => (Throw, w')
    | (OutOfFuel, w') => (OutOfFuel, w')
    end.

Definition sret {A} (a : A) : step A := fun w => (Ret a, w).

(** [try { m } catch {}]. *)
Definition try_catch (m : step unit) : step unit :=
  fun w =>
    match m w with
    | (Throw, w') => (Ret tt, w')
    | r => r
    end.

(** [generateRequestId()]. *)
Definition generateRequestId : step Q :=
  fun w => (Ret (Math_random (draws w)), set_draws (N.succ (draws w)) w).

(** Lines 146-150: the feature vector joins the bounded history. *)
Definition step_features (url : string) (options : option RequestOptions)
  : step point :=
  fun w =>
    match extractFeatures (requestFrequency (telemetryData w)) url options with
    | Ret features =>
        (Ret features,
         with_telemetry (fun t =>
           set_networkRequests (push_capped 10000 (networkRequests t) features) t) w)
    | Throw => (Throw, w)
    | OutOfFuel => (OutOfFuel, w)
    end.

(** Lines 153-154: the counter of the base URL. *)
Definition step_frequency (url : string) : step unit :=
  fun w =>
    let baseUrl := baseOf url in
    (Ret tt,
     with_telemetry (fun t =>
       set_requestFrequency
         (<[baseUrl := default 0 (requestFrequency t !! baseUrl) + 1]>
            (requestFrequency t)) t) w).

Definition retrain_due (t : TelemetryData) (currentTime : Z) : bool :=
  (100 <=? length (networkRequests t))
  && (negb (bool_decide (is_Some (isolationForest t)))
      || (3600000 <? currentTime - lastRetrainTime t)%Z).

(** Lines 157-162.  The new forest is stored before it is trained, and
    [train] fills that same object. *)
Definition step_retrain (currentTime : Z) : step unit :=
  fun w =>
    if retrain_due (telemetryData w) currentTime then
      let '(o, forest, g) :=
        train Math_random (new_IsolationForest 200 512 15)
              (networkRequests (telemetryData w)) (draws w) in
      let w1 := set_draws g (with_telemetry (set_isolationForest (Some forest)) w) in
      match o with
      | Ret _ => (Ret tt, with_telemetry (set_lastRetrainTime currentTime) w1)
      | Throw => (Throw, w1)
      | OutOfFuel => (OutOfFuel, w1)
      end
    else (Ret tt, w).

(** Lines 165-175. *)
Definition step_score (requestId : Q) (url : string) (features : point)
  : step unit :=
  fun w =>
    match isolationForest (telemetryData w) with
    | None => (Ret tt, w)
    | Some forest =>
        match predict Math_log Math_pow forest
                (length (networkRequests (telemetryData w))) features with
        | Ret anomalyScore =>
            let w1 := with_telemetry (fun t =>
              set_anomalyScores (push_capped 1000 (anomalyScores t) anomalyScore) t) w in
            match calculateDynamicThreshold (anomalyScores (telemetryData w1)) with
            | Some dynamicThreshold =>
                if Qltb dynamicThreshold anomalyScore
                then (Ret tt, logAnomaly
                        (AnomalousRequest requestId url anomalyScore dynamicThreshold) w1)
                else (Ret tt, w1)
            | None => (Ret tt, w1)
            end
        | Throw => (Throw, w)
        | OutOfFuel => (OutOfFuel, w)
        end
    end.

(** Lines 178-188.  [seen] is the set of the base URL, an empty one being
    stored first when the base URL has none. *)
Definition step_repetition (requestId : Q) (url : string) : step unit :=
  fun w =>
    let baseRequestUrl := baseOf url in
    let seen := default ∅ (repetitiveRequests (telemetryData w) !! baseRequestUrl) in
    let w1 := with_telemetry (fun t =>
      set_repetitiveRequests (<[baseRequestUrl := seen]> (repetitiveRequests t)) t) w in
    let paramHash := sortedParams (queryOf url) in
    if bool_decide (paramHash ∈ seen)
    then (Ret tt, logAnomaly (RepetitiveRequest requestId url) w1)
    else (Ret tt,
          with_telemetry (fun t =>
            set_repetitiveRequests
              (<[baseRequestUrl := {[paramHash]} ∪ seen]> (repetitiveRequests t)) t) w1).

(** Lines 191-195. *)
Definition step_identifiers (requestId : Q) (url : string)
    (options : option RequestOptions) : step unit :=
  fun w =>
    let body :=
      match truthy_body options with
      | Some b => JSON_stringify b
      | None => EmptyString
      end in
    let identifiers := extractIdentifiers body in
    if 0 <? length identifiers
    then (Ret tt, logAnomaly (IdentifiersDetected requestId url identifiers) w)
    else (Ret tt, w).

(** The statements inside the [try] of [analyzeNetworkRequest]; [now] is
    what [Date.now()] returns during this call. *)
Definition analyze_body (url : string) (options : option RequestOptions)
    (now : Z) : step unit :=
  if negb (isValidUrl url) then sret tt
  else
    sbind generateRequestId (fun requestId =>
    sbind (step_features url options) (fun features =>
    sbind (step_frequency url) (fun _ =>
    sbind (step_retrain now) (fun _ =>
    sbind (step_score requestId url features) (fun _ =>
    sbind (step_repetition requestId url) (fun _ =>
    sbind (step_identifiers requestId url options) (fun _ =>
    fun w => (Ret tt, saveTelemetryData w)))))))).

(** The statements of [analyze_body] that follow the retrain policy. *)
Definition tail_steps (requestId : Q) (url : string) (features : point)
    (options : option RequestOptions) : step unit :=
  sbind (step_score requestId url features) (fun _ =>
  sbind (step_repetition requestId url) (fun _ =>
  sbind (step_identifiers requestId url options) (fun _ =>
  fun w => (Ret tt, saveTelemetryData w)))).

(** [analyzeNetworkRequest(url, options, response)]. *)
Definition analyzeNetworkRequest (url : string) (options : option RequestOptions)
    (now : Z) : step unit :=
  try_catch (analyze_body url options now).

(** [window.reportFalsePositive] and [window.reportFalseNegative]. *)
Definition reportFalsePositive (requestId : string) (w : World) : World :=
  saveTelemetryData
    (with_telemetry (fun t => set_falsePositives (falsePositives t ++ [requestId]) t) w).

Definition reportFalseNegative (requestId : string) (w : World) : World :=
  saveTelemetryData
    (with_telemetry (fun t => set_falseNegatives (falseNegatives t ++ [requestId]) t) w).

(** What reaches the script after it has started. *)
Inductive event : Type :=
| Request (url : string) (options : option RequestOptions) (now : Z)
| FalsePositive (requestId : string)
| FalseNegative (requestId : string).

Definition handle (e : event) (w : World) : World :=
  match e with
  | Request url options now => snd (analyzeNetworkRequest url options now w)
  | FalsePositive requestId => reportFalsePositive requestId w
  | FalseNegative requestId => reportFalseNegative requestId w
  end.

Definition run (events : list event) (w : World) : World :=
  fold_left (fun w e => handle e w) events w.

End Engine.

(** The script started at time [now] with nothing stored: the telemetry is
    initialised, the run is counted and saved, the console gets its first
    line.  The storage, when there is one, is one that takes every write.
    (A session that starts from a stored item is not modelled: what
    [JSON.parse] gives back is not a telemetry object of this type, its
    sets and its forest having lost their methods.) *)
Definition start (now : Z) (storage : bool) : World :=
  logAnomaly MonitoringInitialized
    (saveTelemetryData
       {| telemetryData := set_totalRuns 1 (initializeTelemetryData now);
          draws := 0%N; console := []; useLocalStorage := storage;
          localStorage := None; setItem_accepts := fun _ => true |}).

(** ** Routing of points through a tree *)

(** The turns [pathLength] takes for [p]: [false] is left, [true] is right. *)
Fixpoint route (t : tree) (p : point) : list bool :=
  match t with
  | Leaf _ => []
  | Node feature splitValue l r =>
      if js_lt (p !! feature) splitValue
      then false :: route l p
      else true :: route r p
  end.

(** The leaves of a tree: the path from the root and the recorded size. *)
Fixpoint leaves (t : tree) : list (list bool * nat) :=
  match t with
  | Leaf size => [([], size)]
  | Node _ _ l r =>
      map (fun ps : list bool * nat => (false :: fst ps, snd ps)) (leaves l)
      ++ map (fun ps : list bool * nat => (true :: fst ps, snd ps)) (leaves r)
  end.

(** The recorded size of the leaf that [p] is routed to. *)
Fixpoint leaf_reached (t : tree) (p : point) : nat :=
  match t with
  | Leaf size => size
  | Node feature splitValue l r =>
      if js_lt (p !! feature) splitValue
      then leaf_reached l p
      else leaf_reached r p
  end.

(** How many points of [data] are routed to the leaf at [path]. *)
Definition routed (t : tree) (data : list point) (path : list bool) : nat :=
  length (List.filter (fun p => bool_decide (route t p = path)) data).

(** [Math.random()] returns a number of [[0, 1)]. *)
Definition unit_interval (rnd : N -> Q) : Prop :=
  forall g, (0 <= rnd g)%Q /\ (rnd g < 1)%Q.

(** Every feature of [p] is at least the one of [q]. *)
Definition dominates (p q : point) : Prop :=
  forall i y, q !! i = Some y -> exists x, p !! i = Some x /\ (y <= x)%Q.


(** [t] is a tree that [buildTree] makes of a sample of [sampleSize] points
    of [data]. *)
Definition built_from (rnd : N -> Q) (this : IsolationForest)
    (data : list point) (t : tree) : Prop :=
  exists pts g1 g2,
    length pts = sampleSize this
    /\ Forall (fun p => In p data) pts
    /\ buildTree rnd (maxDepth this) (map Some pts) 0 g1 = (Ret t, g2).

(** ** A sample platform

    Concrete stand-ins for the browser, used where a property is shown on
    an explicit input. *)

(** A stream of draws in [[0, 1)]. *)
Definition sample_random (i : N) : Q :=
  Z.of_N ((i * i * 7919 + i * 104729 + 12345) mod 1000003) # 1000003.

(** [new URL(url)] on the URLs of the examples; any other string is taken
    as one that does not parse. *)
Definition sample_URL (url : string) : option ParsedURL :=
  if String.eqb url "http://a.com" then
    Some {| href := "http://a.com/"; hostname := "a.com"; pathname := "/";
            searchParams := "" |}
  else if String.eqb url "http://b.com" then
    Some {| href := "http://b.com/"; hostname := "b.com"; pathname := "/";
            searchParams := "" |}
  else if String.eqb url "http://a.com/api?k=1" then
    Some {| href := "http://a.com/api?k=1"; hostname := "a.com";
            pathname := "/api"; searchParams := "k=1" |}
  else if String.eqb url "http://a.com/api?k=2" then
    Some {| href := "http://a.com/api?k=2"; hostname := "a.com";
            pathname := "/api"; searchParams := "k=2" |}
  else None.

(** The sorted entries of a query of one pair at most, as the examples have
    them: ["k=1"] gives ["k,1"]. *)
Definition sample_sortedParams (query : string) : string :=
  if String.eqb query "k=1" then "k,1"
  else if String.eqb query "k=2" then "k,2"
  else query.

(** Rough rational stand-ins for [Math.log] and [**]; no example depends
    on their values. *)
Definition sample_log (x : Q) : Q := (2 * (x - 1) / (x + 1))%Q.
Definition sample_pow (base e : Q) : Q := (1 / (1 - e * (base - 1)))%Q.

(** A scanner that finds nothing. *)
Definition sample_scan (data : string) : list string := [].

(** The feature vector of [fetch("http://a.com")]. *)
Definition sample_point : point := map Qnat [12; 0; 2; 0; 0; 0; 0; 5; 2; 0; 0].

(** ** Notions used in the statements *)

(** The state in which the retrain policy is applied during the ingest of
    [url]: the request identifier is drawn, [features] has joined the
    history and the counter of the base URL is updated. *)
Definition before_retrain (url : string) (features : point) (w : World) : World :=
  with_telemetry (fun t =>
    set_requestFrequency
      (<[baseOf url := default 0 (requestFrequency t !! baseOf url) + 1]>
         (requestFrequency t)) t)
    (with_telemetry (fun t =>
       set_networkRequests (push_capped 10000 (networkRequests t) features) t)
       (set_draws (N.succ (draws w)) w)).

(** The entries of the console that report an anomalous score. *)
Definition is_anomalous (e : LogEntry) : bool :=
  match e with AnomalousRequest _ _ _ _ => true | _ => false end.

(** The entries of the console that report a repetition of [url]. *)
Definition is_repetition_of (url : string) (e : LogEntry) : bool :=
  match e with RepetitiveRequest _ u => String.eqb u url | _ => false end.

(** 1 for a request whose URL parses, 0 for any other event. *)
Definition counts (new_URL : string -> option ParsedURL) (e : event) : nat :=
  match e with
  | Request url _ _ => match new_URL url with Some _ => 1 | None => 0 end
  | _ => 0
  end.

(** The requests among [events] whose URL parses. *)
Definition valid_requests (new_URL : string -> option ParsedURL)
    (events : list event) : nat :=
  length (List.filter (fun e =>
            match e with
            | Request url _ _ => bool_decide (is_Some (new_URL url))
            | _ => false
            end) events).

(** Both histories are within their caps. *)
Definition within_caps (w : World) : Prop :=
  length (networkRequests (telemetryData w)) <= 10000
  /\ length (anomalyScores (telemetryData w)) <= 1000.

(** What the steps after the retrain policy never touch. *)
Definition core (w : World) :=
  (networkRequests (telemetryData w), requestFrequency (telemetryData w),
   isolationForest (telemetryData w), lastRetrainTime (telemetryData w),
   useLocalStorage w).

(** No entry of the console reports an anomalous score. *)
Definition no_anomalous (w : World) : Prop :=
  forallb (fun e => negb (is_anomalous e)) (console w) = true.

(** The retrain policy as the specification words it, for a model [forest]
    stored before the call and a history [h] that holds the new request. *)
Definition retrain_expected (forest : option IsolationForest) (h : list point)
    (lastRetrain now : Z) : Prop :=
  (forest = None /\ 100 <= length h)
  \/ (forest <> None /\ (3600000 < now - lastRetrain)%Z).

(** What holds of the state after [n] requests with a URL that parses. *)
Definition model_follows_count (n : nat) (w : World) : Prop :=
  length (networkRequests (telemetryData w)) = Nat.min n 10000
  /\ (n < 100 -> isolationForest (telemetryData w) = None /\ no_anomalous w)
  /\ (100 <= n ->
      exists forest,
        isolationForest (telemetryData w) = Some forest
        /\ length (trees forest) = 200).

(** ** A session in which scoring fails

    99 requests to ["http://a.com"] and then requests to ["http://b.com"],
    all at time 0 and without options.  The URL has no path, so its
    [href], ["http://a.com/"], is not the key under which it is counted:
    every request gets the feature vector [sample_point]. *)
Definition request_a : event := Request "http://a.com" None 0.
Definition request_b : event := Request "http://b.com" None 0.
Definition warmup : list event := repeat request_a 99.

(** The state after the 100th request of that session, the first one to
    ["http://b.com"]: the model, with the trees [ts], was stored at time 0
    and scoring threw. *)
Definition after_first_b (w99 : World) (ts : list tree) (g' : N) : World :=
  with_telemetry (set_lastRetrainTime 0)
    (set_draws g'
       (with_telemetry
          (set_isolationForest (Some (set_trees (new_IsolationForest 200 512 15) ts)))
          (before_retrain "http://b.com" sample_point w99))).

(** ** The identifier scanner

    [extractIdentifiers] of the script, with its three regular expressions
    read by a matcher for the constructs they use: a character class
    repeated between a least and a largest number of times (greedy, giving
    characters back one by one when the rest of the pattern does not
    match) and the word boundary [\b]. *)

Module Scanner.

Definition code_in (lo hi : nat) (ch : ascii) : bool :=
  (lo <=? nat_of_ascii ch) && (nat_of_ascii ch <=? hi).

(** [\d], [[a-fA-F0-9]], [[a-zA-Z0-9_-]] and [\w]. *)
Definition is_digit (ch : ascii) : bool := code_in 48 57 ch.
Definition is_hex (ch : ascii) : bool :=
  code_in 97 102 ch || code_in 65 70 ch || is_digit ch.
Definition is_alpha (ch : ascii) : bool := code_in 97 122 ch || code_in 65 90 ch.
Definition is_token (ch : ascii) : bool :=
  is_alpha ch || is_digit ch || Ascii.eqb ch "_" || Ascii.eqb ch "-".
Definition is_word (ch : ascii) : bool :=
  is_alpha ch || is_digit ch || Ascii.eqb ch "_".
Definition is_dash (ch : ascii) : bool := Ascii.eqb ch "-".
Definition is_dot (ch : ascii) : bool := Ascii.eqb ch ".".

(** One element of a pattern: [cls{least,most}] (no [most] for [{n,}]), or
    [\b]. *)
Inductive item : Type :=
| Chars (cls : ascii -> bool) (least : nat) (most : option nat)
| Boundary.

Definition pattern : Type := list item.

Definition exactly (cls : ascii -> bool) (n : nat) : item := Chars cls n (Some n).

(** [/[a-fA-F0-9]{8}-[a-fA-F0-9]{4}-[a-fA-F0-9]{4}-[a-fA-F0-9]{4}-[a-fA-F0-9]{12}/]. *)
Definition uuid_pattern : pattern :=
  [ exactly is_hex 8; exactly is_dash 1; exactly is_hex 4; exactly is_dash 1;
    exactly is_hex 4; exactly is_dash 1; exactly is_hex 4; exactly is_dash 1;
    exactly is_hex 12 ].

(** [/[a-zA-Z0-9_-]{20,}/]. *)
Definition token_pattern : pattern := [ Chars is_token 20 None ].

(** [/\b\d{1,3}\.\d{1,3}\.\d{1,3}\.\d{1,3}\b/]. *)
Definition ip_pattern : pattern :=
  [ Boundary; Chars is_digit 1 (Some 3); exactly is_dot 1;
    Chars is_digit 1 (Some 3); exactly is_dot 1;
    Chars is_digit 1 (Some 3); exactly is_dot 1;
    Chars is_digit 1 (Some 3); Boundary ].

(** The number of leading characters of [s] in [cls], [most] at most. *)
Fixpoint run_length (cls : ascii -> bool) (most : option nat) (s : string) : nat :=
  match most with
  | Some O => 0
  | _ =>
      match s with
      | String ch s' =>
          if cls ch then S (run_length cls (option_map Nat.pred most) s') else 0
      | EmptyString => 0
      end
  end.

(** The first [k] characters of [s], the last of them (or [prev] when there
    is none), and what follows them. *)
Fixpoint take (k : nat) (prev : option ascii) (s : string)
  : string * option ascii * string :=
  match k, s with
  | S k', String ch s' =>
      let '(taken, last, rest) := take k' (Some ch) s' in
      (String ch taken, last, rest)
  | _, _ => (EmptyString, prev, s)
  end.

(** [\b] between [prev] and the first character of [rest]: exactly one of
    the two is a word character (a missing one is not). *)
Definition at_boundary (prev : option ascii) (rest : string) : bool :=
  let before := match prev with Some ch => is_word ch | None => false end in
  let after := match rest with String ch _ => is_word ch | EmptyString => false end in
  xorb before after.

(** The first of [f k], [f (k - 1)], ..., [f least] that succeeds. *)
Fixpoint descend {A} (f : nat -> option A) (k least : nat) : option A :=
  if k <? least then None
  else
    match f k with
    | Some a => Some a
    | None =>
        match k with
        | O => None
        | S k' => descend f k' least
        end
    end.

(** The text that [items] matches at the start of [rest], [prev] being the
    character before it. *)
Fixpoint match_items (items : pattern) (prev : option ascii) (rest : string)
  : option string :=
  match items with
  | [] => Some EmptyString
  | Boundary :: items' =>
      if at_boundary prev rest then match_items items' prev rest else None
  | Chars cls least most :: items' =>
      descend
        (fun k =>
           let '(taken, last, rest') := take k prev rest in
           match match_items items' last rest' with
           | Some m => Some (taken ++ m)%string
           | None => None
           end)
        (run_length cls most rest) least
  end.

(** The matches of a global regular expression from left to right: after a
    match the search goes on behind it ([skip] counts the characters of the
    last match that are still ahead). *)
Fixpoint scan (p : pattern) (prev : option ascii) (s : string) (skip : nat)
  {struct s} : list string :=
  match skip with
  | S skip' =>
      match s with
      | String ch s' => scan p (Some ch) s' skip'
      | EmptyString => []
      end
  | O =>
      match match_items p prev s with
      | Some m =>
          m :: match s with
               | String ch s' => scan p (Some ch) s' (String.length m - 1)
               | EmptyString => []
               end
      | None =>
          match s with
          | String ch s' => scan p (Some ch) s' 0
          | EmptyString => []
          end
      end
  end.

(** [data.match(pattern)], [null] read as no match. *)
Definition matches (p : pattern) (data : string) : list string :=
  scan p None data 0.

(** [[...new Set(identifiers)]]: the first occurrence of each string, in
    order. *)
Fixpoint dedupe (seen l : list string) : list string :=
  match l with
  | [] => []
  | x :: l' =>
      if existsb (String.eqb x) seen then dedupe seen l'
      else x :: dedupe (x :: seen) l'
  end.

(** [extractIdentifiers(data)] for a string [data].  (Its [catch] would
    only be reached when [push(...matches)] gets more arguments than the
    engine allows, which is not modelled.) *)
Definition extractIdentifiers (data : string) : list string :=
  dedupe []
    (matches uuid_pattern data ++ matches token_pattern data
     ++ matches ip_pattern data).

(** Every character of [s] is in [cls]. *)
Fixpoint all_chars (cls : ascii -> bool) (s : string) : bool :=
  match s with
  | EmptyString => true
  | String ch s' => cls ch && all_chars cls s'
  end.

(** [m] is made as [items] asks: one piece per class, of an allowed length
    and with characters of the class only. *)
Fixpoint shape (items : pattern) (m : string) : Prop :=
  match items with
  | [] => m = EmptyString
  | Boundary :: items' => shape items' m
  | Chars cls least most :: items' =>
      exists a b,
        m = (a ++ b)%string
        /\ least <= String.length a
        /\ (forall n, most = Some n -> String.length a <= n)
        /\ all_chars cls a = true
        /\ shape items' b
  end.

(** The least and the largest length of a text of the shape [items]. *)
Fixpoint min_length (items : pattern) : nat :=
  match items with
  | [] => 0
  | Boundary :: items' => min_length items'
  | Chars _ least _ :: items' => least + min_length items'
  end.

Fixpoint max_length (items : pattern) : option nat :=
  match items with
  | [] => Some 0
  | Boundary :: items' => max_length items'
  | Chars _ _ most :: items' =>
      match most, max_length items' with
      | Some n, Some n' => Some (n + n')
      | _, _ => None
      end
  end.

(** The first character of [s], if any, is not in [cls]. *)
Definition stops (cls : ascii -> bool) (s : string) : Prop :=
  match s with
  | EmptyString => True
  | String ch _ => cls ch = false
  end.

(** The last character of [s], if any, is not in [cls]. *)
Fixpoint ends_outside (cls : ascii -> bool) (s : string) : Prop :=
  match s with
  | EmptyString => True
  | String ch EmptyString => cls ch = false
  | String _ s' => ends_outside cls s'
  end.

End Scanner.

(** ** Notions used in the further statements *)

(** No character of [s] is a question mark. *)
Definition plain (s : string) : bool :=
  Scanner.all_chars (fun ch => negb (Ascii.eqb ch "?"%char)) s.





(** The stored item is the telemetry object as it is now. *)
Definition in_sync (w : World) : Prop :=
  localStorage w = Some (telemetryData w).

(** The storage as the steps before the save leave it: whether it is in
    use, the item it holds and what it takes. *)
Definition storage_of (w : World) :=
  (useLocalStorage w, localStorage w, setItem_accepts w).

(** What the session shows of the storage while it is out of use. *)
Definition offline (w : World) :=
  (useLocalStorage w, if useLocalStorage w then None else localStorage w).

(** The event is not an ingest that throws half-way. *)
Definition completes (Math_random : N -> Q) (Math_log : Q -> Q)
    (Math_pow : Q -> Q -> Q) (new_URL : string -> option ParsedURL)
    (sortedParams : string -> string) (extractIdentifiers : string -> list string)
    (e : event) (w : World) : Prop :=
  match e with
  | Request url options now =>
      fst (analyze_body Math_random Math_log Math_pow new_URL sortedParams
             extractIdentifiers url options now w) = Ret tt
  | _ => True
  end.

(** The longest walk from the root of a tree to a leaf, in edges. *)
Fixpoint height (t : tree) : nat :=
  match t with
  | Leaf _ => 0
  | Node _ _ l r => S (Nat.max (height l) (height r))
  end.

(** The sizes that the leaves of a tree record, added up. *)
Fixpoint recorded (t : tree) : nat :=
  match t with
  | Leaf size => size
  | Node _ _ l r => recorded l + recorded r
  end.

(** The nodes of a tree that are not leaves. *)
Fixpoint inner_nodes (t : tree) : nat :=
  match t with
  | Leaf _ => 0
  | Node _ _ l r => S (inner_nodes l + inner_nodes r)
  end.

(** How many of [scores] are above [v]. *)
Definition above (v : Q) (scores : list Q) : nat :=
  length (List.filter (Qltb v) scores).

(** What the score relies on: [Math.log] is not negative from 1 on and at
    least one half from 2 on, and a power of 2 with an exponent that is not
    positive lies between 0 and 1. *)
Definition log_grows (Math_log : Q -> Q) : Prop :=
  (forall x, (1 <= x)%Q -> (0 <= Math_log x)%Q)
  /\ (forall x, (2 <= x)%Q -> ((1 # 2) <= Math_log x)%Q).

Definition pow_shrinks (Math_pow : Q -> Q -> Q) : Prop :=
  forall e, (e <= 0)%Q -> (0 <= Math_pow 2 e)%Q /\ (Math_pow 2 e <= 1)%Q.

(** Every score is a number of [[0, 1]]. *)
Definition unit_scores (scores : list Q) : Prop :=
  Forall (fun s => (0 <= s)%Q /\ (s <= 1)%Q) scores.




(** A feature vector as [extractFeatures] makes it: 11 numbers, none of
    them negative. *)
Definition feature_vector (p : point) : Prop :=
  length p = 11 /\ Forall (fun x => (0 <= x)%Q) p.

(** How often the character [ch] occurs in [s]. *)
Fixpoint count_char (ch : ascii) (s : string) : nat :=
  match s with
  | EmptyString => 0
  | String ch' s' => (if Ascii.eqb ch' ch then 1 else 0) + count_char ch s'
  end.

(** * Properties *)

(** The two tests of [saveTelemetryData]: is the storage in use, and does
    it take the item. *)
Ltac save_cases w :=
  destruct (useLocalStorage w);
  [ match goal with
    | |- context [if setItem_accepts ?v ?t then _ else _] =>
        destruct (setItem_accepts v t)
    | _ => idtac
    end
  | ].

(** ** Trees *)

Lemma defined_map_Some {A} (l : list A) : defined (map Some l) = Some l.
Proof. induction l as [|a l IH]; simpl; [reflexivity | now rewrite IH]. Qed.

Lemma defined_map_lookup (data : list point) (i k : nat) :
  i < k -> Forall (fun p : point => length p = k) data ->
  exists vs, defined (map (fun p : point => p !! i) data) = Some vs
             /\ length vs = length data.
Proof.
  intros Hi Hall. induction Hall as [|p data Hp _ IH].
  - now exists [].
  - destruct IH as (vs & Hvs & Hlen).
    destruct (lookup_lt_is_Some_2 p i) as [v Hv]; [lia|].
    exists (v :: vs). cbn [map defined length].
    now rewrite Hv, Hvs, Hlen.
Qed.

Lemma floor_index_lt (x : Q) (n : nat) :
  0 < n -> (x < Qnat n)%Q -> floor_index x < n.
Proof.
  intros Hn Hx. unfold floor_index, Qnat in *.
  assert (H : (Qfloor x < Z.of_nat n)%Z).
  { rewrite Zlt_Qlt. eapply Qle_lt_trans; [apply Qfloor_le | exact Hx]. }
  lia.
Qed.

Lemma length_filter_filter {A} (f h : A -> bool) (l : list A) :
  length (List.filter f (List.filter h l))
  = length (List.filter (fun a => h a && f a) l).
Proof.
  induction l as [|a l IH]; simpl; [reflexivity|].
  destruct (h a); simpl; [destruct (f a); simpl; now rewrite IH | exact IH].
Qed.

Lemma Forall_filter_length (k : nat) (f : point -> bool) (data : list point) :
  Forall (fun p : point => length p = k) data ->
  Forall (fun p : point => length p = k) (List.filter f data).
Proof.
  intros H. rewrite List.Forall_forall in *. intros p Hp.
  apply List.filter_In in Hp. now apply H.
Qed.

Section ForestFacts.

Variable Math_random : N -> Q.

Lemma random_index_lt (g : N) (len : nat) :
  unit_interval Math_random -> 0 < len -> random_index Math_random g len < len.
Proof.
  intros Hu Hlen. apply floor_index_lt; [exact Hlen|].
  destruct (Hu g) as [H0 H1].
  assert (Hpos : (0 < Qnat len)%Q).
  { unfold Qnat. change 0%Q with (inject_Z 0). rewrite <- Zlt_Qlt. lia. }
  apply Qlt_le_trans with (1 * Qnat len)%Q.
  - now apply Qmult_lt_r.
  - rewrite Qmult_1_l. apply Qle_refl.
Qed.

(** Termination: a budget of [maxDepth - depth] calls is enough, whatever
    the points are. *)
Lemma buildTree_fuel_returns (fuel md : nat) :
  forall (data : list point) (depth : nat) (g : N),
    md - depth <= fuel ->
    exists t g',
      buildTree_fuel Math_random fuel md (map Some data) depth g = (Ret t, g').
Proof.
  induction fuel as [|fuel IH]; intros data depth g Hfuel; simpl.
  - destruct (length (map Some data) <=? 1) eqn:Hlen; simpl; [eauto|].
    destruct (md <=? depth) eqn:Hd; simpl; [eauto|].
    apply Nat.leb_gt in Hd. lia.
  - destruct ((length (map Some data) <=? 1) || (md <=? depth)) eqn:Hc; [eauto|].
    destruct data as [|p0 data]; [discriminate Hc|].
    change (map Some (p0 :: data)) with (Some p0 :: map Some data).
    change (defined (Some p0 :: map Some data))
      with (match defined (map Some data) with
            | Some r => Some (p0 :: r) | None => None end).
    rewrite defined_map_Some. cbv zeta.
    match goal with
    | |- context [buildTree_fuel _ fuel md (map Some ?l) (S depth) (g + 2)%N] =>
        destruct (IH l (S depth) (g + 2)%N) as (tl & g1 & ->); [lia|]
    end.
    simpl.
    match goal with
    | |- context [buildTree_fuel _ fuel md (map Some ?l) (S depth) g1] =>
        destruct (IH l (S depth) g1) as (tr & g2 & ->); [lia|]
    end.
    simpl. eauto.
Qed.

(** The result does not depend on the budget once it is large enough. *)
Lemma buildTree_fuel_stable (fuel md : nat) :
  forall (data : list (option point)) (depth : nat) (g : N) t g',
    buildTree_fuel Math_random fuel md data depth g = (Ret t, g') ->
    forall fuel', fuel <= fuel' ->
      buildTree_fuel Math_random fuel' md data depth g = (Ret t, g').
Proof.
  induction fuel as [|fuel IH]; intros data depth g t g' H fuel' Hle.
  - simpl in H.
    destruct ((length data <=? 1) || (md <=? depth)) eqn:Hc; [|discriminate H].
    destruct fuel'; simpl; now rewrite Hc.
  - destruct fuel' as [|fuel']; [lia|].
    simpl in H |- *.
    destruct ((length data <=? 1) || (md <=? depth)) eqn:Hc; [exact H|].
    destruct data as [|[p0|] data]; try discriminate H.
    destruct (defined (Some p0 :: data)) as [pts|]; [|discriminate H].
    cbv zeta in H |- *.
    match type of H with
    | context [buildTree_fuel _ fuel md ?l (S depth) (g + 2)%N] =>
        destruct (buildTree_fuel Math_random fuel md l (S depth) (g + 2)%N)
          as [[tl| |] g1] eqn:Hl; try discriminate H;
        rewrite (IH _ _ _ _ _ Hl fuel') by lia
    end.
    match type of H with
    | context [buildTree_fuel _ fuel md ?l (S depth) g1] =>
        destruct (buildTree_fuel Math_random fuel md l (S depth) g1)
          as [[tr| |] g2] eqn:Hr; try discriminate H;
        rewrite (IH _ _ _ _ _ Hr fuel') by lia
    end.
    exact H.
Qed.

Lemma buildTree_fuel_leaf (fuel md : nat) (data : list (option point))
    (depth : nat) (g : N) :
  (length data <=? 1) || (md <=? depth) = true ->
  buildTree_fuel Math_random fuel md data depth g = (Ret (Leaf (length data)), g).
Proof. intros H. destruct fuel; simpl; now rewrite H. Qed.

(** One level of [buildTree] on an array that holds points only. *)
Lemma buildTree_fuel_node (fuel md : nat) (p0 : point) (data : list point)
    (depth : nat) (g : N) :
  (length (map Some (p0 :: data)) <=? 1) || (md <=? depth) = false ->
  buildTree_fuel Math_random (S fuel) md (map Some (p0 :: data)) depth g
  = let f := random_index Math_random g (length p0) in
    let sv := getRandomValue Math_random (p0 :: data) f (N.succ g) in
    match buildTree_fuel Math_random fuel md
            (map Some (List.filter (fun p : point => js_lt (p !! f) sv) (p0 :: data)))
            (S depth) (g + 2)%N with
    | (Ret l, g1) =>
        match buildTree_fuel Math_random fuel md
                (map Some (List.filter (fun p : point => js_ge (p !! f) sv) (p0 :: data)))
                (S depth) g1 with
        | (Ret r, g2) => (Ret (Node f sv l r), g2)
        | (Throw, g2) => (Throw, g2)
        | (OutOfFuel, g2) => (OutOfFuel, g2)
        end
    | (Throw, g1) => (Throw, g1)
    | (OutOfFuel, g1) => (OutOfFuel, g1)
    end.
Proof.
  intros Hc.
  change (buildTree_fuel Math_random (S fuel) md (map Some (p0 :: data)) depth g)
    with (if (length (map Some (p0 :: data)) <=? 1) || (md <=? depth)
          then (Ret (Leaf (length (map Some (p0 :: data)))), g)
          else
            let f := random_index Math_random g (length p0) in
            match defined (map Some (p0 :: data)) with
            | None => (Throw, N.succ g)
            | Some pts =>
                let sv := getRandomValue Math_random pts f (N.succ g) in
                match buildTree_fuel Math_random fuel md
                        (map Some (List.filter (fun p : point => js_lt (p !! f) sv) pts))
                        (S depth) (g + 2)%N with
                | (Ret l, g1) =>
                    match buildTree_fuel Math_random fuel md
                            (map Some (List.filter (fun p : point => js_ge (p !! f) sv) pts))
                            (S depth) g1 with
                    | (Ret r, g2) => (Ret (Node f sv l r), g2)
                    | (Throw, g2) => (Throw, g2)
                    | (OutOfFuel, g2) => (OutOfFuel, g2)
                    end
                | (Throw, g1) => (Throw, g1)
                | (OutOfFuel, g1) => (OutOfFuel, g1)
                end
            end).
  rewrite Hc, defined_map_Some. reflexivity.
Qed.

End ForestFacts.

Lemma filter_all_length {A} (f : A -> bool) (l : list A) :
  (forall a, In a l -> f a = true) -> List.filter f l = l.
Proof.
  induction l as [|a l IH]; intros H; simpl; [reflexivity|].
  rewrite (H a) by now left. f_equal. apply IH. intros b Hb. apply H. now right.
Qed.

Lemma filter_none {A} (f : A -> bool) (l : list A) :
  (forall a, In a l -> f a = false) -> List.filter f l = [].
Proof.
  induction l as [|a l IH]; intros H; simpl; [reflexivity|].
  rewrite (H a) by now left. apply IH. intros b Hb. apply H. now right.
Qed.

Lemma js_ge_negb_lt (x y : Q) :
  js_ge (Some x) (Some y) = negb (js_lt (Some x) (Some y)).
Proof. unfold js_ge, js_lt, Qltb. now rewrite negb_involutive. Qed.

Lemma routed_left (f : nat) (sv : option Q) (l r : tree) (data : list point)
    (path : list bool) :
  routed l (List.filter (fun p : point => js_lt (p !! f) sv) data) path
  = routed (Node f sv l r) data (false :: path).
Proof.
  unfold routed. rewrite length_filter_filter. f_equal.
  apply List.filter_ext. intros p. cbn [route].
  destruct (js_lt (p !! f) sv); cbn [andb].
  - apply bool_decide_ext. split; [congruence | now intros [= ->]].
  - symmetry. apply bool_decide_eq_false. discriminate.
Qed.

Lemma routed_right (f : nat) (x : Q) (l r : tree) (data : list point)
    (path : list bool) :
  (forall p, In p data -> is_Some (p !! f)) ->
  routed r (List.filter (fun p : point => js_ge (p !! f) (Some x)) data) path
  = routed (Node f (Some x) l r) data (true :: path).
Proof.
  intros Hdef. unfold routed. rewrite length_filter_filter. f_equal.
  apply List.filter_ext_in. intros p Hp. cbn [route].
  destruct (Hdef p Hp) as [v ->]. rewrite js_ge_negb_lt.
  destruct (js_lt (Some v) (Some x)); cbn [andb negb].
  - symmetry. apply bool_decide_eq_false. discriminate.
  - apply bool_decide_ext. split; [congruence | now intros [= ->]].
Qed.

Section ForestCounts.

Variable Math_random : N -> Q.
Hypothesis random_unit : unit_interval Math_random.

Lemma getRandomValue_defined (data : list point) (i k : nat) (g : N) :
  i < k -> data <> [] -> Forall (fun p : point => length p = k) data ->
  exists x, getRandomValue Math_random data i g = Some x.
Proof.
  intros Hi Hne Hall. unfold getRandomValue.
  destruct (defined_map_lookup data i k Hi Hall) as (vs & -> & Hlen).
  destruct vs as [|v vs]; [|eauto].
  destruct data; [congruence | discriminate Hlen].
Qed.

(** Every leaf records the number of points that are routed to it. *)
Lemma buildTree_leaf_sizes (k : nat) (Hk : 0 < k) (fuel md : nat) :
  forall (data : list point) (depth : nat) (g : N) (t : tree) (g' : N),
    Forall (fun p : point => length p = k) data ->
    buildTree_fuel Math_random fuel md (map Some data) depth g = (Ret t, g') ->
    Forall (fun ps => snd ps = routed t data (fst ps)) (leaves t).
Proof.
  assert (Hleaf : forall data : list point,
    Forall (fun ps => snd ps = routed (Leaf (length (map Some data))) data (fst ps))
           (leaves (Leaf (length (map Some data))))).
  { intros data. constructor; [|constructor]. cbn [fst snd]. unfold routed.
    rewrite filter_all_length; [now rewrite length_map|].
    intros p _. cbn [route]. now apply bool_decide_eq_true. }
  induction fuel as [|fuel IH]; intros data depth g t g' Hall H.
  - simpl in H.
    destruct ((length (map Some data) <=? 1) || (md <=? depth)); [|discriminate H].
    injection H as <- <-. apply Hleaf.
  - destruct ((length (map Some data) <=? 1) || (md <=? depth)) eqn:Hc.
    { rewrite buildTree_fuel_leaf in H by exact Hc.
      injection H as <- <-. apply Hleaf. }
    destruct data as [|p0 data]; [discriminate Hc|].
    rewrite buildTree_fuel_node in H by exact Hc. cbv zeta in H.
    set (f := random_index Math_random g (length p0)) in *.
    assert (Hf : f < k).
    { pose proof (Forall_inv Hall) as Hp0. cbv beta in Hp0. subst f.
      rewrite <- Hp0.
      apply random_index_lt; [exact random_unit | lia]. }
    destruct (getRandomValue_defined (p0 :: data) f k (N.succ g) Hf) as [x Hx];
      [discriminate | exact Hall |].
    rewrite Hx in H.
    set (left := List.filter (fun p : point => js_lt (p !! f) (Some x)) (p0 :: data)) in *.
    set (right := List.filter (fun p : point => js_ge (p !! f) (Some x)) (p0 :: data)) in *.
    destruct (buildTree_fuel Math_random fuel md (map Some left) (S depth) (g + 2)%N)
      as [[tl| |] g1] eqn:Hl; try discriminate H.
    destruct (buildTree_fuel Math_random fuel md (map Some right) (S depth) g1)
      as [[tr| |] g2] eqn:Hr; try discriminate H.
    injection H as <- <-.
    cbn [leaves]. apply Forall_app. split; apply Forall_map.
    + eapply Forall_impl; [eapply IH; [|exact Hl]; now apply Forall_filter_length|].
      intros [path size] Hps. cbn [fst snd] in *. rewrite Hps. apply routed_left.
    + eapply Forall_impl; [eapply IH; [|exact Hr]; now apply Forall_filter_length|].
      intros [path size] Hps. cbn [fst snd] in *. rewrite Hps. apply routed_right.
      intros p Hp. apply lookup_lt_is_Some_2.
      rewrite List.Forall_forall in Hall. rewrite (Hall p Hp). exact Hf.
Qed.

End ForestCounts.

(** ** The degenerate split: one value for the chosen feature *)

Lemma Qmin_same (v : Q) : Qmin v v = v.
Proof.
  unfold Qmin, GenericMinMax.gmin, Qcompare. now rewrite Z.compare_refl.
Qed.

Lemma Qmax_same (v : Q) : Qmax v v = v.
Proof.
  unfold Qmax, GenericMinMax.gmax, Qcompare. now rewrite Z.compare_refl.
Qed.

Lemma fold_Qmin_same (v : Q) (n : nat) : fold_right Qmin v (repeat v n) = v.
Proof. induction n as [|n IH]; simpl; [reflexivity|]. rewrite IH. apply Qmin_same. Qed.

Lemma fold_Qmax_same (v : Q) (n : nat) : fold_right Qmax v (repeat v n) = v.
Proof. induction n as [|n IH]; simpl; [reflexivity|]. rewrite IH. apply Qmax_same. Qed.

Lemma defined_constant (data : list point) (i : nat) (v : Q) :
  (forall p, In p data -> p !! i = Some v) ->
  defined (map (fun p : point => p !! i) data) = Some (repeat v (length data)).
Proof.
  induction data as [|p data IH]; intros H; [reflexivity|].
  cbn [map defined length repeat].
  rewrite (H p) by now left. rewrite IH; [reflexivity|].
  intros q Hq. apply H. now right.
Qed.

Lemma Qltb_irrefl_eq (x y : Q) : (y == x)%Q -> Qltb x y = false.
Proof.
  intros H. unfold Qltb. apply negb_false_iff, Qle_bool_iff.
  rewrite H. apply Qle_refl.
Qed.

Lemma Qle_bool_eq (x y : Q) : (y == x)%Q -> Qle_bool y x = true.
Proof. intros H. apply Qle_bool_iff. rewrite H. apply Qle_refl. Qed.

(** When every point has the value [v] at [feature], the split value is
    [v], nothing goes left and everything goes right. *)
Lemma getRandomValue_constant (rnd : N -> Q) (data : list point)
    (feature : nat) (v : Q) (g : N) :
  data <> [] ->
  (forall p, In p data -> p !! feature = Some v) ->
  exists sv,
    getRandomValue rnd data feature g = Some sv
    /\ (sv == v)%Q
    /\ List.filter (fun p : point => js_lt (p !! feature) (Some sv)) data = []
    /\ List.filter (fun p : point => js_ge (p !! feature) (Some sv)) data = data.
Proof.
  intros Hne Hv. unfold getRandomValue. rewrite (defined_constant _ _ _ Hv).
  destruct data as [|p0 data]; [congruence|]. cbn [length repeat].
  rewrite fold_Qmin_same, fold_Qmax_same.
  eexists. split; [reflexivity|].
  assert (Heq : (v + rnd g * (v - v) == v)%Q) by ring.
  split; [exact Heq|]. split.
  - apply filter_none. intros p Hp. rewrite (Hv p Hp).
    apply Qltb_irrefl_eq, Heq.
  - apply filter_all_length. intros p Hp. rewrite (Hv p Hp).
    apply Qle_bool_eq, Heq.
Qed.

(** C7.  [buildTree] returns on every dataset of feature vectors (all of
    one positive length [k]) and for every [maxDepth]: a budget of
    [maxDepth - depth] calls is enough and any larger one gives the same
    tree.  Every leaf of the tree records the number of points of the
    dataset that are routed to it.  In the degenerate case, where all points
    agree on the chosen feature, the split value is that value, the left
    part is empty and the right part is the whole dataset, so only the depth
    bound ends the recursion. *)
Theorem buildTree_terminates_and_counts (Math_random : N -> Q) (md k : nat)
    (data : list point) (depth : nat) (g : N) :
  unit_interval Math_random ->
  0 < k ->
  data <> [] ->
  Forall (fun p : point => length p = k) data ->
  (exists t g',
      buildTree Math_random md (map Some data) depth g = (Ret t, g')
      /\ (forall fuel, md - depth <= fuel ->
            buildTree_fuel Math_random fuel md (map Some data) depth g = (Ret t, g'))
      /\ Forall (fun ps => snd ps = routed t data (fst ps)) (leaves t))
  /\ (forall feature v,
        (forall p, In p data -> p !! feature = Some v) ->
        exists sv,
          getRandomValue Math_random data feature g = Some sv
          /\ (sv == v)%Q
          /\ List.filter (fun p : point => js_lt (p !! feature) (Some sv)) data = []
          /\ List.filter (fun p : point => js_ge (p !! feature) (Some sv)) data = data).
Proof.
  intros Hu Hk Hne Hall. split.
  - destruct (buildTree_fuel_returns Math_random (md - depth) md data depth g)
      as (t & g' & Ht); [lia|].
    exists t, g'. split; [exact Ht|]. split.
    + intros fuel Hfuel. eapply buildTree_fuel_stable; [exact Ht | exact Hfuel].
    + eapply buildTree_leaf_sizes; [exact Hu | exact Hk | exact Hall | exact Ht].
  - intros feature v Hv. now apply getRandomValue_constant.
Qed.

Lemma sample_random_unit : unit_interval sample_random.
Proof.
  intros g. unfold sample_random.
  set (x := ((g * g * 7919 + g * 104729 + 12345) mod 1000003)%N).
  assert (Hx : (x < 1000003)%N) by (apply N.mod_upper_bound; discriminate).
  split.
  - unfold Qle. simpl. lia.
  - unfold Qlt. simpl. lia.
Qed.

(** C7 on three points of two fields. *)
Lemma buildTree_terminates_and_counts_witness :
  exists t g',
    buildTree sample_random 3 (map Some [[1; 5]; [1; 7]; [1; 9]]%Q) 0 0 = (Ret t, g')
    /\ (forall fuel, 3 - 0 <= fuel ->
          buildTree_fuel sample_random fuel 3
            (map Some [[1; 5]; [1; 7]; [1; 9]]%Q) 0 0 = (Ret t, g'))
    /\ Forall (fun ps => snd ps = routed t [[1; 5]; [1; 7]; [1; 9]]%Q (fst ps))
              (leaves t).
Proof.
  apply (buildTree_terminates_and_counts sample_random 3 2
           [[1; 5]; [1; 7]; [1; 9]]%Q 0 0).
  - exact sample_random_unit.
  - lia.
  - discriminate.
  - repeat constructor.
Defined.

(** ** Training *)

Section TrainFacts.

Variable Math_random : N -> Q.
Hypothesis random_unit : unit_interval Math_random.

Lemma getRandomSample_defined (data : list point) (n : nat) (g : N) :
  data <> [] ->
  exists pts,
    getRandomSample Math_random data n g = map Some pts
    /\ length pts = n
    /\ Forall (fun p => In p data) pts.
Proof.
  intros Hne. revert g. induction n as [|n IH]; intros g.
  - exists []. repeat split. constructor.
  - destruct (IH (N.succ g)) as (pts & Hpts & Hlen & Hin).
    destruct (lookup_lt_is_Some_2 data
                (random_index Math_random g (length data))) as [p Hp].
    { apply random_index_lt; [exact random_unit|].
      destruct data; [congruence | simpl; lia]. }
    exists (p :: pts). cbn [getRandomSample map length].
    rewrite Hp, Hpts, Hlen. repeat split.
    constructor; [|exact Hin].
    apply list_elem_of_In. eapply list_elem_of_lookup_2. exact Hp.
Qed.

Lemma train_loop_returns (data : list point) (k : nat) :
  data <> [] ->
  forall (this : IsolationForest) (g : N),
  exists ts g',
    train_loop Math_random k this data g = (Ret tt, set_trees this (trees this ++ ts), g')
    /\ length ts = k
    /\ Forall (built_from Math_random this data) ts.
Proof.
  intros Hne. induction k as [|k IH]; intros this g.
  - exists [], g. cbn [train_loop]. rewrite app_nil_r.
    destruct this; repeat split. constructor.
  - cbn [train_loop]. cbv zeta.
    destruct (getRandomSample_defined data (sampleSize this) g Hne)
      as (pts & -> & Hlen & Hin).
    destruct (buildTree_fuel_returns Math_random (maxDepth this - 0)
                (maxDepth this) pts 0 (g + N.of_nat (sampleSize this))%N)
      as (t & g1 & Ht); [lia|].
    unfold buildTree at 1. rewrite Ht.
    destruct (IH (set_trees this (trees this ++ [t])) g1) as (ts & g' & -> & Hk & Hb).
    exists (t :: ts), g'. cbn [set_trees trees numTrees sampleSize maxDepth length].
    rewrite <- app_assoc. cbn [app]. split; [reflexivity|].
    split; [now rewrite Hk|].
    constructor; [|exact Hb].
    exists pts, (g + N.of_nat (sampleSize this))%N, g1. auto.
Qed.

Lemma train_returns (this : IsolationForest) (data : list point) (g : N) :
  data <> [] ->
  exists ts g',
    train Math_random this data g = (Ret tt, set_trees this ts, g')
    /\ length ts = numTrees this
    /\ Forall (built_from Math_random this data) ts.
Proof.
  intros Hne. unfold train.
  destruct (train_loop_returns data (numTrees this) Hne (set_trees this []) g)
    as (ts & g' & H & Hlen & Hb).
  exists ts, g'. rewrite H. cbn [set_trees trees app numTrees sampleSize maxDepth].
  auto.
Qed.

(** On an empty dataset every entry of the sample is [undefined]. *)
Lemma getRandomSample_empty (n : nat) (g : N) :
  getRandomSample Math_random [] n g = repeat None n.
Proof. revert g. induction n as [|n IH]; intros g; simpl; [reflexivity|]. now rewrite IH. Qed.

Lemma train_empty_throws (this : IsolationForest) (g : N) :
  1 <= numTrees this -> 2 <= sampleSize this -> 1 <= maxDepth this ->
  train Math_random this [] g
  = (Throw, set_trees this [], N.succ (g + N.of_nat (sampleSize this))).
Proof.
  intros Hn Hs Hd. unfold train.
  destruct (numTrees this) as [|k]; [lia|]. cbn [train_loop]. cbv zeta.
  cbn [set_trees sampleSize maxDepth trees].
  rewrite getRandomSample_empty. unfold buildTree.
  destruct (sampleSize this) as [|[|s]]; [lia | lia |].
  destruct (maxDepth this) as [|d]; [lia|].
  reflexivity.
Qed.

End TrainFacts.

(** C4, as the code has it.  On a dataset that holds at least one point (a
    single point included) [train] does not fail: it returns with exactly
    [numTrees] trees in the forest, each built by [buildTree] from a sample
    of [sampleSize] points of the dataset.  On an empty dataset it throws
    before the first tree is built, as soon as there is a tree to build, a
    sample of two entries or more and a depth to go: the sample of
    [sampleSize] undefined entries is drawn, [buildTree] draws once more for
    the feature and reading [data[0].length] throws, so the stream of draws
    is left at [g + sampleSize + 1] and the forest without a tree. *)
Theorem train_on_degenerate_data (Math_random : N -> Q)
    (this : IsolationForest) (g : N) :
  unit_interval Math_random ->
  (forall data : list point,
      data <> [] ->
      exists ts g',
        train Math_random this data g = (Ret tt, set_trees this ts, g')
        /\ length ts = numTrees this
        /\ Forall (built_from Math_random this data) ts)
  /\ (1 <= numTrees this -> 2 <= sampleSize this -> 1 <= maxDepth this ->
      train Math_random this [] g
      = (Throw, set_trees this [], N.succ (g + N.of_nat (sampleSize this)))).
Proof.
  intros Hu. split.
  - intros data Hne. now apply train_returns.
  - apply train_empty_throws.
Qed.

(** C4 on the forest of the script and a single point. *)
Lemma train_on_degenerate_data_witness :
  exists ts g',
    train sample_random (new_IsolationForest 200 512 15) [sample_point] 0
    = (Ret tt, set_trees (new_IsolationForest 200 512 15) ts, g')
    /\ length ts = 200
    /\ Forall (built_from sample_random (new_IsolationForest 200 512 15)
                 [sample_point]) ts.
Proof.
  apply (proj1 (train_on_degenerate_data sample_random
                  (new_IsolationForest 200 512 15) 0 sample_random_unit)).
  discriminate.
Defined.

(** C4 as stated fails on the empty dataset: [train] throws there and
    leaves the forest without a tree. *)
Lemma train_empty_dataset_fails :
  ~ (forall (rnd : N -> Q) (this : IsolationForest) (data : list point) (g : N),
        unit_interval rnd ->
        length data <= 1 ->
        exists forest g',
          train rnd this data g = (Ret tt, forest, g')
          /\ length (trees forest) = numTrees this).
Proof.
  intros H.
  destruct (H sample_random (new_IsolationForest 200 512 15) [] 0%N
              sample_random_unit) as (forest & g' & Htrain & _).
  - simpl. lia.
  - rewrite train_empty_throws in Htrain; [discriminate | | |];
      cbn [new_IsolationForest numTrees sampleSize maxDepth]; lia.
Qed.

(** ** Scoring *)

Lemma Forall_eq_repeat {A} (a : A) (l : list A) :
  Forall (fun x => x = a) l -> l = repeat a (length l).
Proof. induction 1 as [|x l -> _ IH]; simpl; [reflexivity | now rewrite <- IH]. Qed.

(** A leaf that holds two points or more makes [pathLength] throw. *)
Lemma pathLength_big_leaf (q : point) (size : nat) :
  2 <= size -> pathLength q (Leaf size) = Throw.
Proof.
  intros H. cbn [pathLength].
  destruct (size <=? 1) eqn:E; [apply Nat.leb_le in E; lia | reflexivity].
Qed.

Section ScoringFacts.

Variable Math_random : N -> Q.
Hypothesis random_unit : unit_interval Math_random.

(** A tree built from two or more copies of one point [p]: every point that
    is nowhere below [p] walks right down to the leaf that holds the copies,
    and [pathLength] throws there. *)
Lemma buildTree_identical_throws (p : point) (Hp : 0 < length p) (fuel md : nat) :
  forall (n depth : nat) (g : N) (t : tree) (g' : N),
    2 <= n ->
    buildTree_fuel Math_random fuel md (map Some (repeat p n)) depth g = (Ret t, g') ->
    forall q, dominates q p -> pathLength q t = Throw.
Proof.
  assert (Hleaf : forall n, 2 <= n ->
            forall q, pathLength q (Leaf (length (map Some (repeat p n)))) = Throw).
  { intros n Hn q. apply pathLength_big_leaf.
    now rewrite length_map, repeat_length. }
  induction fuel as [|fuel IH]; intros n depth g t g' Hn H q Hq.
  - simpl in H.
    destruct ((length (map Some (repeat p n)) <=? 1) || (md <=? depth));
      [|discriminate H].
    injection H as <- <-. now apply Hleaf.
  - destruct ((length (map Some (repeat p n)) <=? 1) || (md <=? depth)) eqn:Hc.
    { rewrite buildTree_fuel_leaf in H by exact Hc.
      injection H as <- <-. now apply Hleaf. }
    destruct n as [|n]; [lia|]. cbn [repeat] in H, Hc.
    rewrite buildTree_fuel_node in H by exact Hc. cbv zeta in H.
    set (f := random_index Math_random g (length p)) in *.
    assert (Hf : f < length p) by (apply random_index_lt; assumption).
    destruct (lookup_lt_is_Some_2 p f Hf) as [v Hv].
    destruct (getRandomValue_constant Math_random (p :: repeat p n) f v (N.succ g))
      as (sv & Hsv & Heq & Hleft & Hright).
    { discriminate. }
    { intros x [<-|Hx]; [exact Hv|]. apply repeat_spec in Hx. now subst x. }
    rewrite Hsv, Hleft, Hright in H.
    rewrite (buildTree_fuel_leaf Math_random fuel md (map Some [])) in H
      by reflexivity.
    destruct (buildTree_fuel Math_random fuel md (map Some (p :: repeat p n))
                (S depth) (g + 2)%N) as [[tr| |] g2] eqn:Hr; try discriminate H.
    injection H as <- <-.
    cbn [pathLength].
    destruct (Hq f v Hv) as (x & -> & Hle).
    assert (Hlt : js_lt (Some x) (Some sv) = false).
    { unfold js_lt, Qltb. apply negb_false_iff, Qle_bool_iff.
      rewrite Heq. exact Hle. }
    rewrite Hlt.
    rewrite (IH (S n) (S depth) (g + 2)%N tr g2 Hn Hr q Hq). reflexivity.
Qed.

(** A forest trained on copies of one point throws in [predict] on every
    point that is nowhere below it. *)
Lemma predict_identical_throws (Math_log : Q -> Q) (Math_pow : Q -> Q -> Q)
    (this : IsolationForest) (data : list point) (p : point) (g : N) :
  1 <= numTrees this -> 2 <= sampleSize this -> 0 < length p ->
  data <> [] -> Forall (fun x => x = p) data ->
  exists ts g',
    train Math_random this data g = (Ret tt, set_trees this ts, g')
    /\ length ts = numTrees this
    /\ forall q n, dominates q p ->
         predict Math_log Math_pow (set_trees this ts) n q = Throw.
Proof.
  intros Hn Hs Hp Hne Hall.
  destruct (train_returns Math_random random_unit this data g Hne)
    as (ts & g' & Htrain & Hlen & Hbuilt).
  exists ts, g'. split; [exact Htrain|]. split; [exact Hlen|].
  intros q n Hq. unfold predict. cbn [set_trees trees].
  destruct ts as [|t ts]; [simpl in Hlen; lia|].
  apply Forall_inv in Hbuilt.
  destruct Hbuilt as (pts & g1 & g2 & Hpts & Hin & Hbuild).
  assert (Hrep : pts = repeat p (length pts)).
  { apply Forall_eq_repeat. rewrite List.Forall_forall in *.
    intros x Hx. apply Hall, Hin, Hx. }
  rewrite Hrep, Hpts in Hbuild.
  cbn [omap].
  rewrite (buildTree_identical_throws p Hp _ _ _ _ _ _ _ Hs Hbuild q Hq).
  reflexivity.
Qed.

End ScoringFacts.

Lemma dominates_refl (p : point) : dominates p p.
Proof. intros i y H. exists y. split; [exact H | apply Qle_refl]. Qed.

(** C1 at a failing input.  The forest of the script, trained on a dataset
    of one feature vector, throws when it is asked to score that vector:
    every tree ends in a leaf that holds the 512 copies of the sample, and
    [pathLength] does not return 1 there. *)
Theorem predict_throws_on_trained_forest :
  forall (Math_log : Q -> Q) (Math_pow : Q -> Q -> Q) (n : nat),
  exists ts g',
    train sample_random (new_IsolationForest 200 512 15) [sample_point] 0
    = (Ret tt, set_trees (new_IsolationForest 200 512 15) ts, g')
    /\ length ts = 200
    /\ predict Math_log Math_pow (set_trees (new_IsolationForest 200 512 15) ts)
         n sample_point = Throw.
Proof.
  intros Math_log Math_pow n.
  destruct (predict_identical_throws sample_random sample_random_unit
              Math_log Math_pow (new_IsolationForest 200 512 15)
              [sample_point] sample_point 0)
    as (ts & g' & Htrain & Hlen & Hthrow).
  - cbn [new_IsolationForest numTrees]. lia.
  - cbn [new_IsolationForest sampleSize]. lia.
  - cbn [sample_point map length]. lia.
  - discriminate.
  - repeat constructor.
  - exists ts, g'. split; [exact Htrain|]. split; [exact Hlen|].
    apply Hthrow, dominates_refl.
Qed.

(** ** The dynamic threshold *)

Lemma insert_sorted_perm (x : Q) (l : list Q) :
  Permutation (x :: l) (insert_sorted x l).
Proof.
  induction l as [|y l IH]; simpl; [reflexivity|].
  destruct (Qle_bool x y); [reflexivity|].
  rewrite perm_swap. now apply perm_skip.
Qed.

Lemma sort_ascending_perm (l : list Q) : Permutation l (sort_ascending l).
Proof.
  induction l as [|x l IH]; simpl; [reflexivity|].
  rewrite <- insert_sorted_perm. now apply perm_skip.
Qed.

Lemma insert_sorted_sorted (x : Q) (l : list Q) :
  StronglySorted Qle l -> StronglySorted Qle (insert_sorted x l).
Proof.
  induction 1 as [|y l Hs IH Hy]; simpl.
  - constructor; constructor.
  - destruct (Qle_bool x y) eqn:E.
    + apply Qle_bool_iff in E. constructor; [now constructor|].
      constructor; [exact E|].
      eapply Forall_impl; [exact Hy|]. intros z Hz. cbv beta in *.
      now apply Qle_trans with y.
    + constructor; [exact IH|].
      apply (Permutation_Forall (insert_sorted_perm x l)).
      constructor; [|exact Hy].
      apply Qlt_le_weak, Qnot_le_lt. intros Hle.
      apply Qle_bool_iff in Hle. congruence.
Qed.

Lemma sort_ascending_sorted (l : list Q) : StronglySorted Qle (sort_ascending l).
Proof.
  induction l as [|x l IH]; simpl; [constructor | now apply insert_sorted_sorted].
Qed.

(** [Math.floor(0.95 * n)] is [95 n / 100] rounded down. *)
Lemma percentile_index (n : nat) :
  floor_index ((95 # 100) * Qnat n) = 95 * n / 100.
Proof.
  unfold floor_index, Qnat, Qfloor, Qmult, inject_Z. cbn [Qnum Qden].
  change (Z.pos (100 * 1)) with (Z.of_nat 100).
  change 95%Z with (Z.of_nat 95).
  rewrite <- Nat2Z.inj_mul, <- Nat2Z.inj_div. apply Nat2Z.id.
Qed.

Lemma percentile_index_lt (n : nat) : 0 < n -> 95 * n / 100 < n.
Proof. intros H. apply Nat.Div0.div_lt_upper_bound. lia. Qed.

(** C6.  On an empty history the threshold is the default 0.8; on any other
    history it is the element at index [floor(0.95 * length)] of the history
    sorted in ascending order. *)
Theorem calculateDynamicThreshold_spec (scores : list Q) :
  calculateDynamicThreshold [] = Some (8 # 10)%Q
  /\ (scores <> [] ->
      exists sorted v,
        Permutation scores sorted
        /\ StronglySorted Qle sorted
        /\ sorted !! (95 * length scores / 100) = Some v
        /\ floor_index ((95 # 100) * Qnat (length scores)) = 95 * length scores / 100
        /\ calculateDynamicThreshold scores = Some v).
Proof.
  split; [reflexivity|]. intros Hne.
  assert (Hlen : length (sort_ascending scores) = length scores).
  { symmetry. apply Permutation_length, sort_ascending_perm. }
  destruct (lookup_lt_is_Some_2 (sort_ascending scores) (95 * length scores / 100))
    as [v Hv].
  { rewrite Hlen. apply percentile_index_lt. destruct scores; [congruence | simpl; lia]. }
  exists (sort_ascending scores), v.
  split; [apply sort_ascending_perm|].
  split; [apply sort_ascending_sorted|].
  split; [exact Hv|].
  split; [apply percentile_index|].
  unfold calculateDynamicThreshold.
  destruct (length scores =? 0) eqn:E.
  - apply Nat.eqb_eq in E. destruct scores; [congruence | discriminate E].
  - cbv zeta. now rewrite Hlen, percentile_index.
Qed.

(** C6 on a history of three scores. *)
Lemma calculateDynamicThreshold_spec_witness :
  exists sorted v,
    Permutation [(3 # 10); (9 # 10); (5 # 10)]%Q sorted
    /\ StronglySorted Qle sorted
    /\ sorted !! (95 * 3 / 100) = Some v
    /\ floor_index ((95 # 100) * Qnat 3) = 95 * 3 / 100
    /\ calculateDynamicThreshold [(3 # 10); (9 # 10); (5 # 10)]%Q = Some v.
Proof.
  apply (proj2 (calculateDynamicThreshold_spec [(3 # 10); (9 # 10); (5 # 10)]%Q)).
  discriminate.
Defined.

(** ** The request analyser *)

Lemma push_capped_cases {A} (cap : nat) (l : list A) (x : A) :
  (length l < cap /\ push_capped cap l x = l ++ [x])
  \/ (cap <= length l /\ exists oldest, l ++ [x] = oldest :: push_capped cap l x).
Proof.
  unfold push_capped. rewrite length_app. cbn [length].
  destruct (cap <? length l + 1) eqn:E.
  - right. apply Nat.ltb_lt in E. split; [lia|].
    destruct l as [|a l]; cbn [app List.tl]; eauto.
  - left. apply Nat.ltb_ge in E. split; [lia | reflexivity].
Qed.

Lemma push_capped_length {A} (cap : nat) (l : list A) (x : A) :
  length l <= cap -> length (push_capped cap l x) = Nat.min (length l + 1) cap.
Proof.
  intros H. destruct (push_capped_cases cap l x) as [[Hlt ->]|[Hge [o Ho]]].
  - rewrite length_app. cbn [length]. lia.
  - apply (f_equal length) in Ho. rewrite length_app in Ho. cbn [length] in Ho. lia.
Qed.

Lemma push_capped_bound {A} (cap : nat) (l : list A) (x : A) :
  0 < cap -> length l <= cap -> length (push_capped cap l x) <= cap.
Proof. intros H0 H. rewrite push_capped_length by exact H. lia. Qed.

Section EngineFrames.

Variable Math_random : N -> Q.
Variable Math_log : Q -> Q.
Variable Math_pow : Q -> Q -> Q.
Variable new_URL : string -> option ParsedURL.
Variable sortedParams : string -> string.
Variable extractIdentifiers : string -> list string.

Local Abbreviation analyze :=
  (analyzeNetworkRequest Math_random Math_log Math_pow new_URL sortedParams
     extractIdentifiers).
Local Abbreviation body :=
  (analyze_body Math_random Math_log Math_pow new_URL sortedParams
     extractIdentifiers).
Local Abbreviation tail :=
  (tail_steps Math_log Math_pow sortedParams extractIdentifiers).
Local Abbreviation T := telemetryData.

Lemma body_invalid (url : string) options now (w : World) :
  new_URL url = None -> body url options now w = (Ret tt, w).
Proof. intros H. unfold analyze_body, isValidUrl. now rewrite H. Qed.

Lemma analyze_invalid (url : string) options now (w : World) :
  new_URL url = None -> analyze url options now w = (Ret tt, w).
Proof.
  intros H. unfold analyzeNetworkRequest, try_catch. now rewrite body_invalid.
Qed.

Lemma extractFeatures_valid freq (url : string) options (pu : ParsedURL) :
  new_URL url = Some pu ->
  exists features, extractFeatures new_URL freq url options = Ret features.
Proof. intros H. unfold extractFeatures. rewrite H. eauto. Qed.

(** The ingest of a URL that parses, up to the retrain policy. *)
Lemma body_valid (url : string) options now (w : World) (pu : ParsedURL)
    (features : point) :
  new_URL url = Some pu ->
  extractFeatures new_URL (requestFrequency (T w)) url options = Ret features ->
  body url options now w
  = sbind (step_retrain Math_random now)
      (fun _ => tail (Math_random (draws w)) url features options)
      (before_retrain url features w).
Proof.
  intros Hu Hf. unfold analyze_body, isValidUrl. rewrite Hu. cbn [negb].
  unfold sbind at 1. unfold generateRequestId.
  unfold sbind at 1. unfold step_features.
  cbn [telemetryData set_draws]. rewrite Hf.
  unfold sbind at 1. unfold step_frequency.
  reflexivity.
Qed.


Lemma step_retrain_not_due now (w : World) :
  retrain_due (T w) now = false ->
  step_retrain Math_random now w = (Ret tt, w).
Proof. intros H. unfold step_retrain. now rewrite H. Qed.

Lemma step_retrain_due now (w : World) forest g' :
  retrain_due (T w) now = true ->
  train Math_random (new_IsolationForest 200 512 15) (networkRequests (T w)) (draws w)
  = (Ret tt, forest, g') ->
  step_retrain Math_random now w
  = (Ret tt,
     with_telemetry (set_lastRetrainTime now)
       (set_draws g' (with_telemetry (set_isolationForest (Some forest)) w))).
Proof. intros H Ht. unfold step_retrain. now rewrite H, Ht. Qed.

(** The retrain policy touches the model, its time stamp and the stream of
    draws, and nothing else. *)
Lemma step_retrain_frame now (w : World) :
  let w' := snd (step_retrain Math_random now w) in
  networkRequests (T w') = networkRequests (T w)
  /\ anomalyScores (T w') = anomalyScores (T w)
  /\ requestFrequency (T w') = requestFrequency (T w)
  /\ repetitiveRequests (T w') = repetitiveRequests (T w)
  /\ console w' = console w
  /\ localStorage w' = localStorage w
  /\ useLocalStorage w' = useLocalStorage w.
Proof.
  unfold step_retrain.
  destruct (retrain_due (T w) now); [|repeat split].
  destruct (train Math_random (new_IsolationForest 200 512 15)
              (networkRequests (T w)) (draws w)) as [[[[]| |] forest] g];
    repeat split.
Qed.

Lemma sbind_keeps {A B X} (get : World -> X) (m : step A) (k : A -> step B) :
  (forall w, get (snd (m w)) = get w) ->
  (forall a w, get (snd (k a w)) = get w) ->
  forall w, get (snd (sbind m k w)) = get w.
Proof.
  intros Hm Hk w. unfold sbind. specialize (Hm w).
  destruct (m w) as [[a| |] w1]; cbn [snd] in *; [|exact Hm..].
  now rewrite Hk.
Qed.

Lemma sbind_snd {A B} (m : step A) (k : A -> step B) (w : World) :
  snd (sbind m k w)
  = match m w with
    | (Ret a, w1) => snd (k a w1)
    | (_, w1) => w1
    end.
Proof. unfold sbind. now destruct (m w) as [[a| |] w1]. Qed.

Lemma step_score_core requestId (url : string) features (w : World) :
  core (snd (step_score Math_log Math_pow requestId url features w)) = core w.
Proof.
  unfold step_score.
  destruct (isolationForest (T w)) as [forest|]; [|reflexivity].
  destruct (predict Math_log Math_pow forest _ features) as [score| |];
    [|reflexivity..].
  cbv zeta. destruct (calculateDynamicThreshold _) as [threshold|];
    [destruct (Qltb threshold score)|]; reflexivity.
Qed.

Lemma step_repetition_core requestId (url : string) (w : World) :
  core (snd (step_repetition sortedParams requestId url w)) = core w.
Proof. unfold step_repetition. cbv zeta. destruct (bool_decide _); reflexivity. Qed.

Lemma step_identifiers_core requestId (url : string) options (w : World) :
  core (snd (step_identifiers extractIdentifiers requestId url options w)) = core w.
Proof. unfold step_identifiers. cbv zeta. destruct (0 <? length _); reflexivity. Qed.

Lemma saveTelemetryData_core (w : World) : core (saveTelemetryData w) = core w.
Proof.
  unfold saveTelemetryData, core.
  destruct (useLocalStorage w) eqn:E; [destruct (setItem_accepts w _)|];
    cbn [telemetryData useLocalStorage];
    now rewrite ?E.
Qed.

Lemma tail_core requestId (url : string) features options (w : World) :
  core (snd (tail requestId url features options w)) = core w.
Proof.
  unfold tail_steps.
  apply sbind_keeps; [apply step_score_core | intros _ w1].
  apply sbind_keeps; [apply step_repetition_core | intros _ w2].
  apply sbind_keeps; [apply step_identifiers_core | intros _ w3].
  apply saveTelemetryData_core.
Qed.

(** The steps after the retrain policy keep the history, the counters, the
    model and its time stamp. *)
Lemma tail_frame requestId (url : string) features options (w : World) :
  let w' := snd (tail requestId url features options w) in
  networkRequests (T w') = networkRequests (T w)
  /\ requestFrequency (T w') = requestFrequency (T w)
  /\ isolationForest (T w') = isolationForest (T w)
  /\ lastRetrainTime (T w') = lastRetrainTime (T w)
  /\ useLocalStorage w' = useLocalStorage w.
Proof.
  pose proof (tail_core requestId url features options w) as H.
  unfold core in H. injection H as H1 H2 H3 H4 H5. cbv zeta. auto.
Qed.

Lemma step_score_scores requestId (url : string) features (w : World) :
  let w' := snd (step_score Math_log Math_pow requestId url features w) in
  anomalyScores (T w') = anomalyScores (T w)
  \/ exists score, anomalyScores (T w') = push_capped 1000 (anomalyScores (T w)) score.
Proof.
  unfold step_score.
  destruct (isolationForest (T w)) as [forest|]; [|now left].
  destruct (predict Math_log Math_pow forest _ features) as [score| |];
    [|now left..].
  cbv zeta. right. exists score.
  destruct (calculateDynamicThreshold _) as [threshold|];
    [destruct (Qltb threshold score)|]; reflexivity.
Qed.

(** Apart from a push onto the score history, the steps after the retrain
    policy leave the scores alone. *)
Lemma tail_scores requestId (url : string) features options (w : World) :
  let w' := snd (tail requestId url features options w) in
  anomalyScores (T w') = anomalyScores (T w)
  \/ exists score, anomalyScores (T w') = push_capped 1000 (anomalyScores (T w)) score.
Proof.
  cbv zeta. unfold tail_steps. rewrite sbind_snd.
  pose proof (step_score_scores requestId url features w) as Hs. cbv zeta in Hs.
  destruct (step_score Math_log Math_pow requestId url features w)
    as [[[]| |] w1]; cbn [snd] in Hs; [|exact Hs..].
  match goal with
  | |- context [snd (?rest w1)] =>
      assert (Hk : anomalyScores (T (snd (rest w1))) = anomalyScores (T w1))
  end.
  { apply (sbind_keeps (fun w => anomalyScores (T w))).
    - intros w2. unfold step_repetition. cbv zeta.
      destruct (bool_decide _); reflexivity.
    - intros _ w2. apply (sbind_keeps (fun w => anomalyScores (T w))).
      + intros w3. unfold step_identifiers. cbv zeta.
        destruct (0 <? length _); reflexivity.
      + intros _ w3. unfold saveTelemetryData.
        save_cases w3; reflexivity. }
  rewrite Hk. exact Hs.
Qed.

Lemma try_catch_snd (m : step unit) (w : World) :
  snd (try_catch m w) = snd (m w).
Proof. unfold try_catch. now destruct (m w) as [[[]| |] w']. Qed.

Lemma try_catch_returns (m : step unit) (w : World) :
  fst (m w) <> OutOfFuel -> try_catch m w = (Ret tt, snd (m w)).
Proof.
  unfold try_catch. destruct (m w) as [[[]| |] w']; cbn [fst snd]; congruence.
Qed.

Lemma before_retrain_fields (url : string) features (w : World) :
  let w3 := before_retrain url features w in
  networkRequests (T w3) = push_capped 10000 (networkRequests (T w)) features
  /\ anomalyScores (T w3) = anomalyScores (T w)
  /\ isolationForest (T w3) = isolationForest (T w)
  /\ lastRetrainTime (T w3) = lastRetrainTime (T w)
  /\ repetitiveRequests (T w3) = repetitiveRequests (T w)
  /\ requestFrequency (T w3)
     = <[baseOf url := default 0 (requestFrequency (T w) !! baseOf url) + 1]>
         (requestFrequency (T w))
  /\ console w3 = console w
  /\ localStorage w3 = localStorage w
  /\ useLocalStorage w3 = useLocalStorage w
  /\ draws w3 = N.succ (draws w).
Proof. repeat split. Qed.

(** What one call does to the two histories: each of them is left as it was
    or has taken one more entry under its cap. *)
Lemma analyze_histories (url : string) options now (w : World) :
  let w' := snd (analyze url options now w) in
  (networkRequests (T w') = networkRequests (T w)
   \/ exists features,
        networkRequests (T w') = push_capped 10000 (networkRequests (T w)) features)
  /\ (anomalyScores (T w') = anomalyScores (T w)
      \/ exists score,
           anomalyScores (T w') = push_capped 1000 (anomalyScores (T w)) score).
Proof.
  cbv zeta. unfold analyzeNetworkRequest. rewrite try_catch_snd.
  destruct (new_URL url) as [pu|] eqn:Hu.
  2:{ rewrite body_invalid by exact Hu. now split; left. }
  destruct (extractFeatures_valid (requestFrequency (T w)) url options pu Hu)
    as [features Hf].
  rewrite (body_valid url options now w pu features Hu Hf).
  pose proof (step_retrain_frame now (before_retrain url features w)) as Hr.
  cbv zeta in Hr. destruct Hr as (Hr1 & Hr2 & _).
  unfold sbind.
  destruct (step_retrain Math_random now (before_retrain url features w))
    as [[[]| |] w4]; cbn [snd] in *.
  - pose proof (tail_frame (Math_random (draws w)) url features options w4) as Ht.
    pose proof (tail_scores (Math_random (draws w)) url features options w4) as Hs.
    cbv zeta in Ht, Hs. destruct Ht as (Ht1 & _).
    split.
    + right. exists features. now rewrite Ht1, Hr1.
    + rewrite Hr2 in Hs. exact Hs.
  - split; [right; exists features; exact Hr1 | left; exact Hr2].
  - split; [right; exists features; exact Hr1 | left; exact Hr2].
Qed.

Lemma handle_within_caps (e : event) (w : World) :
  within_caps w ->
  within_caps (handle Math_random Math_log Math_pow new_URL sortedParams
                 extractIdentifiers e w).
Proof.
  intros [Hn Hs]. destruct e as [url options now|requestId|requestId].
  - unfold within_caps. cbn [handle].
    destruct (analyze_histories url options now w) as [Hn' Hs']. split.
    + destruct Hn' as [->|[f ->]]; [assumption|].
      apply push_capped_bound; [apply Nat.ltb_lt; reflexivity | assumption].
    + destruct Hs' as [->|[s ->]]; [assumption|].
      apply push_capped_bound; [apply Nat.ltb_lt; reflexivity | assumption].
  - unfold handle, reportFalsePositive, saveTelemetryData, within_caps.
    cbn [useLocalStorage with_telemetry].
    save_cases w; split; assumption.
  - unfold handle, reportFalseNegative, saveTelemetryData, within_caps.
    cbn [useLocalStorage with_telemetry].
    save_cases w; split; assumption.
Qed.

Lemma run_within_caps (events : list event) :
  forall w, within_caps w ->
    within_caps (run Math_random Math_log Math_pow new_URL sortedParams
                   extractIdentifiers events w).
Proof.
  induction events as [|e events IH]; intros w Hw; [exact Hw|].
  cbn [run fold_left]. apply IH, handle_within_caps, Hw.
Qed.

Lemma cap_above_minimum : 100 <= 10000.
Proof. apply Nat.leb_le. reflexivity. Qed.

Lemma logAnomaly_quiet (e : LogEntry) (w : World) :
  is_anomalous e = false ->
  forallb (fun e => negb (is_anomalous e)) (console (logAnomaly e w))
  = forallb (fun e => negb (is_anomalous e)) (console w).
Proof.
  intros He. cbn [logAnomaly console]. rewrite forallb_app. cbn [forallb].
  rewrite He. cbn [negb andb]. apply andb_true_r.
Qed.

Lemma tail_no_anomalous requestId (url : string) features options (w : World) :
  isolationForest (T w) = None -> no_anomalous w ->
  no_anomalous (snd (tail requestId url features options w)).
Proof.
  intros Hf Hn. unfold no_anomalous in *. rewrite <- Hn.
  unfold tail_steps. rewrite sbind_snd. unfold step_score. rewrite Hf.
  apply (sbind_keeps (fun w => forallb (fun e => negb (is_anomalous e)) (console w))).
  - intros w2. unfold step_repetition. cbv zeta.
    destruct (bool_decide _); cbn [snd]; [now rewrite logAnomaly_quiet | reflexivity].
  - intros _ w2.
    apply (sbind_keeps (fun w => forallb (fun e => negb (is_anomalous e)) (console w))).
    + intros w3. unfold step_identifiers. cbv zeta.
      destruct (0 <? length _); cbn [snd];
        [now rewrite logAnomaly_quiet | reflexivity].
    + intros _ w3. unfold saveTelemetryData.
      save_cases w3; reflexivity.
Qed.

Lemma pathLength_no_fuel (q : point) (t : tree) : pathLength q t <> OutOfFuel.
Proof.
  induction t as [size|f sv l IHl r IHr]; cbn [pathLength].
  - destruct (size <=? 1); discriminate.
  - destruct (js_lt (q !! f) sv);
      [destruct (pathLength q l) | destruct (pathLength q r)];
      cbn; congruence.
Qed.

Lemma predict_no_fuel (forest : IsolationForest) (n : nat) (q : point) :
  predict Math_log Math_pow forest n q <> OutOfFuel.
Proof.
  unfold predict.
  assert (H : omap (pathLength q) (trees forest) <> OutOfFuel).
  { induction (trees forest) as [|t ts IH]; cbn [omap]; [discriminate|].
    pose proof (pathLength_no_fuel q t).
    destruct (pathLength q t); cbn; [|congruence..].
    destruct (omap (pathLength q) ts); cbn; congruence. }
  destruct (omap (pathLength q) (trees forest)); cbn; congruence.
Qed.

Lemma tail_no_fuel requestId (url : string) features options (w : World) :
  fst (tail requestId url features options w) <> OutOfFuel.
Proof.
  unfold tail_steps, sbind, step_score, step_repetition, step_identifiers.
  destruct (isolationForest (T w)) as [forest|].
  - pose proof (predict_no_fuel forest (length (networkRequests (T w))) features)
      as Hp.
    destruct (predict Math_log Math_pow forest _ features) as [score| |];
      [|discriminate | congruence].
    cbv zeta.
    destruct (calculateDynamicThreshold _) as [threshold|];
      [destruct (Qltb threshold score)|];
      destruct (bool_decide _); destruct (0 <? length _); discriminate.
  - cbv zeta. destruct (bool_decide _); destruct (0 <? length _); discriminate.
Qed.

End EngineFrames.

Section RetrainPolicy.

Variable Math_random : N -> Q.
Variable Math_log : Q -> Q.
Variable Math_pow : Q -> Q -> Q.
Variable new_URL : string -> option ParsedURL.
Variable sortedParams : string -> string.
Variable extractIdentifiers : string -> list string.
Hypothesis random_unit : unit_interval Math_random.

Local Abbreviation analyze :=
  (analyzeNetworkRequest Math_random Math_log Math_pow new_URL sortedParams
     extractIdentifiers).
Local Abbreviation tail :=
  (tail_steps Math_log Math_pow sortedParams extractIdentifiers).
Local Abbreviation handle' :=
  (handle Math_random Math_log Math_pow new_URL sortedParams extractIdentifiers).
Local Abbreviation run' :=
  (run Math_random Math_log Math_pow new_URL sortedParams extractIdentifiers).
Local Abbreviation T := telemetryData.
Local Abbreviation forest0 := (new_IsolationForest 200 512 15).

(** The retrain policy, when it is due: the model is trained on the whole
    history and stored with the time of the call. *)
Lemma step_retrain_trains now (w : World) :
  retrain_due (T w) now = true ->
  exists ts g',
    train Math_random forest0 (networkRequests (T w)) (draws w)
    = (Ret tt, set_trees forest0 ts, g')
    /\ length ts = 200
    /\ step_retrain Math_random now w
       = (Ret tt,
          with_telemetry (set_lastRetrainTime now)
            (set_draws g'
               (with_telemetry (set_isolationForest (Some (set_trees forest0 ts))) w))).
Proof.
  intros Hdue.
  assert (Hne : networkRequests (T w) <> []).
  { unfold retrain_due in Hdue. apply andb_prop in Hdue as [Hlen _].
    apply Nat.leb_le in Hlen. intros E. rewrite E in Hlen. cbn in Hlen. lia. }
  destruct (train_returns Math_random random_unit forest0
              (networkRequests (T w)) (draws w) Hne) as (ts & g' & Ht & Hlen & _).
  exists ts, g'. split; [exact Ht|]. split; [exact Hlen|].
  now apply step_retrain_due.
Qed.

(** The state after the ingest of a URL that parses. *)
Lemma analyze_valid (url : string) options now (w : World) (pu : ParsedURL) :
  new_URL url = Some pu ->
  exists features w4,
    extractFeatures new_URL (requestFrequency (T w)) url options = Ret features
    /\ step_retrain Math_random now (before_retrain url features w) = (Ret tt, w4)
    /\ analyze url options now w
       = (Ret tt, snd (tail (Math_random (draws w)) url features options w4)).
Proof.
  intros Hu.
  destruct (extractFeatures_valid new_URL (requestFrequency (T w)) url options pu Hu)
    as [features Hf].
  exists features.
  assert (Hr : exists w4,
             step_retrain Math_random now (before_retrain url features w) = (Ret tt, w4)).
  { destruct (retrain_due (T (before_retrain url features w)) now) eqn:Hdue.
    - destruct (step_retrain_trains now _ Hdue) as (ts & g' & _ & _ & ->). eauto.
    - rewrite step_retrain_not_due by exact Hdue. eauto. }
  destruct Hr as [w4 Hr]. exists w4. split; [exact Hf|]. split; [exact Hr|].
  assert (Hb : analyze_body Math_random Math_log Math_pow new_URL sortedParams
                 extractIdentifiers url options now w
               = tail (Math_random (draws w)) url features options w4).
  { rewrite (body_valid Math_random Math_log Math_pow new_URL sortedParams
               extractIdentifiers url options now w pu features Hu Hf).
    unfold sbind at 1. now rewrite Hr. }
  unfold analyzeNetworkRequest.
  rewrite try_catch_returns; rewrite Hb; [reflexivity|].
  apply tail_no_fuel.
Qed.


Lemma retrain_due_expected (t : TelemetryData) (now : Z) :
  (isolationForest t <> None -> 100 <= length (networkRequests t)) ->
  retrain_due t now = true
  <-> retrain_expected (isolationForest t) (networkRequests t) (lastRetrainTime t) now.
Proof.
  intros Hinv. unfold retrain_due, retrain_expected.
  rewrite andb_true_iff, orb_true_iff, negb_true_iff, bool_decide_eq_false,
    Nat.leb_le, Z.ltb_lt.
  destruct (isolationForest t) as [forest|].
  - split.
    + intros [_ [Hn|Hlt]]; [exfalso; apply Hn; eauto | right; split; [discriminate | exact Hlt]].
    + intros [[Hn _]|[_ Hlt]]; [discriminate|]. split; [apply Hinv; discriminate | now right].
  - split.
    + intros [Hlen _]. left. now split.
    + intros [[_ Hlen]|[Hn _]]; [|congruence]. split; [exact Hlen|]. left.
      intros [x Hx]. discriminate.
Qed.

(** One ingest of a URL that parses, in a state where a stored model
    implies a history of 100 entries or more. *)
Lemma policy_step (w : World) (url : string) options now (pu : ParsedURL) :
  new_URL url = Some pu ->
  (isolationForest (T w) <> None -> 100 <= length (networkRequests (T w))) ->
  length (networkRequests (T w)) <= 10000 ->
  exists features,
    extractFeatures new_URL (requestFrequency (T w)) url options = Ret features
    /\ let h' := push_capped 10000 (networkRequests (T w)) features in
       let w' := snd (analyze url options now w) in
       networkRequests (T w') = h'
       /\ (retrain_expected (isolationForest (T w)) h' (lastRetrainTime (T w)) now ->
           exists ts g',
             train Math_random forest0 h' (N.succ (draws w))
             = (Ret tt, set_trees forest0 ts, g')
             /\ length ts = 200
             /\ isolationForest (T w') = Some (set_trees forest0 ts)
             /\ lastRetrainTime (T w') = now)
       /\ (~ retrain_expected (isolationForest (T w)) h' (lastRetrainTime (T w)) now ->
           isolationForest (T w') = isolationForest (T w)
           /\ lastRetrainTime (T w') = lastRetrainTime (T w))
       /\ (isolationForest (T w') = None -> no_anomalous w -> no_anomalous w').
Proof.
  intros Hu Hinv Hcap.
  destruct (analyze_valid url options now w pu Hu) as (features & w4 & Hf & Hr & Ha).
  exists features. split; [exact Hf|]. cbv zeta. rewrite Ha. cbn [snd].
  pose proof (tail_frame Math_log Math_pow sortedParams extractIdentifiers
                (Math_random (draws w)) url features options w4) as Ht.
  cbv zeta in Ht. destruct Ht as (Ht1 & _ & Ht3 & Ht4 & _).
  rewrite Ht1, Ht3, Ht4.
  set (w3 := before_retrain url features w) in *.
  assert (Hinv3 : isolationForest (T w3) <> None ->
                  100 <= length (networkRequests (T w3))).
  { intros Hn. specialize (Hinv Hn).
    change (networkRequests (T w3))
      with (push_capped 10000 (networkRequests (T w)) features).
    rewrite push_capped_length by exact Hcap.
    pose proof cap_above_minimum. lia. }
  pose proof (retrain_due_expected (T w3) now Hinv3) as Hiff.
  change (isolationForest (T w3)) with (isolationForest (T w)) in Hiff.
  change (networkRequests (T w3))
    with (push_capped 10000 (networkRequests (T w)) features) in Hiff.
  change (lastRetrainTime (T w3)) with (lastRetrainTime (T w)) in Hiff.
  destruct (retrain_due (T w3) now) eqn:Hdue.
  - destruct (step_retrain_trains now w3 Hdue) as (ts & g' & Htrain & Hlen & Hr').
    rewrite Hr' in Hr. injection Hr as <-.
    cbn [with_telemetry set_draws telemetryData set_lastRetrainTime
         set_isolationForest networkRequests isolationForest lastRetrainTime].
    split; [reflexivity|]. split; [|split].
    + intros _. exists ts, g'. auto.
    + intros Hn. exfalso. apply Hn, Hiff. reflexivity.
    + discriminate.
  - rewrite step_retrain_not_due in Hr by exact Hdue. injection Hr as <-.
    split; [reflexivity|]. split; [|split].
    + intros He. apply Hiff in He. discriminate.
    + auto.
    + intros Hnone Hquiet.
      apply tail_no_anomalous; [exact Hnone | exact Hquiet].
Qed.


Lemma valid_requests_cons (e : event) (events : list event) :
  valid_requests new_URL (e :: events)
  = counts new_URL e + valid_requests new_URL events.
Proof.
  unfold valid_requests, counts. cbn [List.filter].
  destruct e as [url options now| |]; [|reflexivity..].
  destruct (new_URL url) as [pu|].
  - rewrite bool_decide_eq_true_2 by eauto. reflexivity.
  - rewrite bool_decide_eq_false_2; [reflexivity|]. intros [x Hx]. discriminate.
Qed.

Lemma handle_follows_count (n : nat) (w : World) (e : event) :
  model_follows_count n w ->
  model_follows_count
    (counts new_URL e + n) (handle' e w).
Proof.
  intros (Hlen & Hlow & Hhigh).
  destruct e as [url options now|requestId|requestId].
  2,3: cbn [handle counts Nat.add];
       unfold reportFalsePositive, reportFalseNegative, saveTelemetryData,
         model_follows_count, no_anomalous in *;
       cbn [useLocalStorage with_telemetry];
       save_cases w; auto.
  cbn [handle counts]. destruct (new_URL url) as [pu|] eqn:Hu.
  2:{ rewrite analyze_invalid by exact Hu. cbn [snd Nat.add].
      unfold model_follows_count. auto. }
  assert (Hinv : isolationForest (T w) <> None ->
                 100 <= length (networkRequests (T w))).
  { intros Hn. destruct (Nat.lt_ge_cases n 100) as [Hlt|Hge].
    - destruct (Hlow Hlt) as [Hnone _]. congruence.
    - rewrite Hlen. pose proof cap_above_minimum. lia. }
  assert (Hcap : length (networkRequests (T w)) <= 10000) by (rewrite Hlen; lia).
  destruct (policy_step w url options now pu Hu Hinv Hcap)
    as (features & _ & Hp).
  cbv zeta in Hp. destruct Hp as (Hh & Hdue & Hnot & Hquiet).
  set (w' := snd (analyze url options now w)) in *.
  set (h' := push_capped 10000 (networkRequests (T w)) features) in *.
  assert (Hlen' : length h' = Nat.min (1 + n) 10000).
  { subst h'. rewrite push_capped_length by exact Hcap. rewrite Hlen. lia. }
  unfold model_follows_count. rewrite Hh. split; [exact Hlen'|]. split.
  - intros Hlt. assert (Hn : n < 100) by lia.
    destruct (Hlow Hn) as [Hnone Hq].
    assert (Hno : ~ retrain_expected (isolationForest (T w)) h'
                    (lastRetrainTime (T w)) now).
    { intros [[_ Hl]|[Hsome _]]; [|congruence]. lia. }
    destruct (Hnot Hno) as [Hf' _]. rewrite Hnone in Hf'.
    split; [exact Hf'|]. now apply Hquiet.
  - intros Hge. destruct (Nat.lt_ge_cases n 100) as [Hlt|Hge'].
    + destruct (Hlow Hlt) as [Hnone _].
      destruct Hdue as (ts & g' & _ & Hts & Hf' & _).
      { left. split; [exact Hnone|]. pose proof cap_above_minimum. lia. }
      exists (set_trees forest0 ts). split; [exact Hf' | exact Hts].
    + destruct (Hhigh Hge') as (forest & Hsome & Htrees).
      destruct (Z_lt_dec 3600000 (now - lastRetrainTime (T w))) as [Hold|Hfresh].
      * destruct Hdue as (ts & g' & _ & Hts & Hf' & _).
        { right. split; [congruence | exact Hold]. }
        exists (set_trees forest0 ts). split; [exact Hf' | exact Hts].
      * destruct Hnot as [Hf' _].
        { intros [[Hnone _]|[_ Hold]]; [congruence | contradiction]. }
        exists forest. rewrite Hf'. auto.
Qed.

Lemma run_follows_count (events : list event) :
  forall (n : nat) (w : World),
    model_follows_count n w ->
    model_follows_count (valid_requests new_URL events + n) (run' events w).
Proof.
  induction events as [|e events IH]; intros n w Hw; [exact Hw|].
  rewrite valid_requests_cons. cbn [run fold_left].
  replace (counts new_URL e + valid_requests new_URL events + n)
    with (valid_requests new_URL events + (counts new_URL e + n)) by lia.
  apply IH, handle_follows_count, Hw.
Qed.

Lemma start_follows_count (t0 : Z) (storage : bool) :
  model_follows_count 0 (start t0 storage).
Proof.
  unfold model_follows_count, no_anomalous, start, saveTelemetryData.
  destruct storage; cbn; repeat split; try lia; intros; lia.
Qed.

(** C5.  With [n] the number of requests with a well-formed URL ingested
    since the script started: below 100 no model exists and no anomalous
    request was ever reported; from 100 on a model is stored, and a stored
    model always has all of its 200 trees.  At every further ingest of a
    well-formed URL the model is retrained exactly when no model exists and
    the history (the new request included) has reached 100 entries, or a
    model exists and more than 3,600,000 ms have passed since the last
    retrain; a retrain trains a fresh forest on the whole bounded history
    and stores it with the time of the call, and otherwise the model and
    its time stamp are left alone. *)
Theorem retrain_policy (events : list event) (t0 : Z) (storage : bool) :
  let w := run' events (start t0 storage) in
  let n := valid_requests new_URL events in
  (n < 100 -> isolationForest (T w) = None /\ no_anomalous w)
  /\ (100 <= n ->
      exists forest,
        isolationForest (T w) = Some forest /\ length (trees forest) = 200)
  /\ (forall (url : string) options now (pu : ParsedURL),
        new_URL url = Some pu ->
        exists features,
          extractFeatures new_URL (requestFrequency (T w)) url options = Ret features
          /\ let h' := push_capped 10000 (networkRequests (T w)) features in
             let w' := snd (analyze url options now w) in
             networkRequests (T w') = h'
             /\ (retrain_expected (isolationForest (T w)) h' (lastRetrainTime (T w)) now ->
                 exists ts g',
                   train Math_random forest0 h' (N.succ (draws w))
                   = (Ret tt, set_trees forest0 ts, g')
                   /\ length ts = 200
                   /\ isolationForest (T w') = Some (set_trees forest0 ts)
                   /\ lastRetrainTime (T w') = now)
             /\ (~ retrain_expected (isolationForest (T w)) h' (lastRetrainTime (T w)) now ->
                 isolationForest (T w') = isolationForest (T w)
                 /\ lastRetrainTime (T w') = lastRetrainTime (T w))).
Proof.
  cbv zeta.
  pose proof (run_follows_count events 0 (start t0 storage)
                (start_follows_count t0 storage)) as H.
  rewrite Nat.add_0_r in H. destruct H as (Hlen & Hlow & Hhigh).
  split; [exact Hlow|]. split; [exact Hhigh|].
  intros url options now pu Hu.
  destruct (policy_step (run' events (start t0 storage)) url options now pu Hu)
    as (features & Hf & Hp).
  - intros Hn.
    destruct (Nat.lt_ge_cases (valid_requests new_URL events) 100) as [Hlt|Hge].
    + destruct (Hlow Hlt) as [Hnone _]. congruence.
    + rewrite Hlen. pose proof cap_above_minimum. lia.
  - rewrite Hlen. lia.
  - exists features. split; [exact Hf|]. cbv zeta in Hp |- *.
    destruct Hp as (H1 & H2 & H3 & _). auto.
Qed.

End RetrainPolicy.

(** ** The two bounded histories *)

Section HistoryUpdates.

Variable Math_random : N -> Q.
Variable Math_log : Q -> Q.
Variable Math_pow : Q -> Q -> Q.
Variable new_URL : string -> option ParsedURL.
Variable sortedParams : string -> string.
Variable extractIdentifiers : string -> list string.

Local Abbreviation analyze :=
  (analyzeNetworkRequest Math_random Math_log Math_pow new_URL sortedParams
     extractIdentifiers).
Local Abbreviation tail :=
  (tail_steps Math_log Math_pow sortedParams extractIdentifiers).
Local Abbreviation T := telemetryData.

Lemma extractFeatures_Ret freq (url : string) options (features : point) :
  extractFeatures new_URL freq url options = Ret features ->
  exists pu, new_URL url = Some pu.
Proof.
  unfold extractFeatures. destruct (new_URL url) as [pu|]; [eauto | discriminate].
Qed.

(** The request history after the ingest of a URL that parses. *)
Lemma analyze_pushes_features (url : string) options now (w : World)
    (features : point) :
  extractFeatures new_URL (requestFrequency (T w)) url options = Ret features ->
  networkRequests (T (snd (analyze url options now w)))
  = push_capped 10000 (networkRequests (T w)) features.
Proof.
  intros Hf. destruct (extractFeatures_Ret _ _ _ _ Hf) as [pu Hu].
  unfold analyzeNetworkRequest. rewrite try_catch_snd.
  rewrite (body_valid Math_random Math_log Math_pow new_URL sortedParams
             extractIdentifiers url options now w pu features Hu Hf).
  rewrite (sbind_keeps (fun w => networkRequests (T w))).
  - apply before_retrain_fields.
  - intros w1. apply step_retrain_frame.
  - intros _ w1. apply tail_frame.
Qed.

(** The score history after the scoring step: the score of the stored
    model, if there is a model and scoring returns, has been pushed. *)
Lemma step_score_pushes requestId (url : string) features (w : World) :
  anomalyScores (T (snd (step_score Math_log Math_pow requestId url features w)))
  = match isolationForest (T w) with
    | None => anomalyScores (T w)
    | Some forest =>
        match predict Math_log Math_pow forest
                (length (networkRequests (T w))) features with
        | Ret score => push_capped 1000 (anomalyScores (T w)) score
        | _ => anomalyScores (T w)
        end
    end.
Proof.
  unfold step_score.
  destruct (isolationForest (T w)) as [forest|]; [|reflexivity].
  destruct (predict Math_log Math_pow forest _ features) as [score| |];
    [|reflexivity..].
  cbv zeta. destruct (calculateDynamicThreshold _) as [threshold|];
    [destruct (Qltb threshold score)|]; reflexivity.
Qed.

Lemma tail_pushes requestId (url : string) features options (w : World) :
  anomalyScores (T (snd (tail requestId url features options w)))
  = match isolationForest (T w) with
    | None => anomalyScores (T w)
    | Some forest =>
        match predict Math_log Math_pow forest
                (length (networkRequests (T w))) features with
        | Ret score => push_capped 1000 (anomalyScores (T w)) score
        | _ => anomalyScores (T w)
        end
    end.
Proof.
  rewrite <- step_score_pushes with (requestId := requestId) (url := url).
  unfold tail_steps. rewrite sbind_snd.
  destruct (step_score Math_log Math_pow requestId url features w)
    as [[[]| |] w1]; cbn [snd]; [|reflexivity..].
  apply (sbind_keeps (fun w => anomalyScores (T w))).
  - intros w2. unfold step_repetition. cbv zeta.
    destruct (bool_decide _); reflexivity.
  - intros _ w2. apply (sbind_keeps (fun w => anomalyScores (T w))).
    + intros w3. unfold step_identifiers. cbv zeta.
      destruct (0 <? length _); reflexivity.
    + intros _ w3. unfold saveTelemetryData.
      save_cases w3; reflexivity.
Qed.

(** The score history after the ingest of a URL that parses: the model and
    the request history that scoring has used are those of the state the
    call leaves. *)
Lemma analyze_pushes_score (url : string) options now (w : World)
    (features : point) :
  unit_interval Math_random ->
  extractFeatures new_URL (requestFrequency (T w)) url options = Ret features ->
  let w' := snd (analyze url options now w) in
  anomalyScores (T w')
  = match isolationForest (T w') with
    | None => anomalyScores (T w)
    | Some forest =>
        match predict Math_log Math_pow forest
                (length (networkRequests (T w'))) features with
        | Ret score => push_capped 1000 (anomalyScores (T w)) score
        | _ => anomalyScores (T w)
        end
    end.
Proof.
  intros Hu Hf. cbv zeta. destruct (extractFeatures_Ret _ _ _ _ Hf) as [pu Hurl].
  destruct (analyze_valid Math_random Math_log Math_pow new_URL sortedParams
              extractIdentifiers Hu url options now w pu Hurl)
    as (features' & w4 & Hf' & Hr & ->).
  rewrite Hf in Hf'. injection Hf' as <-. cbn [snd].
  pose proof (tail_frame Math_log Math_pow sortedParams extractIdentifiers
                (Math_random (draws w)) url features options w4) as Ht.
  cbv zeta in Ht. destruct Ht as (-> & _ & -> & _).
  rewrite tail_pushes.
  pose proof (step_retrain_frame Math_random now (before_retrain url features w))
    as Hfr. cbv zeta in Hfr. rewrite Hr in Hfr. cbn [snd] in Hfr.
  destruct Hfr as (_ & -> & _).
  reflexivity.
Qed.

(** C3.  Whatever is ingested after the script has started, the request
    history never holds more than 10,000 entries and the score history never
    more than 1,000.  One call of the analyser changes the histories as
    follows.  With a URL that does not parse both are left as they were.
    With a URL that parses the feature vector of the request is pushed onto
    the request history; and ([Math.random] being in [[0, 1)]) the score
    history takes the score of the request when the call leaves a model
    that scores it, and is left as it was when there is no model or scoring
    throws.  A push is first in, first out: below the cap the new entry is
    appended; at the cap it is appended and exactly the oldest entry is
    dropped, the others keeping their order. *)
Theorem bounded_histories_fifo :
  (forall (events : list event) (t0 : Z) (storage : bool),
      let w := run Math_random Math_log Math_pow new_URL sortedParams
                 extractIdentifiers events (start t0 storage) in
      length (networkRequests (T w)) <= 10000
      /\ length (anomalyScores (T w)) <= 1000)
  /\ (forall (w : World) (url : string) options now,
        new_URL url = None ->
        let w' := snd (analyze url options now w) in
        networkRequests (T w') = networkRequests (T w)
        /\ anomalyScores (T w') = anomalyScores (T w))
  /\ (forall (w : World) (url : string) options now (features : point),
        extractFeatures new_URL (requestFrequency (T w)) url options = Ret features ->
        let w' := snd (analyze url options now w) in
        (length (networkRequests (T w)) < 10000
         /\ networkRequests (T w') = networkRequests (T w) ++ [features])
        \/ (10000 <= length (networkRequests (T w))
            /\ exists oldest,
                 networkRequests (T w) ++ [features]
                 = oldest :: networkRequests (T w')))
  /\ (unit_interval Math_random ->
      forall (w : World) (url : string) options now (features : point),
        extractFeatures new_URL (requestFrequency (T w)) url options = Ret features ->
        let w' := snd (analyze url options now w) in
        match isolationForest (T w') with
        | None => anomalyScores (T w') = anomalyScores (T w)
        | Some forest =>
            match predict Math_log Math_pow forest
                    (length (networkRequests (T w'))) features with
            | Ret score =>
                (length (anomalyScores (T w)) < 1000
                 /\ anomalyScores (T w') = anomalyScores (T w) ++ [score])
                \/ (1000 <= length (anomalyScores (T w))
                    /\ exists oldest,
                         anomalyScores (T w) ++ [score]
                         = oldest :: anomalyScores (T w'))
            | _ => anomalyScores (T w') = anomalyScores (T w)
            end
        end).
Proof.
  split; [|split; [|split]].
  - intros events t0 storage. apply run_within_caps.
    unfold start, within_caps, saveTelemetryData.
    destruct storage; cbn; lia.
  - intros w url options now Hu. cbv zeta.
    rewrite analyze_invalid by exact Hu. split; reflexivity.
  - intros w url options now features Hf. cbv zeta.
    rewrite (analyze_pushes_features url options now w features Hf).
    destruct (push_capped_cases 10000 (networkRequests (T w)) features)
      as [[Hlt ->]|[Hge Ho]]; [left | right]; auto.
  - intros Hu w url options now features Hf. cbv zeta.
    pose proof (analyze_pushes_score url options now w features Hu Hf) as Hs.
    cbv zeta in Hs.
    destruct (isolationForest (T (snd (analyze url options now w))))
      as [forest|]; [|exact Hs].
    destruct (predict Math_log Math_pow forest _ features) as [score| |];
      [|exact Hs..].
    rewrite Hs.
    destruct (push_capped_cases 1000 (anomalyScores (T w)) score)
      as [[Hlt ->]|[Hge Ho]]; [left | right]; auto.
Qed.

End HistoryUpdates.

(** C3 on a state with a model of one leaf: the score of the request is
    appended to the empty score history. *)
Lemma bounded_histories_fifo_witness :
  let w := with_telemetry
             (set_isolationForest
                (Some (set_trees (new_IsolationForest 1 1 15) [Leaf 1])))
             (start 0 true) in
  let w' := snd (analyzeNetworkRequest sample_random sample_log sample_pow
                   sample_URL sample_sortedParams sample_scan
                   "http://a.com" None 0%Z w) in
  exists score,
    predict sample_log sample_pow
      (set_trees (new_IsolationForest 1 1 15) [Leaf 1]) 1 sample_point = Ret score
    /\ anomalyScores (telemetryData w') = [score].
Proof.
  cbv zeta.
  pose proof (proj2 (proj2 (proj2
                (bounded_histories_fifo sample_random sample_log sample_pow
                   sample_URL sample_sortedParams sample_scan)))
                sample_random_unit
                (with_telemetry
                   (set_isolationForest
                      (Some (set_trees (new_IsolationForest 1 1 15) [Leaf 1])))
                   (start 0 true))
                "http://a.com" None 0%Z sample_point eq_refl) as H.
  cbv zeta in H.
  eexists. split; [reflexivity|].
  revert H. vm_compute. intros [[_ H]|[H _]]; [exact H|].
  exfalso. revert H. apply Nat.lt_nge, Nat.ltb_lt. reflexivity.
Defined.

(** C5 on a session of one request. *)
Lemma retrain_policy_witness :
  isolationForest
    (telemetryData
       (run sample_random sample_log sample_pow sample_URL sample_sortedParams
          sample_scan [Request "http://a.com" None 0] (start 0 true))) = None
  /\ no_anomalous
       (run sample_random sample_log sample_pow sample_URL sample_sortedParams
          sample_scan [Request "http://a.com" None 0] (start 0 true)).
Proof.
  apply (proj1 (retrain_policy sample_random sample_log sample_pow sample_URL
                  sample_sortedParams sample_scan sample_random_unit
                  [Request "http://a.com" None 0] 0 true)).
  apply Nat.ltb_lt. reflexivity.
Defined.

(** ** The body feature *)

Lemma string_length_app (s1 s2 : string) :
  String.length (s1 ++ s2)%string = String.length s1 + String.length s2.
Proof. induction s1 as [|ch s1 IH]; simpl; [reflexivity | now f_equal]. Qed.

Lemma json_escape_length (ch : ascii) : 1 <= String.length (json_escape ch).
Proof.
  unfold json_escape. cbv zeta.
  repeat match goal with
         | |- context [if ?b then _ else _] => destruct b
         end; cbn; lia.
Qed.

Lemma json_escape_all_length (s : string) :
  String.length s <= String.length (json_escape_all s).
Proof.
  induction s as [|ch s IH]; cbn [json_escape_all String.length]; [lia|].
  rewrite string_length_app. pose proof (json_escape_length ch). lia.
Qed.

Lemma JSON_stringify_length (s : string) :
  String.length (JSON_stringify s) = 2 + String.length (json_escape_all s).
Proof.
  unfold JSON_stringify. rewrite !string_length_app.
  change (String.length (char 34)) with 1. lia.
Qed.

(** C10.  The third feature is the length of the JSON serialisation of the
    body.  With no options, no body or an empty body it is 2, the length of
    the two quotes that [JSON.stringify] makes of the empty string; with a
    body [b] it is the length of [JSON.stringify(b)], which is at least two
    more than the length of [b] itself. *)
Theorem body_feature_is_json_length (new_URL : string -> option ParsedURL)
    (freq : gmap string nat) (url : string) (options : option RequestOptions)
    (pu : ParsedURL) :
  new_URL url = Some pu ->
  exists features,
    extractFeatures new_URL freq url options = Ret features
    /\ length features = 11
    /\ ((options = None
         \/ exists o, options = Some o /\ (body o = None \/ body o = Some EmptyString)) ->
        features !! 2 = Some (Qnat 2))
    /\ (forall o b,
          options = Some o -> body o = Some b -> b <> EmptyString ->
          features !! 2 = Some (Qnat (String.length (JSON_stringify b)))
          /\ String.length (JSON_stringify b)
             = 2 + String.length (json_escape_all b)
          /\ String.length b + 2 <= String.length (JSON_stringify b)).
Proof.
  intros Hu. unfold extractFeatures. rewrite Hu.
  eexists. split; [reflexivity|]. split; [reflexivity|]. split.
  - intros [->|(o & -> & [Hb|Hb])]; cbn [truthy_body]; rewrite ?Hb; reflexivity.
  - intros o b -> Hb Hne. cbn [truthy_body]. rewrite Hb.
    destruct (String.eqb b EmptyString) eqn:E;
      [apply String.eqb_eq in E; contradiction|].
    split; [reflexivity|]. split; [apply JSON_stringify_length|].
    rewrite JSON_stringify_length. pose proof (json_escape_all_length b). lia.
Qed.

(** C10 on a request without options. *)
Lemma body_feature_is_json_length_witness :
  exists features,
    extractFeatures sample_URL ∅ "http://a.com" None = Ret features
    /\ length features = 11
    /\ features !! 2 = Some (Qnat 2).
Proof.
  destruct (body_feature_is_json_length sample_URL ∅ "http://a.com" None
              {| href := "http://a.com/"; hostname := "a.com"; pathname := "/";
                 searchParams := "" |} eq_refl)
    as (features & Hf & Hlen & Hnone & _).
  exists features. split; [exact Hf|]. split; [exact Hlen|].
  apply Hnone. now left.
Defined.

(** ** A failing scoring step *)

Section ScoringFailure.

Variable Math_random : N -> Q.
Variable Math_log : Q -> Q.
Variable Math_pow : Q -> Q -> Q.
Variable new_URL : string -> option ParsedURL.
Variable sortedParams : string -> string.
Variable extractIdentifiers : string -> list string.

Local Abbreviation analyze :=
  (analyzeNetworkRequest Math_random Math_log Math_pow new_URL sortedParams
     extractIdentifiers).
Local Abbreviation T := telemetryData.

(** When [predict] throws, the call ends in the state the retrain policy
    left: none of the later steps runs. *)
Lemma analyze_scoring_throws (url : string) options now (w w4 : World)
    (pu : ParsedURL) (features : point) (forest : IsolationForest) :
  new_URL url = Some pu ->
  extractFeatures new_URL (requestFrequency (T w)) url options = Ret features ->
  step_retrain Math_random now (before_retrain url features w) = (Ret tt, w4) ->
  isolationForest (T w4) = Some forest ->
  predict Math_log Math_pow forest (length (networkRequests (T w4))) features = Throw ->
  analyze url options now w = (Ret tt, w4).
Proof.
  intros Hu Hf Hr Hm Hp. unfold analyzeNetworkRequest, try_catch.
  rewrite (body_valid Math_random Math_log Math_pow new_URL sortedParams
             extractIdentifiers url options now w pu features Hu Hf).
  unfold sbind at 1. rewrite Hr.
  unfold tail_steps, sbind at 1, step_score. now rewrite Hm, Hp.
Qed.

End ScoringFailure.

Section FailingSession.

Variable Math_log : Q -> Q.
Variable Math_pow : Q -> Q -> Q.

Local Abbreviation handle' :=
  (handle sample_random Math_log Math_pow sample_URL sample_sortedParams
     sample_scan).
Local Abbreviation run' :=
  (run sample_random Math_log Math_pow sample_URL sample_sortedParams
     sample_scan).
Local Abbreviation T := telemetryData.
Local Abbreviation forest0 := (new_IsolationForest 200 512 15).
Local Abbreviation w99 := (run' warmup (start 0 true)).
Local Abbreviation url_b := "http://b.com"%string.

Lemma warmup_features_b :
  extractFeatures sample_URL (requestFrequency (T w99)) url_b None
  = Ret sample_point.
Proof. vm_compute. reflexivity. Qed.

Lemma warmup_retrain_due :
  retrain_due (T (before_retrain url_b sample_point w99)) 0 = true.
Proof. vm_compute. reflexivity. Qed.

Lemma warmup_history :
  networkRequests (T (before_retrain url_b sample_point w99))
  = repeat sample_point 100.
Proof. vm_compute. reflexivity. Qed.

(** The 100th request trains the model, and the model throws on every
    point that is nowhere below [sample_point]. *)
Lemma first_b_throws :
  exists ts g',
    (forall q n, dominates q sample_point ->
       predict Math_log Math_pow (set_trees forest0 ts) n q = Throw)
    /\ handle' request_b w99 = after_first_b w99 ts g'.
Proof.
  destruct (predict_identical_throws sample_random sample_random_unit
              Math_log Math_pow forest0 (repeat sample_point 100) sample_point
              (draws (before_retrain url_b sample_point w99)))
    as (ts & g' & Htrain & _ & Hthrow).
  - apply Nat.leb_le. reflexivity.
  - apply Nat.leb_le. reflexivity.
  - apply Nat.ltb_lt. reflexivity.
  - discriminate.
  - apply List.Forall_forall. intros x Hx. now apply repeat_spec in Hx.
  - exists ts, g'. split; [exact Hthrow|].
    unfold request_b. cbn [handle].
    rewrite (analyze_scoring_throws sample_random Math_log Math_pow sample_URL
               sample_sortedParams sample_scan url_b None 0 w99
               (after_first_b w99 ts g')
               {| href := "http://b.com/"; hostname := "b.com"; pathname := "/";
                  searchParams := "" |}
               sample_point (set_trees forest0 ts)).
    + reflexivity.
    + reflexivity.
    + exact warmup_features_b.
    + apply step_retrain_due; [exact warmup_retrain_due|].
      rewrite warmup_history. exact Htrain.
    + reflexivity.
    + apply Hthrow, dominates_refl.
Qed.

Lemma second_b_features (ts : list tree) (g' : N) :
  extractFeatures sample_URL (requestFrequency (T (after_first_b w99 ts g')))
    url_b None = Ret sample_point.
Proof. vm_compute. reflexivity. Qed.

Lemma second_b_not_due (ts : list tree) (g' : N) :
  retrain_due (T (before_retrain url_b sample_point (after_first_b w99 ts g'))) 0
  = false.
Proof. vm_compute. reflexivity. Qed.

(** The 101st request finds the model fresh, and scoring throws again. *)
Lemma second_b_throws (ts : list tree) (g' : N) :
  (forall q n, dominates q sample_point ->
     predict Math_log Math_pow (set_trees forest0 ts) n q = Throw) ->
  handle' request_b (after_first_b w99 ts g')
  = before_retrain url_b sample_point (after_first_b w99 ts g').
Proof.
  intros Hthrow. unfold request_b. cbn [handle].
  rewrite (analyze_scoring_throws sample_random Math_log Math_pow sample_URL
             sample_sortedParams sample_scan url_b None 0
             (after_first_b w99 ts g')
             (before_retrain url_b sample_point (after_first_b w99 ts g'))
             {| href := "http://b.com/"; hostname := "b.com"; pathname := "/";
                searchParams := "" |}
             sample_point (set_trees forest0 ts)).
  - reflexivity.
  - reflexivity.
  - apply second_b_features.
  - apply step_retrain_not_due, second_b_not_due.
  - reflexivity.
  - apply Hthrow, dominates_refl.
Qed.


Lemma first_b_not_recorded (ts : list tree) (g' : N) :
  repetitiveRequests (T (after_first_b w99 ts g')) !! baseOf url_b = None.
Proof. vm_compute. reflexivity. Qed.

Lemma second_b_silent (ts : list tree) (g' : N) :
  existsb (is_repetition_of url_b)
    (console (before_retrain url_b sample_point (after_first_b w99 ts g'))) = false
  /\ repetitiveRequests
       (T (before_retrain url_b sample_point (after_first_b w99 ts g')))
     !! baseOf url_b = None.
Proof. split; vm_compute; reflexivity. Qed.

Lemma run_snoc (events : list event) (e : event) (w : World) :
  run' (events ++ [e]) w = handle' e (run' events w).
Proof. unfold run. now rewrite fold_left_app. Qed.

End FailingSession.

(** C8 at a failing input.  After 99 requests to ["http://a.com"] the
    100th request, to ["http://b.com"], trains the model; scoring throws on
    it and on the 101st request, which repeats the 100th.  Neither call
    reaches the repetition check: the console holds no repetition finding
    for ["http://b.com"], and no signature was recorded for it. *)
Theorem repetition_missed_once_trained :
  forall (Math_log : Q -> Q) (Math_pow : Q -> Q -> Q),
    let w := run sample_random Math_log Math_pow sample_URL sample_sortedParams
               sample_scan (warmup ++ [request_b; request_b]) (start 0 true) in
    existsb (is_repetition_of "http://b.com") (console w) = false
    /\ repetitiveRequests (telemetryData w) !! baseOf "http://b.com" = None.
Proof.
  intros Math_log Math_pow. cbv zeta.
  change (warmup ++ [request_b; request_b])
    with (warmup ++ [request_b] ++ [request_b]).
  rewrite app_assoc, !run_snoc.
  destruct (first_b_throws Math_log Math_pow) as (ts & g' & Hthrow & ->).
  rewrite second_b_throws by exact Hthrow.
  apply second_b_silent.
Qed.

(** ** Fail-open ingestion *)

Section FailOpen.

Variable Math_random : N -> Q.
Variable Math_log : Q -> Q.
Variable Math_pow : Q -> Q -> Q.
Variable new_URL : string -> option ParsedURL.
Variable sortedParams : string -> string.
Variable extractIdentifiers : string -> list string.
Hypothesis random_unit : unit_interval Math_random.

Local Abbreviation analyze :=
  (analyzeNetworkRequest Math_random Math_log Math_pow new_URL sortedParams
     extractIdentifiers).
Local Abbreviation T := telemetryData.

(** C2, as the code has it.  A call of the analyser always returns to its
    caller, whatever the state, so nothing propagates to the host and later
    requests are ingested.  But one [try] spans the whole ingest: when the
    scoring step throws, the call ends in the state the retrain policy left.
    The feature vector is in the history and the base URL is counted; the
    repetition check, the identifier scan and the save are skipped (no
    signature is recorded, nothing is logged, nothing is stored). *)
Theorem ingest_is_fail_open (url : string) (options : option RequestOptions)
    (now : Z) (w : World) :
  (exists w', analyze url options now w = (Ret tt, w'))
  /\ (forall (pu : ParsedURL) (features : point) (w4 : World)
             (forest : IsolationForest),
        new_URL url = Some pu ->
        extractFeatures new_URL (requestFrequency (T w)) url options = Ret features ->
        step_retrain Math_random now (before_retrain url features w) = (Ret tt, w4) ->
        isolationForest (T w4) = Some forest ->
        predict Math_log Math_pow forest (length (networkRequests (T w4))) features
        = Throw ->
        analyze url options now w = (Ret tt, w4)
        /\ networkRequests (T w4)
           = push_capped 10000 (networkRequests (T w)) features
        /\ requestFrequency (T w4)
           = <[baseOf url := default 0 (requestFrequency (T w) !! baseOf url) + 1]>
               (requestFrequency (T w))
        /\ anomalyScores (T w4) = anomalyScores (T w)
        /\ repetitiveRequests (T w4) = repetitiveRequests (T w)
        /\ console w4 = console w
        /\ localStorage w4 = localStorage w).
Proof.
  split.
  - destruct (new_URL url) as [pu|] eqn:Hu.
    + destruct (analyze_valid Math_random Math_log Math_pow new_URL sortedParams
                  extractIdentifiers random_unit url options now w pu Hu)
        as (features & w4 & _ & _ & ->). eauto.
    + rewrite analyze_invalid by exact Hu. eauto.
  - intros pu features w4 forest Hu Hf Hr Hm Hp.
    split; [eapply analyze_scoring_throws; eassumption|].
    pose proof (step_retrain_frame Math_random now (before_retrain url features w))
      as Hfr.
    cbv zeta in Hfr. rewrite Hr in Hfr. cbn [snd] in Hfr.
    destruct Hfr as (H1 & H2 & H3 & H4 & H5 & H6 & _).
    rewrite H1, H2, H3, H4, H5, H6. repeat split.
Qed.

End FailOpen.

(** C2 on the first request of a session. *)
Lemma ingest_is_fail_open_witness :
  exists w',
    analyzeNetworkRequest sample_random sample_log sample_pow sample_URL
      sample_sortedParams sample_scan "http://a.com" None 0 (start 0 true)
    = (Ret tt, w').
Proof.
  exact (proj1 (ingest_is_fail_open sample_random sample_log sample_pow
                  sample_URL sample_sortedParams sample_scan sample_random_unit
                  "http://a.com" None 0 (start 0 true))).
Defined.

(** C2 as stated fails: were every remaining step run whatever fails, each
    ingest of a well-formed URL would leave the signature of its parameters
    recorded for its base URL and the telemetry saved.  The 100th request of
    the session above leaves neither. *)
Lemma later_steps_are_skipped :
  ~ (forall (Math_random : N -> Q) (Math_log : Q -> Q) (Math_pow : Q -> Q -> Q)
            (new_URL : string -> option ParsedURL)
            (sortedParams : string -> string)
            (extractIdentifiers : string -> list string)
            (events : list event) (url : string)
            (options : option RequestOptions) (now : Z),
        unit_interval Math_random ->
        is_Some (new_URL url) ->
        let w' := run Math_random Math_log Math_pow new_URL sortedParams
                    extractIdentifiers (events ++ [Request url options now])
                    (start 0 true) in
        sortedParams (queryOf url)
          ∈ default ∅ (repetitiveRequests (telemetryData w') !! baseOf url)
        /\ localStorage w' = Some (telemetryData w')).
Proof.
  intros H.
  destruct (H sample_random sample_log sample_pow sample_URL sample_sortedParams
              sample_scan warmup "http://b.com" None 0%Z sample_random_unit)
    as [Hin _].
  { eexists. reflexivity. }
  revert Hin. rewrite run_snoc.
  destruct (first_b_throws sample_log sample_pow) as (ts & g' & _ & Heq).
  unfold request_b in Heq. rewrite Heq, first_b_not_recorded.
  apply not_elem_of_empty.
Qed.

(** ** The frequency feature *)

(** C9 at a failing input.  ["http://a.com"] is requested twice.  After the
    first request the frequency map holds 1 for the base URL of the request,
    yet the vector extracted for the second request, which is the one the
    second ingest appends to the history, has 0 as its 11th feature: the
    extractor looks up the base of [href], ["http://a.com/"], and the map
    is keyed by the base of the URL as given. *)
Theorem frequency_feature_misses_count :
  forall (Math_log : Q -> Q) (Math_pow : Q -> Q -> Q),
    let w1 := handle sample_random Math_log Math_pow sample_URL
                sample_sortedParams sample_scan request_a (start 0 true) in
    let w2 := handle sample_random Math_log Math_pow sample_URL
                sample_sortedParams sample_scan request_a w1 in
    requestFrequency (telemetryData w1) !! baseOf "http://a.com" = Some 1
    /\ extractFeatures sample_URL (requestFrequency (telemetryData w1))
         "http://a.com" None = Ret sample_point
    /\ sample_point !! 10 = Some (Qnat 0)
    /\ List.last (networkRequests (telemetryData w2)) [] = sample_point
    /\ requestFrequency (telemetryData w2) !! baseOf "http://a.com" = Some 2.
Proof.
  intros Math_log Math_pow. cbv zeta. repeat split; vm_compute; reflexivity.
Qed.

(** ** Further properties of the code *)

(** X1.  [pathLength] walks from the root, left when the value of the point
    at the feature of the node is below the split value and right
    otherwise.  When the leaf it reaches records at most one point, the
    result is the number of edges walked plus one; when that leaf records
    two points or more, the call throws. *)
Theorem pathLength_counts_edges (q : point) (t : tree) :
  (leaf_reached t q <= 1 -> pathLength q t = Ret (length (route t q) + 1))
  /\ (2 <= leaf_reached t q -> pathLength q t = Throw).
Proof.
  induction t as [size|f sv l [IHl1 IHl2] r [IHr1 IHr2]];
    cbn [pathLength leaf_reached route].
  - split; intros H.
    + destruct (size <=? 1) eqn:E; [reflexivity | apply Nat.leb_gt in E; lia].
    + destruct (size <=? 1) eqn:E; [apply Nat.leb_le in E; lia | reflexivity].
  - destruct (js_lt (q !! f) sv); split; intros H; cbn [length].
    + rewrite IHl1 by exact H. cbn. do 2 f_equal.
    + now rewrite IHl2.
    + rewrite IHr1 by exact H. cbn. do 2 f_equal.
    + now rewrite IHr2.
Qed.

(** X2.  The repetition check, when the ingest reaches it: the signature of
    the parameters ends up in the set of the base URL; a finding is logged
    exactly when the signature was in the set already.  Hence a second
    check of the same URL logs a finding, and a first check of a signature
    that is new for the base URL logs none. *)
Theorem repetition_check_contract (sortedParams : string -> string)
    (requestId requestId' : Q) (url : string) (w : World) :
  let base := baseOf url in
  let signature := sortedParams (queryOf url) in
  let seen := default ∅ (repetitiveRequests (telemetryData w) !! base) in
  let w1 := snd (step_repetition sortedParams requestId url w) in
  let w2 := snd (step_repetition sortedParams requestId' url w1) in
  fst (step_repetition sortedParams requestId url w) = Ret tt
  /\ repetitiveRequests (telemetryData w1) !! base = Some ({[signature]} ∪ seen)
  /\ (signature ∈ seen -> console w1 = console w ++ [RepetitiveRequest requestId url])
  /\ (signature ∉ seen -> console w1 = console w)
  /\ console w2 = console w1 ++ [RepetitiveRequest requestId' url].
Proof.
  cbv zeta.
  assert (Hfirst : forall (id : Q) (w : World),
    let seen := default ∅ (repetitiveRequests (telemetryData w) !! baseOf url) in
    let w1 := snd (step_repetition sortedParams id url w) in
    fst (step_repetition sortedParams id url w) = Ret tt
    /\ repetitiveRequests (telemetryData w1) !! baseOf url
       = Some ({[sortedParams (queryOf url)]} ∪ seen)
    /\ (sortedParams (queryOf url) ∈ seen ->
        console w1 = console w ++ [RepetitiveRequest id url])
    /\ (sortedParams (queryOf url) ∉ seen -> console w1 = console w)).
  { intros id w0. cbv zeta. unfold step_repetition. cbv zeta.
    destruct (bool_decide _) eqn:E.
    - apply bool_decide_eq_true in E. cbn [fst snd].
      split; [reflexivity|]. split; [|split].
      + cbn [logAnomaly with_telemetry telemetryData set_repetitiveRequests
             repetitiveRequests].
        rewrite lookup_insert_eq. f_equal. symmetry.
        apply subseteq_union_1_L, singleton_subseteq_l, E.
      + intros _. reflexivity.
      + intros Hn. contradiction.
    - apply bool_decide_eq_false in E. cbn [fst snd].
      split; [reflexivity|]. split; [|split].
      + cbn [with_telemetry telemetryData set_repetitiveRequests
             repetitiveRequests].
        now rewrite lookup_insert_eq.
      + intros Hin. contradiction.
      + intros _. reflexivity. }
  destruct (Hfirst requestId w) as (H1 & H2 & H3 & H4).
  split; [exact H1|]. split; [exact H2|]. split; [exact H3|]. split; [exact H4|].
  destruct (Hfirst requestId' (snd (step_repetition sortedParams requestId url w)))
    as (_ & _ & H3' & _).
  apply H3'. rewrite H2. cbn [from_option id].
  rewrite elem_of_union, elem_of_singleton. now left.
Qed.

(** ** The identifier scanner *)

Lemma string_app_cons (ch : ascii) (a b : string) :
  (String ch a ++ b)%string = String ch (a ++ b).
Proof. reflexivity. Qed.

Lemma string_app_assoc (a b c : string) :
  ((a ++ b) ++ c)%string = (a ++ (b ++ c))%string.
Proof.
  induction a as [|ch a IH]; [reflexivity|].
  rewrite !string_app_cons. now f_equal.
Qed.

Lemma string_app_nil_r (a : string) : (a ++ "")%string = a.
Proof.
  induction a as [|ch a IH]; [reflexivity|].
  rewrite string_app_cons. now f_equal.
Qed.

Lemma take_spec (k : nat) :
  forall (prev : option ascii) (s taken : string) (last : option ascii)
         (rest : string),
    Scanner.take k prev s = (taken, last, rest) ->
    s = (taken ++ rest)%string /\ String.length taken = Nat.min k (String.length s).
Proof.
  induction k as [|k IH]; intros prev s taken last rest H.
  - destruct s; injection H as <- <- <-; split; reflexivity.
  - destruct s as [|ch s]; [injection H as <- <- <-; split; reflexivity|].
    cbn [Scanner.take] in H.
    destruct (Scanner.take k (Some ch) s) as [[t l] r] eqn:E.
    injection H as <- <- <-.
    destruct (IH _ _ _ _ _ E) as [-> Hlen]. split; [reflexivity|].
    cbn [String.length]. rewrite Hlen. cbn [String.length].
    rewrite <- Nat.succ_min_distr. reflexivity.
Qed.

Lemma run_length_le (cls : ascii -> bool) (s : string) :
  forall most, Scanner.run_length cls most s <= String.length s.
Proof.
  induction s as [|ch s IH]; intros most.
  - destruct most as [[|n]|]; cbn; lia.
  - destruct most as [[|n]|]; cbn [Scanner.run_length String.length]; [lia| |].
    + destruct (cls ch); [|lia]. specialize (IH (option_map Nat.pred (Some (S n)))). lia.
    + destruct (cls ch); [|lia]. specialize (IH (option_map Nat.pred None)). lia.
Qed.

Lemma run_length_most (cls : ascii -> bool) (s : string) :
  forall n, Scanner.run_length cls (Some n) s <= n.
Proof.
  induction s as [|ch s IH]; intros [|n]; cbn; try lia.
  destruct (cls ch); [|lia]. specialize (IH n). cbn in IH. lia.
Qed.

Lemma take_all_chars (cls : ascii -> bool) (k : nat) :
  forall (most : option nat) (prev : option ascii) (s : string),
    k <= Scanner.run_length cls most s ->
    Scanner.all_chars cls (fst (fst (Scanner.take k prev s))) = true.
Proof.
  induction k as [|k IH]; intros most prev s Hk.
  - destruct s; reflexivity.
  - destruct s as [|ch s].
    + destruct most as [[|n]|]; cbn in Hk; lia.
    + cbn [Scanner.take].
      destruct (Scanner.take k (Some ch) s) as [[t l] r] eqn:E.
      cbn [fst Scanner.all_chars].
      assert (Hc : cls ch = true /\
                   k <= Scanner.run_length cls (option_map Nat.pred most) s).
      { destruct most as [[|n]|]; cbn [Scanner.run_length] in Hk; [lia| |];
          destruct (cls ch); try lia; split; try reflexivity; lia. }
      destruct Hc as [-> Hk'].
      specialize (IH _ (Some ch) s Hk'). rewrite E in IH. exact IH.
Qed.

Lemma descend_Some {A} (f : nat -> option A) (k least : nat) (a : A) :
  Scanner.descend f k least = Some a ->
  exists j, least <= j /\ j <= k /\ f j = Some a.
Proof.
  induction k as [|k IH]; cbn [Scanner.descend]; intros H.
  - destruct (0 <? least) eqn:E; [discriminate|]. apply Nat.ltb_ge in E.
    destruct (f 0) eqn:Ef; [|discriminate]. injection H as <-.
    exists 0. auto.
  - destruct (S k <? least) eqn:E; [discriminate|]. apply Nat.ltb_ge in E.
    destruct (f (S k)) eqn:Ef.
    + injection H as <-. exists (S k). auto.
    + destruct (IH H) as (j & H1 & H2 & H3). exists j. auto.
Qed.

(** What the matcher returns is a prefix of the text and has the shape of
    the pattern. *)
Lemma match_items_sound (items : Scanner.pattern) :
  forall (prev : option ascii) (rest m : string),
    Scanner.match_items items prev rest = Some m ->
    (exists rest', rest = (m ++ rest')%string) /\ Scanner.shape items m.
Proof.
  induction items as [|[cls least most|] items IH]; intros prev rest m H.
  - injection H as <-. split; [now exists rest | reflexivity].
  - cbn [Scanner.match_items] in H.
    apply descend_Some in H as (j & Hleast & Hj & Hf).
    destruct (Scanner.take j prev rest) as [[taken last] rest1] eqn:Et.
    destruct (Scanner.match_items items last rest1) as [m1|] eqn:Em;
      [|discriminate].
    injection Hf as <-.
    destruct (IH _ _ _ Em) as [[rest' ->] Hshape].
    destruct (take_spec _ _ _ _ _ _ Et) as [-> Hlen].
    pose proof (take_all_chars cls j most prev _ Hj) as Hall.
    rewrite Et in Hall. cbn [fst] in Hall.
    assert (Hj' : String.length taken = j).
    { rewrite Hlen. pose proof (run_length_le cls (taken ++ m1 ++ rest') most). lia. }
    split.
    + exists rest'. now rewrite string_app_assoc.
    + cbn [Scanner.shape]. exists taken, m1. repeat split; auto; try lia.
      intros n ->. pose proof (run_length_most cls (taken ++ m1 ++ rest') n). lia.
  - cbn [Scanner.match_items] in H.
    destruct (Scanner.at_boundary prev rest); [|discriminate].
    apply IH in H. exact H.
Qed.

(** Every match of a scan occurs in the text and has the shape of the
    pattern. *)
Lemma scan_sound (p : Scanner.pattern) (s : string) :
  forall (prev : option ascii) (skip : nat) (m : string),
    In m (Scanner.scan p prev s skip) ->
    (exists pre post, s = (pre ++ m ++ post)%string) /\ Scanner.shape p m.
Proof.
  assert (Hshift : forall ch s m,
    ((exists pre post, s = (pre ++ m ++ post)%string) /\ Scanner.shape p m) ->
    (exists pre post, String ch s = (pre ++ m ++ post)%string) /\ Scanner.shape p m).
  { intros ch s0 m [(pre & post & ->) Hs]. split; [|exact Hs].
    exists (String ch pre), post. reflexivity. }
  assert (Hhere : forall prev s m,
    Scanner.match_items p prev s = Some m ->
    (exists pre post, s = (pre ++ m ++ post)%string) /\ Scanner.shape p m).
  { intros prev s0 m Hm. destruct (match_items_sound p _ _ _ Hm) as [[r ->] Hs].
    split; [|exact Hs]. exists EmptyString, r. reflexivity. }
  induction s as [|ch s IH]; intros prev skip m H.
  - destruct skip; cbn [Scanner.scan] in H; [|contradiction].
    destruct (Scanner.match_items p prev "") eqn:E; [|contradiction].
    destruct H as [<-|[]]. eapply Hhere, E.
  - destruct skip as [|skip]; cbn [Scanner.scan] in H.
    + destruct (Scanner.match_items p prev (String ch s)) eqn:E.
      * destruct H as [<-|H]; [eapply Hhere, E | apply Hshift, (IH _ _ _ H)].
      * apply Hshift, (IH _ _ _ H).
    + apply Hshift, (IH _ _ _ H).
Qed.

Lemma existsb_eqb_In (x : string) (l : list string) :
  existsb (String.eqb x) l = true <-> In x l.
Proof.
  rewrite existsb_exists. split.
  - intros (y & Hy & E). apply String.eqb_eq in E. now subst.
  - intros H. exists x. split; [exact H | apply String.eqb_refl].
Qed.

Lemma dedupe_In (l : list string) :
  forall seen x, In x (Scanner.dedupe seen l) <-> In x l /\ ~ In x seen.
Proof.
  induction l as [|y l IH]; intros seen x; cbn [Scanner.dedupe].
  - cbn. tauto.
  - destruct (existsb (String.eqb y) seen) eqn:E.
    + apply existsb_eqb_In in E. rewrite IH. cbn [In]. split.
      * intros [H1 H2]. auto.
      * intros [[<-|H1] H2]; [contradiction | auto].
    + assert (Hy : ~ In y seen).
      { intros H. apply existsb_eqb_In in H. congruence. }
      cbn [In]. rewrite IH. cbn [In]. split.
      * intros [<-|[H1 H2]]; [auto|]. split; [auto|]. intros H. apply H2. now right.
      * intros [[<-|H1] H2]; [now left|].
        destruct (String.string_dec y x) as [<-|Hne]; [now left|].
        right. split; [exact H1|]. intros [H|H]; [contradiction | contradiction].
Qed.

Lemma dedupe_NoDup (l : list string) :
  forall seen, List.NoDup (Scanner.dedupe seen l).
Proof.
  induction l as [|y l IH]; intros seen; cbn [Scanner.dedupe]; [constructor|].
  destruct (existsb (String.eqb y) seen); [apply IH|].
  apply List.NoDup_cons; [|apply IH].
  rewrite dedupe_In. intros [_ H]. apply H. now left.
Qed.

Lemma shape_length (items : Scanner.pattern) :
  forall m, Scanner.shape items m ->
    Scanner.min_length items <= String.length m
    /\ (forall n, Scanner.max_length items = Some n -> String.length m <= n).
Proof.
  induction items as [|[cls least most|] items IH]; intros m H;
    cbn [Scanner.shape Scanner.min_length Scanner.max_length] in *.
  - subst m. split; [cbn; lia|]. intros n [= <-]. cbn. lia.
  - destruct H as (a & b & -> & Hleast & Hmost & _ & Hb).
    destruct (IH b Hb) as [Hmin Hmax]. rewrite string_length_app.
    split; [lia|]. intros n Hn.
    destruct most as [k|]; [|discriminate].
    destruct (Scanner.max_length items) as [k'|]; [|discriminate].
    injection Hn as <-. specialize (Hmost k eq_refl). specialize (Hmax k' eq_refl).
    lia.
  - apply IH, H.
Qed.

Lemma shape_token (m : string) :
  Scanner.shape Scanner.token_pattern m
  <-> 20 <= String.length m /\ Scanner.all_chars Scanner.is_token m = true.
Proof.
  unfold Scanner.token_pattern. cbn [Scanner.shape]. split.
  - intros (a & b & -> & H20 & _ & Hall & ->). rewrite string_app_nil_r. auto.
  - intros [H20 Hall]. exists m, EmptyString. rewrite string_app_nil_r.
    repeat split; auto. discriminate.
Qed.

Lemma extractIdentifiers_In (data id : string) :
  In id (Scanner.extractIdentifiers data)
  <-> (In id (Scanner.matches Scanner.uuid_pattern data)
       \/ In id (Scanner.matches Scanner.token_pattern data)
       \/ In id (Scanner.matches Scanner.ip_pattern data)).
Proof.
  unfold Scanner.extractIdentifiers.
  rewrite dedupe_In, !in_app_iff. cbn [In]. tauto.
Qed.

(** X4.  [extractIdentifiers] never returns an identifier twice, and what
    it returns is what the three patterns match.  Every identifier occurs in
    the data and has the shape of one of the patterns: 36 characters in the
    8-4-4-4-12 form of a UUID, or 20 characters or more that are all
    letters, digits, [_] or [-], or four groups of one to three digits
    separated by dots (7 to 15 characters). *)
Theorem extractIdentifiers_sound (data : string) :
  List.NoDup (Scanner.extractIdentifiers data)
  /\ forall id,
       (In id (Scanner.extractIdentifiers data) <->
        (In id (Scanner.matches Scanner.uuid_pattern data)
         \/ In id (Scanner.matches Scanner.token_pattern data)
         \/ In id (Scanner.matches Scanner.ip_pattern data)))
  /\ (In id (Scanner.extractIdentifiers data) ->
      (exists pre post, data = (pre ++ id ++ post)%string)
      /\ ((Scanner.shape Scanner.uuid_pattern id /\ String.length id = 36)
          \/ (Scanner.all_chars Scanner.is_token id = true /\ 20 <= String.length id)
          \/ (Scanner.shape Scanner.ip_pattern id
              /\ 7 <= String.length id <= 15))).
Proof.
  split; [unfold Scanner.extractIdentifiers; apply dedupe_NoDup|].
  intros id. split; [apply extractIdentifiers_In|].
  intros H. apply extractIdentifiers_In in H. unfold Scanner.matches in H.
  destruct H as [H|[H|H]]; apply scan_sound in H as [Hsub Hshape];
    (split; [exact Hsub|]).
  - left. split; [exact Hshape|].
    destruct (shape_length _ _ Hshape) as [Hmin Hmax].
    specialize (Hmax 36 eq_refl). cbn in Hmin. lia.
  - right. left. apply shape_token in Hshape. tauto.
  - right. right. split; [exact Hshape|].
    destruct (shape_length _ _ Hshape) as [Hmin Hmax].
    specialize (Hmax 15 eq_refl). cbn in Hmin. lia.
Qed.

(** *** Tokens are always found *)

Lemma run_length_full (cls : ascii -> bool) (m post : string) :
  Scanner.all_chars cls m = true -> Scanner.stops cls post ->
  Scanner.run_length cls None (m ++ post) = String.length m.
Proof.
  intros Hall Hstop. induction m as [|ch m IH].
  - destruct post as [|c post]; [reflexivity|].
    change ("" ++ String c post)%string with (String c post).
    cbn [Scanner.stops] in Hstop. cbn [Scanner.run_length String.length].
    now rewrite Hstop.
  - cbn [Scanner.all_chars] in Hall. apply andb_prop in Hall as [Hc Hall].
    rewrite string_app_cons. cbn [Scanner.run_length option_map String.length].
    rewrite Hc. f_equal. apply IH, Hall.
Qed.

Lemma take_app (m : string) :
  forall (prev : option ascii) (post : string),
  exists last, Scanner.take (String.length m) prev (m ++ post) = (m, last, post).
Proof.
  induction m as [|ch m IH]; intros prev post.
  - exists prev. destruct post; reflexivity.
  - rewrite string_app_cons. cbn [String.length Scanner.take].
    destruct (IH (Some ch) post) as [last ->]. now exists last.
Qed.

Lemma descend_first {A} (f : nat -> option A) (k least : nat) (a : A) :
  least <= k -> f k = Some a -> Scanner.descend f k least = Some a.
Proof.
  intros Hle Hf. destruct k; cbn [Scanner.descend].
  - destruct (0 <? least) eqn:E; [apply Nat.ltb_lt in E; lia|]. now rewrite Hf.
  - destruct (S k <? least) eqn:E; [apply Nat.ltb_lt in E; lia|]. now rewrite Hf.
Qed.

(** At the start of a maximal run of 20 token characters or more, the token
    pattern matches the whole run. *)
Lemma match_token_run (prev : option ascii) (m post : string) :
  Scanner.all_chars Scanner.is_token m = true -> 20 <= String.length m ->
  Scanner.stops Scanner.is_token post ->
  Scanner.match_items Scanner.token_pattern prev (m ++ post) = Some m.
Proof.
  intros Hall H20 Hstop. unfold Scanner.token_pattern.
  cbn [Scanner.match_items]. rewrite run_length_full by assumption.
  apply descend_first; [exact H20|].
  destruct (take_app m prev post) as [last ->]. now rewrite string_app_nil_r.
Qed.

Lemma token_prefix_inside (cls : ascii -> bool) (pre : string) :
  forall x r z : string,
    pre <> EmptyString -> Scanner.ends_outside cls pre ->
    Scanner.all_chars cls x = true ->
    (x ++ r)%string = (pre ++ z)%string ->
    String.length x <= Scanner.run_length cls None pre.
Proof.
  induction pre as [|c pre IH]; intros x r z Hne Hend Hall Heq; [congruence|].
  destruct x as [|c' x]; [cbn; lia|].
  rewrite !string_app_cons in Heq. injection Heq as -> Heq.
  cbn [Scanner.all_chars] in Hall. apply andb_prop in Hall as [Hc Hall].
  cbn [Scanner.run_length option_map String.length]. rewrite Hc.
  apply le_n_S.
  destruct pre as [|c2 pre]; [cbn in Hend; congruence|].
  apply (IH x r z); [discriminate | exact Hend | exact Hall | exact Heq].
Qed.

Lemma scan_token_complete (m post : string) :
  Scanner.all_chars Scanner.is_token m = true -> 20 <= String.length m ->
  Scanner.stops Scanner.is_token post ->
  forall (pre : string) (prev : option ascii) (skip : nat),
    Scanner.ends_outside Scanner.is_token pre ->
    skip <= Scanner.run_length Scanner.is_token None pre ->
    In m (Scanner.scan Scanner.token_pattern prev (pre ++ m ++ post) skip).
Proof.
  intros Hall H20 Hstop. induction pre as [|ch pre IH]; intros prev skip Hend Hskip.
  - cbn in Hskip. replace skip with 0 by lia.
    change ("" ++ m ++ post)%string with (m ++ post)%string.
    pose proof (match_token_run prev m post Hall H20 Hstop) as Hm.
    destruct m as [|c m]; [cbn in H20; lia|].
    rewrite string_app_cons in *. cbn [Scanner.scan]. rewrite Hm. now left.
  - rewrite string_app_cons.
    assert (Hend' : Scanner.ends_outside Scanner.is_token pre).
    { destruct pre; [exact I | exact Hend]. }
    destruct skip as [|skip]; cbn [Scanner.scan].
    + destruct (Scanner.match_items Scanner.token_pattern prev
                  (String ch (pre ++ m ++ post))) as [m1|] eqn:E.
      * right.
        destruct (match_items_sound _ _ _ _ E) as [[r Hr] Hshape].
        apply shape_token in Hshape as [H1 Hall1].
        destruct m1 as [|c1 m1]; [cbn in H1; lia|].
        rewrite string_app_cons in Hr. injection Hr as <- Hr.
        cbn [Scanner.all_chars] in Hall1. apply andb_prop in Hall1 as [Hc Hall1].
        destruct pre as [|c2 pre]; [cbn in Hend; congruence|].
        replace (String.length (String ch m1) - 1) with (String.length m1)
          by (cbn [String.length]; lia).
        apply IH; [exact Hend'|].
        apply (token_prefix_inside _ _ m1 r (m ++ post));
          [discriminate | exact Hend | exact Hall1 | now symmetry].
      * apply IH; [exact Hend' | lia].
    + cbn [Scanner.run_length option_map] in Hskip.
      destruct (Scanner.is_token ch); [|lia].
      apply IH; [exact Hend' | lia].
Qed.

Lemma token_is_found (pre m post : string) :
  Scanner.all_chars Scanner.is_token m = true ->
  20 <= String.length m ->
  Scanner.ends_outside Scanner.is_token pre ->
  Scanner.stops Scanner.is_token post ->
  In m (Scanner.extractIdentifiers (pre ++ m ++ post)).
Proof.
  intros Hall H20 Hend Hstop.
  apply extractIdentifiers_In.
  right. left. unfold Scanner.matches.
  apply scan_token_complete; auto. lia.
Qed.

(** X5.  A run of 20 or more letters, digits, [_] and [-] that is not part
    of a longer one (what is before it does not end with such a character
    and what is behind it does not start with one) is always among the
    identifiers returned. *)
Theorem extractIdentifiers_finds_tokens (pre m post : string) :
  Scanner.all_chars Scanner.is_token m = true ->
  20 <= String.length m ->
  Scanner.ends_outside Scanner.is_token pre ->
  Scanner.stops Scanner.is_token post ->
  In m (Scanner.extractIdentifiers (pre ++ m ++ post)).
Proof.
  intros Hall H20 Hend Hstop.
  apply extractIdentifiers_In.
  right. left. unfold Scanner.matches.
  apply scan_token_complete; auto. lia.
Qed.

(** X5 on a token between an equals sign and a blank. *)
Lemma extractIdentifiers_finds_tokens_witness :
  In "abcdefghijklmnopqrstuvwxyz"%string
     (Scanner.extractIdentifiers "id=abcdefghijklmnopqrstuvwxyz end").
Proof.
  apply (extractIdentifiers_finds_tokens "id=" "abcdefghijklmnopqrstuvwxyz" " end").
  - reflexivity.
  - apply Nat.leb_le. reflexivity.
  - reflexivity.
  - reflexivity.
Defined.

Lemma json_escape_token (ch : ascii) :
  Scanner.is_token ch = true -> json_escape ch = String ch EmptyString.
Proof.
  destruct ch as [[] [] [] [] [] [] [] []]; intros H;
    first [discriminate H | reflexivity].
Qed.

Lemma json_escape_all_token (s : string) :
  Scanner.all_chars Scanner.is_token s = true -> json_escape_all s = s.
Proof.
  induction s as [|ch s IH]; intros H; [reflexivity|].
  cbn [Scanner.all_chars] in H. apply andb_prop in H as [Hc H].
  cbn [json_escape_all]. rewrite (json_escape_token ch Hc), IH by exact H.
  reflexivity.
Qed.

(** X6.  The identifier scan of the analyser works on the JSON text of the
    body.  When the body is itself a run of 20 or more letters, digits, [_]
    and [-], the scan step logs an identifier finding, and the body is one
    of the identifiers of that finding. *)
Theorem token_body_is_reported (requestId : Q) (url : string)
    (o : RequestOptions) (b : string) (w : World) :
  body o = Some b ->
  Scanner.all_chars Scanner.is_token b = true ->
  20 <= String.length b ->
  exists identifiers,
    In b identifiers
    /\ step_identifiers Scanner.extractIdentifiers requestId url (Some o) w
       = (Ret tt, logAnomaly (IdentifiersDetected requestId url identifiers) w).
Proof.
  intros Hb Hall H20.
  assert (Hne : String.eqb b EmptyString = false).
  { apply String.eqb_neq. intros ->. cbn in H20. lia. }
  exists (Scanner.extractIdentifiers (JSON_stringify b)).
  assert (Hin : In b (Scanner.extractIdentifiers (JSON_stringify b))).
  { unfold JSON_stringify. rewrite json_escape_all_token by exact Hall.
    apply token_is_found; auto; reflexivity. }
  split; [exact Hin|].
  unfold step_identifiers. cbn [truthy_body]. rewrite Hb, Hne. cbv zeta.
  destruct (Scanner.extractIdentifiers (JSON_stringify b)) as [|x l];
    [contradiction | reflexivity].
Qed.

(** X6 on a body of 20 letters. *)
Lemma token_body_is_reported_witness :
  exists identifiers,
    In "abcdefghijklmnopqrst"%string identifiers
    /\ step_identifiers Scanner.extractIdentifiers 0 "http://a.com"
         (Some {| method := Some "POST"%string; headers := None;
                  body := Some "abcdefghijklmnopqrst"%string |}) (start 0 true)
       = (Ret tt,
          logAnomaly (IdentifiersDetected 0 "http://a.com" identifiers)
            (start 0 true)).
Proof.
  apply (token_body_is_reported 0 "http://a.com"
           {| method := Some "POST"%string; headers := None;
              body := Some "abcdefghijklmnopqrst"%string |}
           "abcdefghijklmnopqrst" (start 0 true)).
  - reflexivity.
  - reflexivity.
  - apply Nat.leb_le. reflexivity.
Defined.

(** ** The base URL and the query *)

Lemma split_spec (sep : ascii) (s : string) :
  exists first rest,
    split sep s = first :: rest
    /\ Scanner.all_chars (fun ch => negb (Ascii.eqb ch sep)) first = true
    /\ (rest = [] /\ s = first
        \/ exists s', s = (first ++ String sep s')%string /\ rest = split sep s').
Proof.
  induction s as [|ch s IH].
  - exists EmptyString, []. cbn. auto.
  - cbn [split]. destruct (Ascii.eqb ch sep) eqn:E.
    + apply Ascii.eqb_eq in E. subst ch.
      exists EmptyString, (split sep s). split; [reflexivity|].
      split; [reflexivity|]. right. exists s. split; reflexivity.
    + destruct IH as (first & rest & -> & Hplain & Hcases).
      exists (String ch first), rest. split; [reflexivity|].
      split; [cbn [Scanner.all_chars]; now rewrite E|].
      destruct Hcases as [[-> ->]|(s' & -> & ->)]; [now left|].
      right. exists s'. split; reflexivity.
Qed.

(** X7.  [url.split("?")[0]] is the part of the URL before its first
    question mark, the whole URL when it has none; [url.split("?")[1] || ""]
    is what stands between the first question mark and the second one, or
    the end, and is empty without a question mark.  So a second question
    mark cuts the query short. *)
Theorem baseOf_queryOf_spec (url : string) :
  plain (baseOf url) = true
  /\ plain (queryOf url) = true
  /\ (url = baseOf url /\ queryOf url = EmptyString
      \/ exists rest,
           url = (baseOf url ++ String "?" rest)%string
           /\ (rest = queryOf url
               \/ exists more, rest = (queryOf url ++ String "?" more)%string)).
Proof.
  unfold baseOf, queryOf, plain.
  destruct (split_spec "?" url) as (first & rest & -> & Hplain & Hcases).
  cbn [hd nth]. split; [exact Hplain|].
  destruct Hcases as [[-> ->]|(s' & -> & ->)].
  - cbn [nth]. split; [reflexivity|]. now left.
  - destruct (split_spec "?" s') as (q & rest' & -> & Hq & Hcases').
    cbn [nth]. split; [exact Hq|]. right. exists s'. split; [reflexivity|].
    destruct Hcases' as [[_ ->]|(more & -> & _)]; [now left|].
    right. now exists more.
Qed.

(** ** Counters and feedback over a session *)

Section EngineCounters.

Variable Math_random : N -> Q.
Variable Math_log : Q -> Q.
Variable Math_pow : Q -> Q -> Q.
Variable new_URL : string -> option ParsedURL.
Variable sortedParams : string -> string.
Variable extractIdentifiers : string -> list string.

Local Abbreviation analyze :=
  (analyzeNetworkRequest Math_random Math_log Math_pow new_URL sortedParams
     extractIdentifiers).
Local Abbreviation body :=
  (analyze_body Math_random Math_log Math_pow new_URL sortedParams
     extractIdentifiers).
Local Abbreviation tail :=
  (tail_steps Math_log Math_pow sortedParams extractIdentifiers).
Local Abbreviation handle' :=
  (handle Math_random Math_log Math_pow new_URL sortedParams extractIdentifiers).
Local Abbreviation run' :=
  (run Math_random Math_log Math_pow new_URL sortedParams extractIdentifiers).
Local Abbreviation T := telemetryData.







(** *** The feedback lists *)







End EngineCounters.


(** ** What reaches the storage *)

Section Persistence.

Variable Math_random : N -> Q.
Variable Math_log : Q -> Q.
Variable Math_pow : Q -> Q -> Q.
Variable new_URL : string -> option ParsedURL.
Variable sortedParams : string -> string.
Variable extractIdentifiers : string -> list string.

Local Abbreviation analyze :=
  (analyzeNetworkRequest Math_random Math_log Math_pow new_URL sortedParams
     extractIdentifiers).
Local Abbreviation body :=
  (analyze_body Math_random Math_log Math_pow new_URL sortedParams
     extractIdentifiers).
Local Abbreviation tail :=
  (tail_steps Math_log Math_pow sortedParams extractIdentifiers).
Local Abbreviation handle' :=
  (handle Math_random Math_log Math_pow new_URL sortedParams extractIdentifiers).
Local Abbreviation run' :=
  (run Math_random Math_log Math_pow new_URL sortedParams extractIdentifiers).
Local Abbreviation T := telemetryData.

Lemma saveTelemetryData_offline (w : World) :
  offline (saveTelemetryData w) = offline w.
Proof.
  unfold saveTelemetryData, offline.
  destruct (useLocalStorage w) eqn:E; [destruct (setItem_accepts w _)|];
    cbn [useLocalStorage localStorage];
    now rewrite ?E.
Qed.

Lemma tail_offline requestId (url : string) features options (w : World) :
  offline (snd (tail requestId url features options w)) = offline w.
Proof.
  unfold tail_steps.
  apply sbind_keeps.
  { intros w1. unfold step_score.
    destruct (isolationForest (T w1)) as [forest|]; [|reflexivity].
    destruct (predict Math_log Math_pow forest _ features) as [score| |];
      [|reflexivity..].
    cbv zeta. destruct (calculateDynamicThreshold _) as [threshold|];
      [destruct (Qltb threshold score)|]; reflexivity. }
  intros _ w1. apply sbind_keeps.
  { intros w2. unfold step_repetition. cbv zeta.
    destruct (bool_decide _); reflexivity. }
  intros _ w2. apply sbind_keeps.
  { intros w3. unfold step_identifiers. cbv zeta.
    destruct (0 <? length _); reflexivity. }
  intros _ w3. apply saveTelemetryData_offline.
Qed.

Lemma handle_offline (e : event) (w : World) :
  offline (handle' e w) = offline w.
Proof.
  destruct e as [url options now|requestId|requestId]; cbn [handle].
  2,3: unfold reportFalsePositive, reportFalseNegative;
       now rewrite saveTelemetryData_offline.
  unfold analyzeNetworkRequest. rewrite try_catch_snd.
  destruct (new_URL url) as [pu|] eqn:Hu.
  2:{ now rewrite body_invalid by exact Hu. }
  destruct (extractFeatures_valid new_URL (requestFrequency (T w)) url options pu Hu)
    as [features Hf].
  rewrite (body_valid Math_random Math_log Math_pow new_URL sortedParams
             extractIdentifiers url options now w pu features Hu Hf).
  rewrite (sbind_keeps offline); [reflexivity | |].
  - intros w1.
    pose proof (step_retrain_frame Math_random now w1) as H. cbv zeta in H.
    destruct H as (_ & _ & _ & _ & _ & Hl & Hu').
    unfold offline. now rewrite Hl, Hu'.
  - intros _ w1. apply tail_offline.
Qed.

(** X10.  A session that started without a usable [localStorage] never
    turns to it again: whatever is ingested or reported, the flag stays off
    and nothing is ever written. *)
Theorem nothing_stored_without_storage (events : list event) (t0 : Z) :
  let w := run' events (start t0 false) in
  useLocalStorage w = false /\ localStorage w = None.
Proof.
  cbv zeta.
  assert (H : forall w0, offline (run' events w0) = offline w0).
  { induction events as [|e events IH]; intros w0; [reflexivity|].
    cbn [run fold_left].
    change (fold_left (fun w e => handle' e w) events (handle' e w0))
      with (run' events (handle' e w0)).
    now rewrite IH, handle_offline. }
  specialize (H (start t0 false)). unfold offline in H.
  change (useLocalStorage (start t0 false)) with false in H.
  change (localStorage (start t0 false)) with (@None TelemetryData) in H.
  injection H as Hu Hl. rewrite Hu in Hl. auto.
Qed.

Lemma sbind_returns {A B} (m : step A) (k : A -> step B) (w : World) (b : B) :
  fst (sbind m k w) = Ret b ->
  exists a w1, m w = (Ret a, w1) /\ sbind m k w = k a w1.
Proof.
  unfold sbind. destruct (m w) as [[a| |] w1]; cbn [fst]; [eauto | discriminate..].
Qed.

(** One save with the storage in use: the item becomes the telemetry when
    the storage takes it, and stays what it was when the write fails. *)
Lemma saveTelemetryData_cases (w : World) :
  useLocalStorage w = true ->
  telemetryData (saveTelemetryData w) = telemetryData w
  /\ (setItem_accepts w (telemetryData w) = true -> in_sync (saveTelemetryData w))
  /\ (setItem_accepts w (telemetryData w) = false ->
      localStorage (saveTelemetryData w) = localStorage w).
Proof.
  intros H. unfold saveTelemetryData, in_sync. rewrite H.
  destruct (setItem_accepts w (telemetryData w)); repeat split; discriminate.
Qed.

Lemma step_retrain_storage now (w : World) :
  storage_of (snd (step_retrain Math_random now w)) = storage_of w.
Proof.
  unfold step_retrain.
  destruct (retrain_due (T w) now); [|reflexivity].
  destruct (train Math_random (new_IsolationForest 200 512 15)
              (networkRequests (T w)) (draws w)) as [[[[]| |] forest] g];
    reflexivity.
Qed.

Lemma step_score_storage requestId (url : string) features (w : World) :
  storage_of (snd (step_score Math_log Math_pow requestId url features w))
  = storage_of w.
Proof.
  unfold step_score.
  destruct (isolationForest (T w)) as [forest|]; [|reflexivity].
  destruct (predict Math_log Math_pow forest _ features) as [score| |];
    [|reflexivity..].
  cbv zeta. destruct (calculateDynamicThreshold _) as [threshold|];
    [destruct (Qltb threshold score)|]; reflexivity.
Qed.

Lemma step_repetition_storage requestId (url : string) (w : World) :
  storage_of (snd (step_repetition sortedParams requestId url w)) = storage_of w.
Proof. unfold step_repetition. cbv zeta. destruct (bool_decide _); reflexivity. Qed.

Lemma step_identifiers_storage requestId (url : string) options (w : World) :
  storage_of (snd (step_identifiers extractIdentifiers requestId url options w))
  = storage_of w.
Proof. unfold step_identifiers. cbv zeta. destruct (0 <? length _); reflexivity. Qed.

(** An ingest that runs to its end finishes with the save, the storage
    being as it was when the steps after the retrain policy began. *)
Lemma tail_saves requestId (url : string) features options (w : World) :
  fst (tail requestId url features options w) = Ret tt ->
  exists w3,
    snd (tail requestId url features options w) = saveTelemetryData w3
    /\ storage_of w3 = storage_of w.
Proof.
  unfold tail_steps. intros H.
  destruct (sbind_returns _ _ _ _ H) as ([] & w1 & H1 & E1). rewrite E1 in H |- *.
  destruct (sbind_returns _ _ _ _ H) as ([] & w2 & H2 & E2). rewrite E2 in H |- *.
  destruct (sbind_returns _ _ _ _ H) as ([] & w3 & H3 & E3). rewrite E3.
  exists w3. split; [reflexivity|].
  pose proof (step_score_storage requestId url features w) as S1.
  pose proof (step_repetition_storage requestId url w1) as S2.
  pose proof (step_identifiers_storage requestId url options w2) as S3.
  rewrite H1 in S1. rewrite H2 in S2. rewrite H3 in S3. cbn [snd] in *.
  now rewrite S3, S2, S1.
Qed.

(** X11.  With [localStorage] in use and holding the telemetry object, an
    event that is not an ingest throwing half-way (a feedback report, a
    request with a malformed URL, an ingest that runs to its end) leaves
    the storage as follows: when the storage takes the telemetry as the
    event leaves it, the stored item is that telemetry; when the write
    fails, the failure is swallowed and the item stored before is still
    there. *)
Theorem completed_event_is_saved (e : event) (w : World) :
  useLocalStorage w = true ->
  in_sync w ->
  completes Math_random Math_log Math_pow new_URL sortedParams
    extractIdentifiers e w ->
  let w' := handle' e w in
  (setItem_accepts w (telemetryData w') = true -> in_sync w')
  /\ (setItem_accepts w (telemetryData w') = false ->
      localStorage w' = localStorage w).
Proof.
  intros Hu Hsync Hc. cbv zeta.
  assert (Hsave : forall w3 : World,
            storage_of w3 = storage_of w ->
            (setItem_accepts w (telemetryData (saveTelemetryData w3)) = true ->
             in_sync (saveTelemetryData w3))
            /\ (setItem_accepts w (telemetryData (saveTelemetryData w3)) = false ->
                localStorage (saveTelemetryData w3) = localStorage w)).
  { intros w3 Hs. unfold storage_of in Hs. injection Hs as Hu3 Hl3 Ha3.
    destruct (saveTelemetryData_cases w3) as (Ht & Hyes & Hno);
      [now rewrite Hu3|].
    rewrite Ht, <- Ha3, <- Hl3. split; assumption. }
  destruct e as [url options now|requestId|requestId]; cbn [handle].
  2,3: unfold reportFalsePositive, reportFalseNegative; now apply Hsave.
  cbn [completes] in Hc.
  unfold analyzeNetworkRequest. rewrite try_catch_snd.
  destruct (new_URL url) as [pu|] eqn:Hurl.
  2:{ rewrite body_invalid by exact Hurl. cbn [snd]. split; [now intros _ | reflexivity]. }
  destruct (extractFeatures_valid new_URL (requestFrequency (T w)) url options pu Hurl)
    as [features Hf].
  rewrite (body_valid Math_random Math_log Math_pow new_URL sortedParams
             extractIdentifiers url options now w pu features Hurl Hf) in Hc |- *.
  destruct (sbind_returns _ _ _ _ Hc) as ([] & w4 & H4 & E4). rewrite E4 in Hc |- *.
  destruct (tail_saves _ _ _ _ _ Hc) as (w3 & -> & Hs3).
  apply Hsave. rewrite Hs3.
  pose proof (step_retrain_storage now (before_retrain url features w)) as H.
  rewrite H4 in H. exact H.
Qed.

End Persistence.

(** X11 on the first request of a session, and on a report made while the
    storage is full: the report is kept in memory and the item stored
    before stays. *)
Lemma completed_event_is_saved_witness :
  in_sync
    (handle sample_random sample_log sample_pow sample_URL sample_sortedParams
       sample_scan request_a (start 0 true))
  /\ (let w := {| telemetryData := initializeTelemetryData 0; draws := 0%N;
                  console := []; useLocalStorage := true;
                  localStorage := Some (initializeTelemetryData 0);
                  setItem_accepts := fun _ => false |} in
      localStorage
        (handle sample_random sample_log sample_pow sample_URL
           sample_sortedParams sample_scan (FalsePositive "req-1") w)
      = Some (initializeTelemetryData 0)).
Proof.
  split.
  - refine (proj1 (completed_event_is_saved sample_random sample_log sample_pow
                     sample_URL sample_sortedParams sample_scan request_a
                     (start 0 true) _ _ _) _).
    + reflexivity.
    + reflexivity.
    + vm_compute. reflexivity.
    + reflexivity.
  - cbv zeta.
    refine (proj2 (completed_event_is_saved sample_random sample_log sample_pow
                     sample_URL sample_sortedParams sample_scan
                     (FalsePositive "req-1")
                     {| telemetryData := initializeTelemetryData 0; draws := 0%N;
                        console := []; useLocalStorage := true;
                        localStorage := Some (initializeTelemetryData 0);
                        setItem_accepts := fun _ => false |} _ _ _) _).
    + reflexivity.
    + reflexivity.
    + exact I.
    + reflexivity.
Defined.

(** ** The shape of a built tree *)

Lemma partition_length (f : nat) (x : Q) (data : list point) :
  (forall p, In p data -> is_Some (p !! f)) ->
  length (List.filter (fun p : point => js_lt (p !! f) (Some x)) data)
  + length (List.filter (fun p : point => js_ge (p !! f) (Some x)) data)
  = length data.
Proof.
  induction data as [|p data IH]; intros Hdef; [reflexivity|].
  cbn [List.filter]. destruct (Hdef p) as [v ->]; [now left|].
  rewrite js_ge_negb_lt.
  destruct (js_lt (Some v) (Some x)); cbn [negb length];
    rewrite <- IH by (intros q Hq; apply Hdef; now right); lia.
Qed.

Lemma pathLength_le_height (q : point) (t : tree) (n : nat) :
  pathLength q t = Ret n -> 1 <= n <= height t + 1.
Proof.
  revert n. induction t as [size|f sv l IHl r IHr]; intros n H;
    cbn [pathLength height] in *.
  - destruct (size <=? 1); [|discriminate H]. injection H as <-. lia.
  - destruct (js_lt (q !! f) sv).
    + destruct (pathLength q l) as [m| |]; try discriminate H.
      cbn [mbind outcome_bind obind] in H. injection H as <-.
      specialize (IHl m eq_refl). lia.
    + destruct (pathLength q r) as [m| |]; try discriminate H.
      cbn [mbind outcome_bind obind] in H. injection H as <-.
      specialize (IHr m eq_refl). lia.
Qed.

Lemma pathLength_cases (q : point) (t : tree) :
  (leaf_reached t q <= 1 -> pathLength q t = Ret (length (route t q) + 1))
  /\ (2 <= leaf_reached t q -> pathLength q t = Throw).
Proof.
  induction t as [size|f sv l [IHl1 IHl2] r [IHr1 IHr2]];
    cbn [pathLength leaf_reached route].
  - split; intros H.
    + destruct (size <=? 1) eqn:E; [reflexivity | apply Nat.leb_gt in E; lia].
    + destruct (size <=? 1) eqn:E; [apply Nat.leb_le in E; lia | reflexivity].
  - destruct (js_lt (q !! f) sv); split; intros H; cbn [length].
    + rewrite IHl1 by exact H. cbn. do 2 f_equal.
    + now rewrite IHl2.
    + rewrite IHr1 by exact H. cbn. do 2 f_equal.
    + now rewrite IHr2.
Qed.

Lemma leaf_reached_in_leaves (t : tree) (p : point) :
  In (route t p, leaf_reached t p) (leaves t).
Proof.
  induction t as [size|f sv l IHl r IHr]; cbn [route leaf_reached leaves].
  - now left.
  - apply in_or_app. destruct (js_lt (p !! f) sv); [left|right].
    + apply (in_map (fun ps : list bool * nat => (false :: fst ps, snd ps)) _ _ IHl).
    + apply (in_map (fun ps : list bool * nat => (true :: fst ps, snd ps)) _ _ IHr).
Qed.

Lemma routed_twice (t : tree) (p : point) (l1 l2 l3 : list point) :
  2 <= routed t (l1 ++ p :: l2 ++ p :: l3) (route t p).
Proof.
  unfold routed. rewrite List.filter_app, length_app. cbn [List.filter].
  rewrite bool_decide_eq_true_2 by reflexivity. cbn [length].
  rewrite List.filter_app, length_app. cbn [List.filter].
  rewrite bool_decide_eq_true_2 by reflexivity. cbn [length]. lia.
Qed.

Lemma Q_eq_decidable (x y : Q) : x = y \/ x <> y.
Proof.
  destruct x as [a b], y as [a' b'].
  destruct (Z.eq_dec a a') as [->|Ha]; [|right; congruence].
  destruct (Pos.eq_dec b b') as [->|Hb]; [now left | right; congruence].
Qed.

Lemma point_eq_decidable (p q : point) : p = q \/ p <> q.
Proof.
  revert q. induction p as [|x p IH]; intros [|y q];
    [now left | right; discriminate | right; discriminate |].
  destruct (Q_eq_decidable x y) as [->|Hx]; [|right; congruence].
  destruct (IH q) as [->|Hp]; [now left | right; congruence].
Qed.

(** More draws than there are points to draw from: one point is drawn
    twice. *)
Lemma sample_repeats (data pts : list point) :
  Forall (fun p => In p data) pts -> length data < length pts ->
  exists p l1 l2 l3, pts = l1 ++ p :: l2 ++ p :: l3 /\ In p data.
Proof.
  intros Hin Hlen.
  destruct (ListDec.not_NoDup point_eq_decidable (l:=pts)) as (p & l1 & l2 & l3 & E).
  { intros Hnd.
    assert (length pts <= length data); [|lia].
    apply NoDup_incl_length; [exact Hnd|].
    intros x Hx. rewrite List.Forall_forall in Hin. now apply Hin. }
  exists p, l1, l2, l3. split; [exact E|].
  rewrite List.Forall_forall in Hin. apply Hin. rewrite E.
  apply in_or_app. right. now left.
Qed.

Section TreeShape.

Variable Math_random : N -> Q.
Hypothesis random_unit : unit_interval Math_random.

Lemma buildTree_shape_fuel (k : nat) (Hk : 0 < k) (fuel md : nat) :
  forall (data : list point) (depth : nat) (g : N) (t : tree) (g' : N),
    Forall (fun p : point => length p = k) data ->
    buildTree_fuel Math_random fuel md (map Some data) depth g = (Ret t, g') ->
    recorded t = length data
    /\ height t <= md - depth
    /\ g' = (g + 2 * N.of_nat (inner_nodes t))%N.
Proof.
  induction fuel as [|fuel IH]; intros data depth g t g' Hall H.
  - simpl in H.
    destruct ((length (map Some data) <=? 1) || (md <=? depth)); [|discriminate H].
    injection H as <- <-. cbn [recorded height inner_nodes].
    rewrite length_map. repeat split; lia.
  - destruct ((length (map Some data) <=? 1) || (md <=? depth)) eqn:Hc.
    { rewrite buildTree_fuel_leaf in H by exact Hc.
      injection H as <- <-. cbn [recorded height inner_nodes].
      rewrite length_map. repeat split; lia. }
    assert (Hd : depth < md).
    { apply orb_false_iff in Hc as [_ Hd]. now apply Nat.leb_gt in Hd. }
    destruct data as [|p0 data]; [discriminate Hc|].
    rewrite buildTree_fuel_node in H by exact Hc. cbv zeta in H.
    set (f := random_index Math_random g (length p0)) in *.
    assert (Hf : f < k).
    { pose proof (Forall_inv Hall) as Hp0. cbv beta in Hp0. subst f.
      rewrite <- Hp0.
      apply random_index_lt; [exact random_unit | lia]. }
    destruct (getRandomValue_defined Math_random (p0 :: data) f k (N.succ g) Hf)
      as [x Hx]; [discriminate | exact Hall |].
    rewrite Hx in H.
    assert (Hpart := partition_length f x (p0 :: data)).
    set (left := List.filter (fun p : point => js_lt (p !! f) (Some x)) (p0 :: data)) in *.
    set (right := List.filter (fun p : point => js_ge (p !! f) (Some x)) (p0 :: data)) in *.
    destruct (buildTree_fuel Math_random fuel md (map Some left) (S depth) (g + 2)%N)
      as [[tl| |] g1] eqn:Hl; try discriminate H.
    destruct (buildTree_fuel Math_random fuel md (map Some right) (S depth) g1)
      as [[tr| |] g2] eqn:Hr; try discriminate H.
    injection H as <- <-.
    destruct (IH left (S depth) (g + 2)%N tl g1) as (Hl1 & Hl2 & Hl3);
      [now apply Forall_filter_length | exact Hl |].
    destruct (IH right (S depth) g1 tr g2) as (Hr1 & Hr2 & Hr3);
      [now apply Forall_filter_length | exact Hr |].
    cbn [recorded height inner_nodes]. rewrite Hl1, Hr1, Hpart.
    + repeat split; lia.
    + intros p Hp. apply lookup_lt_is_Some_2.
      rewrite List.Forall_forall in Hall. rewrite (Hall p Hp). exact Hf.
Qed.

End TreeShape.

(** X12.  The tree that [buildTree] makes of feature vectors of one
    positive length, at any depth and with any budget that lets it return:
    the sizes recorded in its leaves add up to the number of points (no
    point is lost or counted twice by a split); no leaf is more than
    [maxDepth - depth] edges below the root, so a path length that
    [pathLength] returns is between 1 and [maxDepth - depth + 1]; and the
    build has used two random draws for every inner node. *)
Theorem buildTree_shape (Math_random : N -> Q) (k fuel md : nat)
    (data : list point) (depth : nat) (g : N) (t : tree) (g' : N) :
  unit_interval Math_random ->
  0 < k ->
  Forall (fun p : point => length p = k) data ->
  buildTree_fuel Math_random fuel md (map Some data) depth g = (Ret t, g') ->
  recorded t = length data
  /\ height t <= md - depth
  /\ g' = (g + 2 * N.of_nat (inner_nodes t))%N
  /\ forall q n, pathLength q t = Ret n -> 1 <= n <= md - depth + 1.
Proof.
  intros Hu Hk Hall H.
  destruct (buildTree_shape_fuel Math_random Hu k Hk fuel md data depth g t g'
              Hall H) as (H1 & H2 & H3).
  split; [exact H1|]. split; [exact H2|]. split; [exact H3|].
  intros q n Hq. apply pathLength_le_height in Hq. lia.
Qed.

(** X12 on three points of two features. *)
Lemma buildTree_shape_witness :
  exists t g',
    buildTree sample_random 15 (map Some [[1; 2]; [3; 4]; [1; 2]]%Q) 0 0 = (Ret t, g')
    /\ recorded t = 3
    /\ height t <= 15.
Proof.
  destruct (buildTree_fuel_returns sample_random (15 - 0) 15
              [[1; 2]; [3; 4]; [1; 2]]%Q 0 0) as (t & g' & H); [lia|].
  exists t, g'. split; [exact H|].
  destruct (buildTree_shape sample_random 2 (15 - 0) 15
              [[1; 2]; [3; 4]; [1; 2]]%Q 0 0 t g') as (H1 & H2 & _).
  - exact sample_random_unit.
  - lia.
  - repeat constructor.
  - exact H.
  - split; [exact H1 | exact H2].
Defined.

(** X13.  On a tree that [buildTree] has made of feature vectors of one
    positive length, [pathLength] throws for a point exactly when two or
    more points of the data walk to the leaf that this point walks to.  In
    particular it throws for every point that the data hold twice: no split
    separates the two copies. *)
Theorem pathLength_throws_on_shared_leaf (Math_random : N -> Q) (k fuel md : nat)
    (data : list point) (depth : nat) (g : N) (t : tree) (g' : N) :
  unit_interval Math_random ->
  0 < k ->
  Forall (fun p : point => length p = k) data ->
  buildTree_fuel Math_random fuel md (map Some data) depth g = (Ret t, g') ->
  (forall q, pathLength q t = Throw <-> 2 <= routed t data (route t q))
  /\ (forall p l1 l2 l3,
        data = l1 ++ p :: l2 ++ p :: l3 -> pathLength p t = Throw).
Proof.
  intros Hu Hk Hall H.
  pose proof (buildTree_leaf_sizes Math_random Hu k Hk fuel md data depth g t g'
                Hall H) as Hsizes.
  assert (Hleaf : forall q, leaf_reached t q = routed t data (route t q)).
  { intros q. rewrite List.Forall_forall in Hsizes.
    apply (Hsizes _ (leaf_reached_in_leaves t q)). }
  assert (Hiff : forall q, pathLength q t = Throw <-> 2 <= routed t data (route t q)).
  { intros q. rewrite <- Hleaf.
    destruct (pathLength_cases q t) as [Hsmall Hbig]. split; [|exact Hbig].
    intros Hthrow. destruct (Nat.le_gt_cases (leaf_reached t q) 1) as [Hle|Hgt];
      [|exact Hgt].
    rewrite Hsmall in Hthrow by exact Hle. discriminate. }
  split; [exact Hiff|].
  intros p l1 l2 l3 ->. apply Hiff, routed_twice.
Qed.

(** X13 on a point that the data hold twice. *)
Lemma pathLength_throws_on_shared_leaf_witness :
  exists t g',
    buildTree sample_random 15 (map Some [[1; 2]; [3; 4]; [1; 2]]%Q) 0 0 = (Ret t, g')
    /\ pathLength [1; 2]%Q t = Throw.
Proof.
  destruct (buildTree_fuel_returns sample_random (15 - 0) 15
              [[1; 2]; [3; 4]; [1; 2]]%Q 0 0) as (t & g' & H); [lia|].
  exists t, g'. split; [exact H|].
  destruct (pathLength_throws_on_shared_leaf sample_random 2 (15 - 0) 15
              [[1; 2]; [3; 4]; [1; 2]]%Q 0 0 t g') as [_ Hdup].
  - exact sample_random_unit.
  - lia.
  - repeat constructor.
  - exact H.
  - apply (Hdup [1; 2]%Q [] [[3; 4]%Q] []). reflexivity.
Defined.

(** ** Samples larger than the data *)

Section SmallSamples.

Variable Math_random : N -> Q.
Hypothesis random_unit : unit_interval Math_random.

Lemma train_small_throws (k : nat) (this : IsolationForest) (data : list point)
    (g : N) :
  0 < k ->
  Forall (fun p : point => length p = k) data ->
  data <> [] ->
  length data < sampleSize this ->
  1 <= numTrees this ->
  exists ts g',
    train Math_random this data g = (Ret tt, set_trees this ts, g')
    /\ Forall (fun t => exists p, In p data /\ pathLength p t = Throw) ts
    /\ exists p,
         In p data
         /\ forall Math_log Math_pow n,
              predict Math_log Math_pow (set_trees this ts) n p = Throw.
Proof.
  intros Hk Hall Hne Hsmall Hn.
  destruct (train_returns Math_random random_unit this data g Hne)
    as (ts & g' & Htrain & Hlen & Hbuilt).
  exists ts, g'. split; [exact Htrain|].
  assert (Hthrows : Forall (fun t => exists p, In p data /\ pathLength p t = Throw) ts).
  { eapply Forall_impl; [exact Hbuilt|].
    intros t (pts & g1 & g2 & Hpts & Hin & Hbuild).
    destruct (sample_repeats data pts Hin) as (p & l1 & l2 & l3 & E & Hp); [lia|].
    exists p. split; [exact Hp|].
    assert (Hall' : Forall (fun p : point => length p = k) pts).
    { rewrite List.Forall_forall in *. intros x Hx. apply Hall, Hin, Hx. }
    unfold buildTree in Hbuild.
    pose proof (buildTree_leaf_sizes Math_random random_unit k Hk _ _ pts 0 g1 t g2
                  Hall' Hbuild) as Hsizes.
    destruct (pathLength_cases p t) as [_ Hbig]. apply Hbig.
    rewrite List.Forall_forall in Hsizes.
    pose proof (Hsizes _ (leaf_reached_in_leaves t p)) as Hleaf.
    cbn [fst snd] in Hleaf. rewrite Hleaf, E. apply routed_twice. }
  split; [exact Hthrows|].
  destruct ts as [|t ts]; [simpl in Hlen; lia|].
  pose proof (Forall_inv Hthrows) as (p & Hp & Ht).
  exists p. split; [exact Hp|]. intros Math_log Math_pow n.
  unfold predict. cbn [set_trees trees omap]. rewrite Ht. reflexivity.
Qed.

End SmallSamples.

(** X14.  Training on fewer points than [sampleSize]: every sample is
    drawn with replacement and so holds some point twice, every tree of the
    forest makes [pathLength] throw for a point of the training data, and
    [predict] throws for at least one point of the training data.  With the
    sample size of 512 that the script uses this is the case at every
    training on a history of fewer than 512 requests, the first one, at 100
    requests, included. *)
Theorem small_dataset_forest_throws (Math_random : N -> Q) (k : nat)
    (this : IsolationForest) (data : list point) (g : N) :
  unit_interval Math_random ->
  0 < k ->
  Forall (fun p : point => length p = k) data ->
  data <> [] ->
  length data < sampleSize this ->
  1 <= numTrees this ->
  exists ts g',
    train Math_random this data g = (Ret tt, set_trees this ts, g')
    /\ Forall (fun t => exists p, In p data /\ pathLength p t = Throw) ts
    /\ exists p,
         In p data
         /\ forall Math_log Math_pow n,
              predict Math_log Math_pow (set_trees this ts) n p = Throw.
Proof.
  intros Hu Hk Hall Hne Hsmall Hn.
  now apply (train_small_throws Math_random Hu k this data g).
Qed.

(** X14 on a history of one request and the forest of the script. *)
Lemma small_dataset_forest_throws_witness :
  exists ts g',
    train sample_random (new_IsolationForest 200 512 15) [sample_point] 0
    = (Ret tt, set_trees (new_IsolationForest 200 512 15) ts, g')
    /\ Forall (fun t => exists p, In p [sample_point] /\ pathLength p t = Throw) ts
    /\ exists p,
         In p [sample_point]
         /\ forall Math_log Math_pow n,
              predict Math_log Math_pow
                (set_trees (new_IsolationForest 200 512 15) ts) n p = Throw.
Proof.
  apply (small_dataset_forest_throws sample_random 11
           (new_IsolationForest 200 512 15) [sample_point] 0).
  - exact sample_random_unit.
  - lia.
  - repeat constructor.
  - discriminate.
  - cbn [new_IsolationForest sampleSize length]. lia.
  - cbn [new_IsolationForest numTrees]. lia.
Defined.

(** ** The threshold and the scores above it *)

Lemma filter_length_perm {A} (f : A -> bool) (l l' : list A) :
  Permutation l l' -> length (List.filter f l) = length (List.filter f l').
Proof.
  induction 1 as [|x l l' _ IH|x y l|l l' l'' _ IH1 _ IH2]; cbn [List.filter].
  - reflexivity.
  - destruct (f x); cbn [length]; now rewrite IH.
  - destruct (f x), (f y); reflexivity.
  - now rewrite IH1.
Qed.

Lemma sorted_lookup_le (l : list Q) :
  StronglySorted Qle l ->
  forall i j x y, i <= j -> l !! i = Some x -> l !! j = Some y -> (x <= y)%Q.
Proof.
  induction 1 as [|a l Hs IH Ha]; intros i j x y Hij Hx Hy; [discriminate Hx|].
  destruct i as [|i], j as [|j]; cbn in Hx, Hy.
  - injection Hx as <-. injection Hy as <-. apply Qle_refl.
  - injection Hx as <-. rewrite List.Forall_forall in Ha. apply Ha.
    apply list_elem_of_In. eapply list_elem_of_lookup_2. exact Hy.
  - lia.
  - apply (IH i j); [lia | exact Hx | exact Hy].
Qed.

Lemma above_sorted (l : list Q) (i : nat) (v : Q) :
  StronglySorted Qle l -> l !! i = Some v -> above v l <= length l - S i.
Proof.
  intros Hs Hv. unfold above.
  rewrite <- (firstn_skipn (S i) l) at 1. rewrite List.filter_app, length_app.
  rewrite filter_none.
  - cbn [length]. etransitivity; [apply List.filter_length_le|].
    rewrite length_skipn. lia.
  - intros x Hx. apply list_elem_of_In, list_elem_of_lookup_1 in Hx as [j Hj].
    assert (Hlt : j < S i).
    { apply lookup_lt_Some in Hj. rewrite length_firstn in Hj. lia. }
    change (firstn (S i) l) with (take (S i) l) in Hj.
    rewrite lookup_take_lt in Hj by exact Hlt.
    unfold Qltb. apply negb_false_iff, Qle_bool_iff.
    apply (sorted_lookup_le l Hs j i); [lia | exact Hj | exact Hv].
Qed.

Lemma threshold_spec (scores : list Q) :
  scores <> [] ->
  exists v,
    calculateDynamicThreshold scores = Some v
    /\ In v scores
    /\ 20 * above v scores < length scores.
Proof.
  intros Hne.
  assert (Hpos : 0 < length scores) by (destruct scores; [congruence | simpl; lia]).
  assert (Hlen : length (sort_ascending scores) = length scores).
  { symmetry. apply Permutation_length, sort_ascending_perm. }
  destruct (lookup_lt_is_Some_2 (sort_ascending scores) (95 * length scores / 100))
    as [v Hv].
  { rewrite Hlen. now apply percentile_index_lt. }
  exists v. split; [|split].
  - unfold calculateDynamicThreshold.
    destruct (length scores =? 0) eqn:E; [apply Nat.eqb_eq in E; lia|].
    cbv zeta. now rewrite Hlen, percentile_index.
  - apply (Permutation_in _ (Permutation_sym (sort_ascending_perm scores))).
    apply list_elem_of_In. eapply list_elem_of_lookup_2. exact Hv.
  - unfold above.
    rewrite (filter_length_perm (Qltb v) _ _ (sort_ascending_perm scores)).
    pose proof (above_sorted _ _ _ (sort_ascending_sorted scores) Hv) as Ha.
    unfold above in Ha. rewrite Hlen in Ha.
    pose proof (Nat.div_mod_eq (95 * length scores) 100) as Hd.
    pose proof (Nat.mod_upper_bound (95 * length scores) 100) as Hm.
    lia.
Qed.

Lemma above_zero (v : Q) (scores : list Q) :
  above v scores = 0 -> forall s, In s scores -> (s <= v)%Q.
Proof.
  unfold above. intros H s Hs.
  destruct (Qltb v s) eqn:E.
  - assert (Hin : In s (List.filter (Qltb v) scores)) by now apply List.filter_In.
    destruct (List.filter (Qltb v) scores); [contradiction | discriminate H].
  - unfold Qltb in E. now apply negb_false_iff, Qle_bool_iff in E.
Qed.

(** X15.  On a history that is not empty the threshold is one of the
    scores of the history, and fewer than one in twenty of the scores are
    above it.  So on a history of 20 scores or fewer the threshold is the
    largest score. *)
Theorem threshold_is_a_top_score (scores : list Q) :
  scores <> [] ->
  exists v,
    calculateDynamicThreshold scores = Some v
    /\ In v scores
    /\ 20 * above v scores < length scores
    /\ (length scores <= 20 -> forall s, In s scores -> (s <= v)%Q).
Proof.
  intros Hne. destruct (threshold_spec scores Hne) as (v & Hv & Hin & Hab).
  exists v. repeat split; try assumption.
  intros Hlen. apply above_zero. lia.
Qed.

(** X15 on a history of three scores. *)
Lemma threshold_is_a_top_score_witness :
  exists v,
    calculateDynamicThreshold [(3 # 10); (9 # 10); (5 # 10)]%Q = Some v
    /\ In v [(3 # 10); (9 # 10); (5 # 10)]%Q
    /\ 20 * above v [(3 # 10); (9 # 10); (5 # 10)]%Q < 3
    /\ (3 <= 20 -> forall s, In s [(3 # 10); (9 # 10); (5 # 10)]%Q -> (s <= v)%Q).
Proof.
  apply (threshold_is_a_top_score [(3 # 10); (9 # 10); (5 # 10)]%Q).
  discriminate.
Defined.

Section QuietStart.

Variable Math_random : N -> Q.
Variable Math_log : Q -> Q.
Variable Math_pow : Q -> Q -> Q.
Variable new_URL : string -> option ParsedURL.
Variable sortedParams : string -> string.
Variable extractIdentifiers : string -> list string.

Local Abbreviation analyze :=
  (analyzeNetworkRequest Math_random Math_log Math_pow new_URL sortedParams
     extractIdentifiers).
Local Abbreviation tail :=
  (tail_steps Math_log Math_pow sortedParams extractIdentifiers).
Local Abbreviation handle' :=
  (handle Math_random Math_log Math_pow new_URL sortedParams extractIdentifiers).
Local Abbreviation run' :=
  (run Math_random Math_log Math_pow new_URL sortedParams extractIdentifiers).
Local Abbreviation T := telemetryData.
Local Abbreviation quiet :=
  (fun w : World => forallb (fun e => negb (is_anomalous e)) (console w)).

(** The scoring step reports nothing while the score history, the new
    score included, has 20 entries or fewer. *)
Lemma step_score_quiet requestId (url : string) features (w : World) :
  let w' := snd (step_score Math_log Math_pow requestId url features w) in
  length (anomalyScores (T w')) <= 20 -> quiet w' = quiet w.
Proof.
  unfold step_score.
  destruct (isolationForest (T w)) as [forest|]; [|reflexivity].
  destruct (predict Math_log Math_pow forest _ features) as [score| |];
    [|reflexivity..].
  cbv zeta.
  set (scores := push_capped 1000 (anomalyScores (T w)) score).
  change (anomalyScores (T (with_telemetry _ w))) with scores.
  assert (Hin : length scores <= 20 -> In score scores /\ scores <> []).
  { intros Hlen. subst scores.
    destruct (push_capped_cases 1000 (anomalyScores (T w)) score)
      as [[_ E]|[Hge [o Ho]]].
    - rewrite E. split; [apply in_or_app; right; now left|].
      intros E'. apply (f_equal length) in E'. rewrite length_app in E'.
      cbn [length] in E'. lia.
    - apply (f_equal length) in Ho. rewrite length_app in Ho.
      cbn [length] in Ho.
      assert (20 < 1000) by (apply Nat.ltb_lt; reflexivity). lia. }
  destruct (calculateDynamicThreshold scores) as [threshold|] eqn:Ht;
    [|reflexivity].
  destruct (Qltb threshold score) eqn:Hlt; [|reflexivity].
  cbn [snd logAnomaly telemetryData]. intros Hlen. exfalso.
  change (anomalyScores (T (with_telemetry
            (fun t => set_anomalyScores (push_capped 1000 (anomalyScores t) score) t) w)))
    with scores in Hlen.
  destruct (Hin Hlen) as [Hs Hne].
  destruct (threshold_spec scores Hne) as (v & Hv & _ & Hab).
  rewrite Ht in Hv. injection Hv as <-.
  assert (Hle : (score <= threshold)%Q) by (apply (above_zero threshold scores); [lia | exact Hs]).
  unfold Qltb in Hlt. apply negb_true_iff in Hlt.
  apply Qle_bool_iff in Hle. congruence.
Qed.

Lemma tail_quiet requestId (url : string) features options (w : World) :
  let w' := snd (tail requestId url features options w) in
  length (anomalyScores (T w')) <= 20 -> quiet w' = quiet w.
Proof.
  cbv zeta. unfold tail_steps. rewrite sbind_snd.
  pose proof (step_score_quiet requestId url features w) as Hs. cbv zeta in Hs.
  destruct (step_score Math_log Math_pow requestId url features w)
    as [[[]| |] w1]; cbn [snd] in Hs; [|exact Hs..].
  match goal with
  | |- context [snd (?rest w1)] =>
      assert (Hk : (fun w => (anomalyScores (T w), quiet w)) (snd (rest w1))
                   = (fun w => (anomalyScores (T w), quiet w)) w1)
  end.
  { apply (sbind_keeps (fun w => (anomalyScores (T w), quiet w))).
    - intros w2. unfold step_repetition. cbv zeta.
      destruct (bool_decide _); cbn [snd];
        [now rewrite logAnomaly_quiet | reflexivity].
    - intros _ w2. apply (sbind_keeps (fun w => (anomalyScores (T w), quiet w))).
      + intros w3. unfold step_identifiers. cbv zeta.
        destruct (0 <? length _); cbn [snd];
          [now rewrite logAnomaly_quiet | reflexivity].
      + intros _ w3. unfold saveTelemetryData.
        save_cases w3; reflexivity. }
  cbv beta in Hk. injection Hk as -> ->. exact Hs.
Qed.

Lemma handle_quiet (e : event) (w : World) :
  length (anomalyScores (T (handle' e w))) <= 20 ->
  quiet (handle' e w) = quiet w.
Proof.
  destruct e as [url options now|requestId|requestId]; cbn [handle].
  2,3: intros _; unfold reportFalsePositive, reportFalseNegative, saveTelemetryData;
       cbn [useLocalStorage with_telemetry];
       save_cases w; reflexivity.
  unfold analyzeNetworkRequest. rewrite try_catch_snd.
  destruct (new_URL url) as [pu|] eqn:Hu.
  2:{ now rewrite body_invalid by exact Hu. }
  destruct (extractFeatures_valid new_URL (requestFrequency (T w)) url options pu Hu)
    as [features Hf].
  rewrite (body_valid Math_random Math_log Math_pow new_URL sortedParams
             extractIdentifiers url options now w pu features Hu Hf).
  rewrite sbind_snd.
  pose proof (step_retrain_frame Math_random now (before_retrain url features w))
    as Hr. cbv zeta in Hr.
  destruct (step_retrain Math_random now (before_retrain url features w))
    as [[[]| |] w4]; cbn [snd] in Hr |- *;
    destruct Hr as (_ & _ & _ & _ & Hc & _).
  - intros Hlen. rewrite tail_quiet by exact Hlen. now rewrite Hc.
  - intros _. now rewrite Hc.
  - intros _. now rewrite Hc.
Qed.

Lemma handle_scores_grow (e : event) (w : World) :
  length (anomalyScores (T w)) <= 1000 ->
  length (anomalyScores (T w)) <= length (anomalyScores (T (handle' e w))).
Proof.
  intros Hcap. destruct e as [url options now|requestId|requestId]; cbn [handle].
  2,3: unfold reportFalsePositive, reportFalseNegative, saveTelemetryData;
       cbn [useLocalStorage with_telemetry];
       save_cases w; reflexivity.
  destruct (analyze_histories Math_random Math_log Math_pow new_URL sortedParams
              extractIdentifiers url options now w) as [_ [->|[s ->]]];
    [reflexivity|].
  rewrite push_capped_length by exact Hcap. lia.
Qed.

Lemma run_quiet (events : list event) :
  forall w : World,
    within_caps w ->
    length (anomalyScores (T (run' events w))) <= 20 ->
    quiet (run' events w) = quiet w.
Proof.
  induction events as [|e events IH]; intros w Hw Hlen; [reflexivity|].
  cbn [run fold_left] in *.
  change (fold_left (fun w e => handle' e w) events (handle' e w))
    with (run' events (handle' e w)) in *.
  assert (Hw' : within_caps (handle' e w)) by now apply handle_within_caps.
  rewrite IH by assumption.
  apply handle_quiet.
  assert (Hmono : forall evs w0, within_caps w0 ->
            length (anomalyScores (T w0))
            <= length (anomalyScores (T (run' evs w0)))).
  { clear. induction evs as [|e evs IH]; intros w0 Hw0; [reflexivity|].
    cbn [run fold_left].
    change (fold_left (fun w e => handle' e w) evs (handle' e w0))
      with (run' evs (handle' e w0)).
    etransitivity; [apply (handle_scores_grow e w0), Hw0|].
    apply IH. now apply handle_within_caps. }
  etransitivity; [apply (Hmono events _ Hw') | exact Hlen].
Qed.

(** X16.  As long as the score history holds 20 scores or fewer, no
    request is reported as anomalous: each new score is compared with a
    threshold computed from a history that already contains it, and on so
    short a history the threshold is the largest score.  The first report
    of an anomalous request can only come with the 21st score. *)
Theorem no_report_within_twenty_scores (events : list event) (t0 : Z)
    (storage : bool) :
  let w := run' events (start t0 storage) in
  length (anomalyScores (T w)) <= 20 -> no_anomalous w.
Proof.
  cbv zeta. intros Hlen. unfold no_anomalous.
  rewrite run_quiet; [| |exact Hlen].
  - unfold start, saveTelemetryData. now destruct storage.
  - unfold start, within_caps, saveTelemetryData.
    destruct storage; cbn [telemetryData logAnomaly set_totalRuns
      initializeTelemetryData networkRequests anomalyScores useLocalStorage
      length]; split; apply Nat.le_0_l.
Qed.

End QuietStart.

(** X16 on a session of one request. *)
Lemma no_report_within_twenty_scores_witness :
  no_anomalous
    (run sample_random sample_log sample_pow sample_URL sample_sortedParams
       sample_scan [request_a] (start 0 true)).
Proof.
  apply (no_report_within_twenty_scores sample_random sample_log sample_pow
           sample_URL sample_sortedParams sample_scan [request_a] 0 true).
  apply Nat.leb_le. vm_compute. reflexivity.
Defined.

(** ** The range of the score *)

Lemma Qnat_lt (a b : nat) : a < b -> (Qnat a < Qnat b)%Q.
Proof. intros H. unfold Qnat. rewrite <- Zlt_Qlt. lia. Qed.

Lemma Qnat_le (a b : nat) : a <= b -> (Qnat a <= Qnat b)%Q.
Proof. intros H. unfold Qnat. rewrite <- Zle_Qle. lia. Qed.

Lemma Qnat_nonneg (a : nat) : (0 <= Qnat a)%Q.
Proof. apply (Qnat_le 0 a). lia. Qed.

Lemma Qdiv_nonneg (a b : Q) : (0 <= a)%Q -> (0 <= b)%Q -> (0 <= a / b)%Q.
Proof.
  intros Ha Hb. destruct (Qlt_le_dec 0 b) as [Hpos|Hle].
  - apply Qle_shift_div_l; [exact Hpos|]. now rewrite Qmult_0_l.
  - assert (E : (b == 0)%Q) by now apply Qle_antisym.
    unfold Qdiv. rewrite E. unfold Qinv. cbn [Qnum]. rewrite Qmult_0_r.
    apply Qle_refl.
Qed.

Section ScoreRange.

Variable Math_log : Q -> Q.
Variable Math_pow : Q -> Q -> Q.
Hypothesis log_ok : log_grows Math_log.
Hypothesis pow_ok : pow_shrinks Math_pow.

Lemma c_positive (n : nat) : (0 < c Math_log n)%Q.
Proof.
  unfold c. destruct (n <=? 1) eqn:E; [reflexivity|].
  apply Nat.leb_gt in E.
  assert (Hr : (2 * Qnat (n - 1) / Qnat n < 2)%Q).
  { apply Qlt_shift_div_r; [apply (Qnat_lt 0 n); lia|].
    pose proof (Qnat_lt (n - 1) n ltac:(lia)). lra. }
  destruct log_ok as [H1 H2].
  destruct (Nat.eq_dec n 2) as [->|Hn].
  - pose proof (H1 (Qnat (2 - 1)) ltac:(apply Qle_refl)) as HL.
    assert (Hh : (2 * Qnat (2 - 1) / Qnat 2 == 1)%Q) by reflexivity.
    rewrite Hh. lra.
  - assert (HL : ((1 # 2) <= Math_log (Qnat (n - 1)))%Q).
    { apply H2. apply (Qnat_le 2 (n - 1)). lia. }
    lra.
Qed.

Lemma predict_range (this : IsolationForest) (n : nat) (q : point) (s : Q) :
  predict Math_log Math_pow this n q = Ret s -> (0 <= s)%Q /\ (s <= 1)%Q.
Proof.
  unfold predict. intros H.
  destruct (omap (pathLength q) (trees this)) as [pathLengths| |];
    try discriminate H.
  cbn [mbind outcome_bind obind] in H. injection H as <-.
  apply pow_ok.
  assert (Ha : (0 <= avgPathLength this pathLengths)%Q).
  { unfold avgPathLength. apply Qdiv_nonneg; apply Qnat_nonneg. }
  pose proof (c_positive n) as Hc.
  assert (Hd : (0 <= avgPathLength this pathLengths / c Math_log n)%Q).
  { apply Qdiv_nonneg; [exact Ha | now apply Qlt_le_weak]. }
  assert (E : (- avgPathLength this pathLengths / c Math_log n
               == - (avgPathLength this pathLengths / c Math_log n))%Q)
    by (unfold Qdiv; ring).
  rewrite E.
  set (x := (avgPathLength this pathLengths / c Math_log n)%Q) in *. lra.
Qed.

End ScoreRange.

(** X17.  With a logarithm that is not negative from 1 on and at least one
    half from 2 on, and powers of 2 that lie in [[0, 1]] for exponents that
    are not positive: the normalisation [c(n)] is positive for every [n],
    and for a forest of one tree or more (with [numTrees] at 0 the script
    divides by zero) the exponent of the score is never positive and every
    score that [predict] returns is a number of [[0, 1]]. *)
Theorem predict_score_in_unit_interval (Math_log : Q -> Q)
    (Math_pow : Q -> Q -> Q) (this : IsolationForest) (n : nat) (q : point)
    (s : Q) :
  log_grows Math_log ->
  pow_shrinks Math_pow ->
  1 <= numTrees this ->
  predict Math_log Math_pow this n q = Ret s ->
  (0 < c Math_log n)%Q /\ (0 <= s)%Q /\ (s <= 1)%Q.
Proof.
  intros Hl Hp _ H. split; [now apply c_positive|].
  now apply (predict_range Math_log Math_pow Hl Hp this n q s).
Qed.

Lemma sample_log_grows : log_grows sample_log.
Proof.
  unfold sample_log. split; intros x Hx.
  - apply Qle_shift_div_l; lra.
  - apply Qle_shift_div_l; lra.
Qed.

Lemma sample_pow_shrinks : pow_shrinks sample_pow.
Proof.
  unfold sample_pow. intros e He. split.
  - apply Qle_shift_div_l; lra.
  - apply Qle_shift_div_r; lra.
Qed.

(** X17 on a forest of one tree, a single leaf. *)
Lemma predict_score_in_unit_interval_witness :
  exists s,
    predict sample_log sample_pow
      (set_trees (new_IsolationForest 1 1 15) [Leaf 1]) 5 sample_point = Ret s
    /\ (0 < c sample_log 5)%Q /\ (0 <= s)%Q /\ (s <= 1)%Q.
Proof.
  eexists. split; [reflexivity|].
  apply (predict_score_in_unit_interval sample_log sample_pow
           (set_trees (new_IsolationForest 1 1 15) [Leaf 1]) 5 sample_point).
  - exact sample_log_grows.
  - exact sample_pow_shrinks.
  - cbn [set_trees new_IsolationForest numTrees]. lia.
  - reflexivity.
Defined.

Lemma push_capped_Forall {A} (P : A -> Prop) (cap : nat) (l : list A) (x : A) :
  Forall P l -> P x -> Forall P (push_capped cap l x).
Proof.
  intros Hl Hx.
  assert (H : Forall P (l ++ [x])).
  { apply Forall_app. split; [exact Hl | now constructor]. }
  destruct (push_capped_cases cap l x) as [[_ ->]|[_ [o Ho]]]; [exact H|].
  rewrite Ho in H. now apply Forall_inv_tail in H.
Qed.

Section StoredScores.

Variable Math_random : N -> Q.
Variable Math_log : Q -> Q.
Variable Math_pow : Q -> Q -> Q.
Variable new_URL : string -> option ParsedURL.
Variable sortedParams : string -> string.
Variable extractIdentifiers : string -> list string.
Hypothesis log_ok : log_grows Math_log.
Hypothesis pow_ok : pow_shrinks Math_pow.

Local Abbreviation tail :=
  (tail_steps Math_log Math_pow sortedParams extractIdentifiers).
Local Abbreviation handle' :=
  (handle Math_random Math_log Math_pow new_URL sortedParams extractIdentifiers).
Local Abbreviation run' :=
  (run Math_random Math_log Math_pow new_URL sortedParams extractIdentifiers).
Local Abbreviation T := telemetryData.

Lemma step_score_unit requestId (url : string) features (w : World) :
  unit_scores (anomalyScores (T w)) ->
  unit_scores
    (anomalyScores (T (snd (step_score Math_log Math_pow requestId url features w)))).
Proof.
  intros Hw. unfold step_score.
  destruct (isolationForest (T w)) as [forest|]; [|exact Hw].
  destruct (predict Math_log Math_pow forest _ features) as [score| |] eqn:Hp;
    [|exact Hw..].
  assert (Hs : unit_scores (push_capped 1000 (anomalyScores (T w)) score)).
  { apply push_capped_Forall; [exact Hw|].
    eapply predict_range; [exact log_ok | exact pow_ok | exact Hp]. }
  cbv zeta. destruct (calculateDynamicThreshold _) as [threshold|];
    [destruct (Qltb threshold score)|]; exact Hs.
Qed.

Lemma tail_unit requestId (url : string) features options (w : World) :
  unit_scores (anomalyScores (T w)) ->
  unit_scores (anomalyScores (T (snd (tail requestId url features options w)))).
Proof.
  intros Hw. unfold tail_steps. rewrite sbind_snd.
  pose proof (step_score_unit requestId url features w Hw) as Hs.
  destruct (step_score Math_log Math_pow requestId url features w)
    as [[[]| |] w1]; cbn [snd] in Hs; [|exact Hs..].
  match goal with
  | |- context [snd (?rest w1)] =>
      assert (Hk : anomalyScores (T (snd (rest w1))) = anomalyScores (T w1))
  end.
  { apply (sbind_keeps (fun w => anomalyScores (T w))).
    - intros w2. unfold step_repetition. cbv zeta.
      destruct (bool_decide _); reflexivity.
    - intros _ w2. apply (sbind_keeps (fun w => anomalyScores (T w))).
      + intros w3. unfold step_identifiers. cbv zeta.
        destruct (0 <? length _); reflexivity.
      + intros _ w3. unfold saveTelemetryData.
        save_cases w3; reflexivity. }
  rewrite Hk. exact Hs.
Qed.

Lemma handle_unit (e : event) (w : World) :
  unit_scores (anomalyScores (T w)) ->
  unit_scores (anomalyScores (T (handle' e w))).
Proof.
  intros Hw. destruct e as [url options now|requestId|requestId]; cbn [handle].
  2,3: unfold reportFalsePositive, reportFalseNegative, saveTelemetryData;
       cbn [useLocalStorage with_telemetry];
       save_cases w; exact Hw.
  unfold analyzeNetworkRequest. rewrite try_catch_snd.
  destruct (new_URL url) as [pu|] eqn:Hu.
  2:{ now rewrite body_invalid by exact Hu. }
  destruct (extractFeatures_valid new_URL (requestFrequency (T w)) url options pu Hu)
    as [features Hf].
  rewrite (body_valid Math_random Math_log Math_pow new_URL sortedParams
             extractIdentifiers url options now w pu features Hu Hf).
  rewrite sbind_snd.
  pose proof (step_retrain_frame Math_random now (before_retrain url features w))
    as Hr. cbv zeta in Hr.
  destruct (step_retrain Math_random now (before_retrain url features w))
    as [[[]| |] w4]; cbn [snd] in Hr |- *;
    destruct Hr as (_ & Hs & _).
  - apply tail_unit. now rewrite Hs.
  - now rewrite Hs.
  - now rewrite Hs.
Qed.

(** X18.  Under the same two assumptions on [Math.log] and on the powers
    of 2, every score that a session has in its score history is a number
    of [[0, 1]], whatever was ingested or reported. *)
Theorem stored_scores_in_unit_interval (events : list event) (t0 : Z)
    (storage : bool) :
  unit_scores (anomalyScores (T (run' events (start t0 storage)))).
Proof.
  assert (H : forall w, unit_scores (anomalyScores (T w)) ->
                        unit_scores (anomalyScores (T (run' events w)))).
  { induction events as [|e events IH]; intros w Hw; [exact Hw|].
    cbn [run fold_left]. apply IH, handle_unit, Hw. }
  apply H. unfold start, saveTelemetryData. destruct storage; constructor.
Qed.

End StoredScores.

(** X18 on a session of one request. *)
Lemma stored_scores_in_unit_interval_witness :
  unit_scores
    (anomalyScores
       (telemetryData
          (run sample_random sample_log sample_pow sample_URL sample_sortedParams
             sample_scan [request_a] (start 0 true)))).
Proof.
  apply (stored_scores_in_unit_interval sample_random sample_log sample_pow
           sample_URL sample_sortedParams sample_scan).
  - exact sample_log_grows.
  - exact sample_pow_shrinks.
Defined.

(** ** Repetitions while no model exists *)



Section EarlyRepetitions.

Variable Math_random : N -> Q.
Variable Math_log : Q -> Q.
Variable Math_pow : Q -> Q -> Q.
Variable new_URL : string -> option ParsedURL.
Variable sortedParams : string -> string.
Variable extractIdentifiers : string -> list string.
Hypothesis random_unit : unit_interval Math_random.

Local Abbreviation analyze :=
  (analyzeNetworkRequest Math_random Math_log Math_pow new_URL sortedParams
     extractIdentifiers).
Local Abbreviation tail :=
  (tail_steps Math_log Math_pow sortedParams extractIdentifiers).
Local Abbreviation handle' :=
  (handle Math_random Math_log Math_pow new_URL sortedParams extractIdentifiers).
Local Abbreviation run' :=
  (run Math_random Math_log Math_pow new_URL sortedParams extractIdentifiers).
Local Abbreviation T := telemetryData.







End EarlyRepetitions.


(** ** The vectors of the history *)

Lemma extractFeatures_vector (new_URL : string -> option ParsedURL)
    (freq : gmap string nat) (url : string) (options : option RequestOptions)
    (features : point) :
  extractFeatures new_URL freq url options = Ret features ->
  feature_vector features.
Proof.
  unfold extractFeatures. destruct (new_URL url) as [pu|]; [|discriminate].
  cbv zeta. intros [= <-]. split; [reflexivity|].
  repeat (constructor; [apply Qnat_nonneg|]). constructor.
Qed.

Section HistoryVectors.

Variable Math_random : N -> Q.
Variable Math_log : Q -> Q.
Variable Math_pow : Q -> Q -> Q.
Variable new_URL : string -> option ParsedURL.
Variable sortedParams : string -> string.
Variable extractIdentifiers : string -> list string.

Local Abbreviation analyze :=
  (analyzeNetworkRequest Math_random Math_log Math_pow new_URL sortedParams
     extractIdentifiers).
Local Abbreviation handle' :=
  (handle Math_random Math_log Math_pow new_URL sortedParams extractIdentifiers).
Local Abbreviation run' :=
  (run Math_random Math_log Math_pow new_URL sortedParams extractIdentifiers).
Local Abbreviation T := telemetryData.

(** What one event does to the request history. *)
Lemma handle_history (e : event) (w : World) :
  networkRequests (T (handle' e w))
  = match e with
    | Request url options _ =>
        match extractFeatures new_URL (requestFrequency (T w)) url options with
        | Ret features => push_capped 10000 (networkRequests (T w)) features
        | _ => networkRequests (T w)
        end
    | _ => networkRequests (T w)
    end.
Proof.
  destruct e as [url options now|requestId|requestId]; cbn [handle].
  2,3: unfold reportFalsePositive, reportFalseNegative, saveTelemetryData;
       cbn [useLocalStorage with_telemetry];
       save_cases w; reflexivity.
  destruct (new_URL url) as [pu|] eqn:Hu.
  2:{ rewrite analyze_invalid by exact Hu. unfold extractFeatures. now rewrite Hu. }
  destruct (extractFeatures_valid new_URL (requestFrequency (T w)) url options pu Hu)
    as [features Hf].
  rewrite Hf. unfold analyzeNetworkRequest. rewrite try_catch_snd.
  rewrite (body_valid Math_random Math_log Math_pow new_URL sortedParams
             extractIdentifiers url options now w pu features Hu Hf).
  rewrite (sbind_keeps (fun w => networkRequests (T w))).
  - apply before_retrain_fields.
  - intros w1. apply step_retrain_frame.
  - intros _ w1. apply tail_frame.
Qed.

Lemma run_history_vectors (events : list event) :
  forall w : World,
    Forall feature_vector (networkRequests (T w)) ->
    Forall feature_vector (networkRequests (T (run' events w))).
Proof.
  induction events as [|e events IH]; intros w Hw; [exact Hw|].
  cbn [run fold_left]. apply IH. rewrite handle_history.
  destruct e as [url options now| |]; [|exact Hw..].
  destruct (extractFeatures new_URL (requestFrequency (T w)) url options)
    as [features| |] eqn:Hf; [|exact Hw..].
  apply push_capped_Forall; [exact Hw|].
  eapply extractFeatures_vector. exact Hf.
Qed.

(** X20.  Whatever a session ingests, every entry of its request history
    is a vector of exactly 11 numbers, none of them negative; and one event
    changes the history by at most the push of the feature vector of the
    request it carries. *)
Theorem history_holds_feature_vectors (events : list event) (t0 : Z)
    (storage : bool) :
  Forall feature_vector (networkRequests (T (run' events (start t0 storage))))
  /\ forall (e : event) (w : World),
       networkRequests (T (handle' e w)) = networkRequests (T w)
       \/ exists url options now features,
            e = Request url options now
            /\ extractFeatures new_URL (requestFrequency (T w)) url options
               = Ret features
            /\ networkRequests (T (handle' e w))
               = push_capped 10000 (networkRequests (T w)) features.
Proof.
  split.
  - apply run_history_vectors. unfold start, saveTelemetryData.
    destruct storage; constructor.
  - intros e w. rewrite handle_history.
    destruct e as [url options now| |]; [|now left..].
    destruct (extractFeatures new_URL (requestFrequency (T w)) url options)
      as [features| |] eqn:Hf; [|now left..].
    right. exists url, options, now, features. auto.
Qed.

End HistoryVectors.

(** ** A model trained on a short history *)

Section ShortHistory.

Variable Math_random : N -> Q.
Hypothesis random_unit : unit_interval Math_random.

Variable Math_log : Q -> Q.
Variable Math_pow : Q -> Q -> Q.
Variable new_URL : string -> option ParsedURL.
Variable sortedParams : string -> string.
Variable extractIdentifiers : string -> list string.

Local Abbreviation analyze :=
  (analyzeNetworkRequest Math_random Math_log Math_pow new_URL sortedParams
     extractIdentifiers).
Local Abbreviation handle' :=
  (handle Math_random Math_log Math_pow new_URL sortedParams extractIdentifiers).
Local Abbreviation run' :=
  (run Math_random Math_log Math_pow new_URL sortedParams extractIdentifiers).
Local Abbreviation T := telemetryData.
Local Abbreviation forest0 := (new_IsolationForest 200 512 15).




End ShortHistory.


(** ** The features of a request *)

Lemma split_length (sep : ascii) (s : string) :
  length (split sep s) = 1 + count_char sep s.
Proof.
  induction s as [|ch s IH]; [reflexivity|].
  cbn [split count_char]. destruct (Ascii.eqb ch sep).
  - cbn [length]. now rewrite IH.
  - destruct (split sep s) as [|first rest]; [discriminate IH|].
    cbn [length] in *. lia.
Qed.

(** X22.  The feature vector of a request whose URL parses.  Its ninth
    entry, the path depth, is the number of slashes of the path plus one
    (2 for the path ["/"], and 2 again for ["/api"]).  For a request
    without options the vector holds the length of the URL, 0 for the
    method, 2 for the body (the JSON text of the empty string), 0 for each
    of the four header features, the length of the host name, the path
    depth, the length of the query string, and the frequency count. *)
Theorem features_of_a_request (new_URL : string -> option ParsedURL)
    (freq : gmap string nat) (url : string) (options : option RequestOptions)
    (pu : ParsedURL) :
  new_URL url = Some pu ->
  exists features,
    extractFeatures new_URL freq url options = Ret features
    /\ features !! 8 = Some (Qnat (1 + count_char "/" (pathname pu)))
    /\ (options = None ->
        features
        = map Qnat
            [ String.length url; 0; 2; 0; 0; 0; 0;
              String.length (hostname pu);
              1 + count_char "/" (pathname pu);
              String.length (searchParams pu);
              default 0 (freq !! baseOf (href pu)) ]).
Proof.
  intros Hu. unfold extractFeatures. rewrite Hu. cbv zeta.
  eexists. split; [reflexivity|]. split.
  - cbn [map lookup list_lookup]. now rewrite split_length.
  - intros ->. cbn [map]. rewrite split_length. reflexivity.
Qed.

(** X22 on a request to ["http://a.com/api?k=1"]. *)
Lemma features_of_a_request_witness :
  exists features,
    extractFeatures sample_URL ∅ "http://a.com/api?k=1" None = Ret features
    /\ features !! 8 = Some (Qnat 2).
Proof.
  destruct (features_of_a_request sample_URL ∅ "http://a.com/api?k=1" None
              {| href := "http://a.com/api?k=1"; hostname := "a.com";
                 pathname := "/api"; searchParams := "k=1" |} eq_refl)
    as (features & Hf & H8 & _).
  exists features. split; [exact Hf | exact H8].
Defined.
